(** * Bedrock guardrails benchmarks: a shallow embedding

    Two scripts are modelled: [benchmark.py] (module [Benchmark]) and
    [benchmark_pii_comparison.py] (module [PiiComparison]).

    Conventions of the embedding.
    - A Python [float] is a rational number ([Q]) with exact arithmetic;
      equalities between computed floats are therefore stated with [==].
      Where the binary64 rounding could matter (the index [int(n * 0.95)] and
      the overhead percentage) the binary64 computation is given next to the
      rational one, on primitive floats.
    - A Python [str] is a [string]: a sequence of code points below 256.
    - The objects produced by [json.loads] are the type [value]; [None] is
      [VNone].
    - The remote service, the clock and the wording of interpreter errors are
      an environment [Env]; the running clock, the number of remote calls and
      a log of them are the state [World] threaded through the monad [M]. *)

From Stdlib Require Import Bool List String Ascii NArith ZArith QArith Qround.
From Stdlib Require Import Lia Lqa Permutation Sorted Floats DecimalString.
Import ListNotations.

Set Implicit Arguments.
Set Warnings "-register-all".

(** ** Python strings *)

Module Str.

Definition code (c : ascii) : N := N_of_ascii c.

Definition between (lo hi : N) (c : ascii) : bool :=
  (lo <=? code c)%N && (code c <=? hi)%N.

(** [str.lower()] on code points below 256: A-Z, and the Latin-1 capitals
    U+00C0..U+00DE except the multiplication sign U+00D7. *)
Definition lower_char (c : ascii) : ascii :=
  if between 65 90 c || between 192 214 c || between 216 222 c
  then ascii_of_N (code c + 32)
  else c.

Fixpoint lower (s : string) : string :=
  match s with
  | EmptyString => EmptyString
  | String c s' => String (lower_char c) (lower s')
  end.

(** [s[:n]] *)
Fixpoint take (n : nat) (s : string) : string :=
  match n, s with
  | S n', String c s' => String c (take n' s')
  | _, _ => EmptyString
  end.

(** [needle in hay] for two strings *)
Fixpoint contains (needle hay : string) : bool :=
  prefix needle hay ||
  match hay with
  | EmptyString => false
  | String _ hay' => contains needle hay'
  end.

(** The prompt label of every result:
    [prompt[:50] + "..." if len(prompt) > 50 else prompt]. *)
Definition label (prompt : string) : string :=
  if (50 <? String.length prompt)%nat then take 50 prompt ++ "..." else prompt.

End Str.

(** ** Python objects read from JSON, and the operations the scripts apply *)

Inductive value : Type :=
| VNone
| VBool (b : bool)
| VInt (z : Z)
| VFloat (q : Q)
| VStr (s : string)
| VList (l : list value)
| VDict (d : list (string * value)).

(** Errors raised by the interpreter itself, with the object at fault. *)
Inductive py_error : Type :=
| TypeError (v : value)
| AttributeError (v : value)
| KeyError (v : value)
| IndexError (v : value)
| ValueError
| StatisticsError
| ZeroDivisionError.

Module Py.

Fixpoint lookup (key : string) (d : list (string * value)) : option value :=
  match d with
  | [] => None
  | (k, v) :: d' => if String.eqb k key then Some v else lookup key d'
  end.

Definition is_str (s : string) (v : value) : bool :=
  match v with
  | VStr s' => String.eqb s' s
  | _ => false
  end.

(** [v == s] for a string literal [s] *)
Definition eq_str (v : value) (s : string) : bool := is_str s v.

(** [key in container] for a string [key]: key membership for a dict,
    element membership for a list, substring for a string; anything else is
    not iterable. *)
Definition contains (key : string) (container : value) : py_error + bool :=
  match container with
  | VDict d => inr (match lookup key d with Some _ => true | None => false end)
  | VList l => inr (existsb (is_str key) l)
  | VStr s => inr (Str.contains key s)
  | _ => inl (TypeError container)
  end.

(** [container[key]] for a string [key] *)
Definition getitem (container : value) (key : string) : py_error + value :=
  match container with
  | VDict d =>
      match lookup key d with
      | Some v => inr v
      | None => inl (KeyError (VStr key))
      end
  | _ => inl (TypeError container)
  end.

(** [container.get(key, default)]: only a dict has the method. *)
Definition get (container : value) (key : string) (default : value)
  : py_error + value :=
  match container with
  | VDict d =>
      match lookup key d with
      | Some v => inr v
      | None => inr default
      end
  | _ => inl (AttributeError container)
  end.

(** Truth value of an object *)
Definition truthy (v : value) : bool :=
  match v with
  | VNone => false
  | VBool b => b
  | VInt z => negb (z =? 0)%Z
  | VFloat q => negb (Qeq_bool q 0)
  | VStr s => negb (String.eqb s "")
  | VList l => match l with [] => false | _ => true end
  | VDict d => match d with [] => false | _ => true end
  end.

(** [v[0]]: first element of a list, first character of a string; a dict
    read from JSON has string keys only, so the key [0] is missing. *)
Definition getitem0 (v : value) : py_error + value :=
  match v with
  | VList (x :: _) => inr x
  | VList [] => inl (IndexError v)
  | VStr (String c _) => inr (VStr (String c EmptyString))
  | VStr EmptyString => inl (IndexError v)
  | VDict _ => inl (KeyError (VInt 0))
  | _ => inl (TypeError v)
  end.

(** Truth value of an optional string ([if not r.error]) *)
Definition truthy_opt (e : option string) : bool :=
  match e with
  | None => false
  | Some s => negb (String.eqb s "")
  end.

End Py.

(** ** Regular expressions of the [re] module

    Only the constructs the four PII patterns use.  The matcher is the
    backtracking matcher of [re]: a greedy repetition tries the longest run
    first and gives characters back one at a time, an optional group is tried
    before it is skipped, and the first way to match wins. *)

Module Re.

(** Members of a character class *)
Inductive cset_item : Type :=
| CRange (lo hi : ascii)      (* a-z *)
| CChar (c : ascii)           (* a literal character *)
| CDigit                      (* \d *)
| CSpace.                     (* \s *)

Definition cset := list cset_item.

(** [\d] on code points below 256: the decimal digits. *)
Definition is_digit (c : ascii) : bool := Str.between 48 57 c.

(** [\s] on code points below 256: TAB..CR, FS..US, space, NEL, NBSP. *)
Definition is_space (c : ascii) : bool :=
  Str.between 9 13 c || Str.between 28 32 c ||
  (Str.code c =? 133)%N || (Str.code c =? 160)%N.

(** [\w] on code points below 256: alphanumeric characters and underscore. *)
Definition is_word (c : ascii) : bool :=
  Str.between 48 57 c || Str.between 65 90 c || Str.between 97 122 c ||
  (Str.code c =? 95)%N ||
  (Str.code c =? 170)%N || (Str.code c =? 181)%N || (Str.code c =? 186)%N ||
  Str.between 178 179 c || (Str.code c =? 185)%N || Str.between 188 190 c ||
  Str.between 192 214 c || Str.between 216 246 c || Str.between 248 255 c.

Definition in_item (c : ascii) (i : cset_item) : bool :=
  match i with
  | CRange lo hi => Str.between (Str.code lo) (Str.code hi) c
  | CChar c' => Ascii.eqb c c'
  | CDigit => is_digit c
  | CSpace => is_space c
  end.

Definition in_cset (c : ascii) (cs : cset) : bool := existsb (in_item c) cs.

Inductive pattern : Type :=
| RSet (cs : cset)                             (* one character of a class *)
| RRep (cs : cset) (lo : nat) (hi : option nat)  (* class{lo,hi}, greedy *)
| RSeq (r1 r2 : pattern)
| ROpt (r : pattern)                             (* (r)?, greedy *)
| RBoundary.                                   (* \b *)

Definition may_take (hi : option nat) : bool :=
  match hi with
  | Some O => false
  | _ => true
  end.

Section Matcher.

Variable R : Type.

(** A continuation receives the last character consumed so far (for [\b])
    and the text that is left. *)
Definition cont := option ascii -> string -> option R.

Fixpoint rep (cs : cset) (lo : nat) (hi : option nat)
    (prev : option ascii) (s : string) (k : cont) {struct s} : option R :=
  let stop := match lo with O => k prev s | S _ => None end in
  match s with
  | String c s' =>
      if in_cset c cs && may_take hi
      then match rep cs (Nat.pred lo) (option_map Nat.pred hi) (Some c) s' k with
           | Some r => Some r
           | None => stop
           end
      else stop
  | EmptyString => stop
  end.

Definition word_before (prev : option ascii) : bool :=
  match prev with
  | Some c => is_word c
  | None => false
  end.

Definition word_after (s : string) : bool :=
  match s with
  | String c _ => is_word c
  | EmptyString => false
  end.

Fixpoint run (r : pattern) (prev : option ascii) (s : string) (k : cont)
  : option R :=
  match r with
  | RSet cs =>
      match s with
      | String c s' => if in_cset c cs then k (Some c) s' else None
      | EmptyString => None
      end
  | RRep cs lo hi => rep cs lo hi prev s k
  | RSeq r1 r2 => run r1 prev s (fun prev' s' => run r2 prev' s' k)
  | ROpt r1 =>
      match run r1 prev s k with
      | Some x => Some x
      | None => k prev s
      end
  | RBoundary =>
      if xorb (word_before prev) (word_after s) then k prev s else None
  end.

End Matcher.

(** [pattern.match] at the current position: the text left after the match. *)
Definition match_here (r : pattern) (prev : option ascii) (s : string)
  : option string :=
  run r prev s (fun _ rest => Some rest).

(** [pattern.search(text)] as a truth value: is there a match anywhere. *)
Fixpoint search_from (r : pattern) (prev : option ascii) (s : string) : bool :=
  match match_here r prev s with
  | Some _ => true
  | None =>
      match s with
      | String c s' => search_from r (Some c) s'
      | EmptyString => false
      end
  end.

Definition search (r : pattern) (text : string) : bool := search_from r None text.

(** [pattern.sub(repl, text)] for a replacement without group references:
    matches are found left to right and do not overlap.  [skip] counts the
    characters of the current match still to be dropped. *)
Fixpoint sub_from (r : pattern) (repl : string) (skip : nat)
    (prev : option ascii) (s : string) : string :=
  match skip with
  | S n =>
      match s with
      | String c s' => sub_from r repl n (Some c) s'
      | EmptyString => EmptyString
      end
  | O =>
      match match_here r prev s with
      | Some rest =>
          let n := (String.length s - String.length rest)%nat in
          match s with
          | String c s' =>
              match n with
              | O => repl ++ String c (sub_from r repl 0 (Some c) s')
              | S n' => repl ++ sub_from r repl n' (Some c) s'
              end
          | EmptyString => repl
          end
      | None =>
          match s with
          | String c s' => String c (sub_from r repl 0 (Some c) s')
          | EmptyString => EmptyString
          end
      end
  end.

Definition sub (r : pattern) (repl text : string) : string :=
  sub_from r repl 0 None text.

(** Shorthands to write the patterns as they read in the source. *)
Definition lit (c : ascii) : pattern := RSet [CChar c].
Definition plus (cs : cset) : pattern := RRep cs 1 None.
Definition at_least (n : nat) (cs : cset) : pattern := RRep cs n None.
Definition exactly (n : nat) (cs : cset) : pattern := RRep cs n (Some n).
Definition opt_set (cs : cset) : pattern := ROpt (RSet cs).

Fixpoint seq (rs : list pattern) : pattern :=
  match rs with
  | [] => RRep [] 0 (Some 0%nat)
  | [r] => r
  | r :: rs' => RSeq r (seq rs')
  end.

Fixpoint times (n : nat) (r : pattern) : list pattern :=
  match n with
  | O => []
  | S n' => r :: times n' r
  end.

End Re.

(** ** Numbers: [sorted], [min], [max], [int] and the [statistics] module *)

Module Stats.

Open Scope Q_scope.

(** [sorted(xs)]: a stable sort, here by insertion; any stable sort returns
    the same list. *)
Fixpoint insert (x : Q) (l : list Q) : list Q :=
  match l with
  | [] => [x]
  | y :: l' => if Qle_bool x y then x :: y :: l' else y :: insert x l'
  end.

Fixpoint sorted (l : list Q) : list Q :=
  match l with
  | [] => []
  | x :: l' => insert x (sorted l')
  end.

Definition Qlt_bool (x y : Q) : bool := negb (Qle_bool y x).

(** [max(xs)]: the first of the largest items; [ValueError] when empty. *)
Definition max (l : list Q) : py_error + Q :=
  match l with
  | [] => inl ValueError
  | x :: l' => inr (fold_left (fun m y => if Qlt_bool m y then y else m) l' x)
  end.

(** [min(xs)]: the first of the smallest items; [ValueError] when empty. *)
Definition min (l : list Q) : py_error + Q :=
  match l with
  | [] => inl ValueError
  | x :: l' => inr (fold_left (fun m y => if Qlt_bool y m then y else m) l' x)
  end.

(** [int(x)]: truncation towards zero. *)
Definition int (x : Q) : Z :=
  if Qle_bool 0 x then Qfloor x else Qceiling x.

Definition of_nat (n : nat) : Q := inject_Z (Z.of_nat n).

(** [a / b] on floats *)
Definition div (a b : Q) : py_error + Q :=
  if Qeq_bool b 0 then inl ZeroDivisionError else inr (a / b).

Definition sum (l : list Q) : Q := fold_right Qplus 0 l.

(** [statistics.mean] *)
Definition mean (l : list Q) : py_error + Q :=
  match l with
  | [] => inl StatisticsError
  | _ => inr (sum l / of_nat (List.length l))
  end.

(** [statistics.median] *)
Definition median (l : list Q) : py_error + Q :=
  let data := sorted l in
  let n := List.length data in
  match n with
  | O => inl StatisticsError
  | _ =>
      if Nat.odd n then inr (nth (n / 2) data 0)
      else inr ((nth (n / 2 - 1) data 0 + nth (n / 2) data 0) / 2)
  end.

(** [statistics.stdev] is the square root of the sample variance, which is
    not a rational: the model keeps the variance, and a report shows its
    root.  Fewer than two points raise [StatisticsError]. *)
Definition variance (l : list Q) : py_error + Q :=
  match l with
  | [] | [_] => inl StatisticsError
  | _ =>
      let m := sum l / of_nat (List.length l) in
      inr (sum (map (fun x => (x - m) * (x - m)) l) / of_nat (List.length l - 1))
  end.

(** [sorted(xs)[int(len(xs) * 0.95)] if len(xs) >= 20 else max(xs)], the
    expression [analyze_results] prints as the P95 latency. *)
Definition p95_index (n : nat) : Z := int (of_nat n * (95 # 100)).

Definition index (l : list Q) (i : Z) : py_error + Q :=
  let n := Z.of_nat (List.length l) in
  let j := if (i <? 0)%Z then (i + n)%Z else i in
  if (j <? 0)%Z then inl (IndexError VNone)
  else match nth_error l (Z.to_nat j) with
       | Some x => inr x
       | None => inl (IndexError VNone)
       end.

Definition p95 (l : list Q) : py_error + Q :=
  if (20 <=? List.length l)%nat then index (sorted l) (p95_index (List.length l))
  else max l.

(** The same index with binary64 arithmetic: [len(xs)] converted to a float,
    multiplied by the double nearest to 0.95, truncated by [int]. *)
Definition trunc_sf (f : spec_float) : option Z :=
  match f with
  | S754_zero _ => Some 0%Z
  | S754_finite s m e =>
      let a := match e with
               | Z0 => Zpos m
               | Zpos p => (Zpos m * 2 ^ Zpos p)%Z
               | Zneg p => (Zpos m / 2 ^ Zpos p)%Z
               end in
      Some (if s then (- a)%Z else a)
  | _ => None
  end.

Definition p95_index_binary64 (n : Z) : option Z :=
  trunc_sf (Prim2SF (PrimFloat.mul (PrimFloat.of_uint63 (Uint63.of_Z n))
                                   0x1.e666666666666p-1%float)).

End Stats.

(** ** Binary64 arithmetic and the format [+.1f]

    The two places where a script computes a float that a reader sees in
    full: the percentage overhead and its rendering with one decimal. *)

Module Binary64.

(** [a / b]: Python raises on a zero divisor. *)
Definition div (a b : float) : py_error + float :=
  if PrimFloat.eqb b 0%float then inl ZeroDivisionError
  else inr (PrimFloat.div a b).

(** [n / d] rounded to the nearest integer, ties to even *)
Definition round_half_even (n d : Z) : Z :=
  let q := (n / d)%Z in
  let r := (n mod d)%Z in
  match (2 * r ?= d)%Z with
  | Lt => q
  | Gt => (q + 1)%Z
  | Eq => if Z.even q then q else (q + 1)%Z
  end.

(** The magnitude of a float in tenths, correctly rounded. *)
Definition tenths (m : positive) (e : Z) : Z :=
  match e with
  | Z0 => (10 * Zpos m)%Z
  | Zpos p => (10 * Zpos m * 2 ^ Zpos p)%Z
  | Zneg p => round_half_even (10 * Zpos m) (2 ^ Zpos p)
  end.

Definition decimal (z : Z) : string :=
  NilZero.string_of_uint (N.to_uint (Z.to_N z)).

(** [f"{x:+.1f}"] *)
Definition format_signed_1f (x : float) : string :=
  match Prim2SF x with
  | S754_zero s => ((if s then "-" else "+") ++ "0.0")%string
  | S754_finite s m e =>
      let t := tenths m e in
      ((if s then "-" else "+")
         ++ decimal (t / 10) ++ "." ++ decimal (t mod 10))%string
  | S754_infinity s => ((if s then "-" else "+") ++ "inf")%string
  | S754_nan => "+nan"%string
  end.

End Binary64.

(** ** The remote service, the clock and the state of a run *)

(** The keyword arguments of [client.invoke_model].  [body] is the request
    body before [json.dumps]. *)
Record api_params : Type := {
  modelId : string;
  body : value;
  contentType : string;
  accept : string;
  guardrailIdentifier : option string;
  guardrailVersion : option string
}.

(** What a [try] block can catch: an exception raised by the client, by the
    body stream or by [json.loads], of which the scripts observe whether it is
    [client.exceptions.ValidationException] and its [str()]; or an error of
    the interpreter in the script's own statements. *)
Inductive exn : Type :=
| Raised (validation : bool) (text : string)
| Local (e : py_error).

(** A response: how long [response["body"].read()] and [json.loads] take,
    and what they give. *)
Record response : Type := {
  read_secs : Q;
  read_result : exn + value
}.

(** A remote call: how long [client.invoke_model] takes, and whether it
    raises or returns. *)
Record call_outcome : Type := {
  call_secs : Q;
  call_result : exn + response
}.

(** One entry of the log of remote calls: the function that made the call,
    its arguments and what happened. *)
Record call_record : Type := {
  caller : string;
  request : api_params;
  outcome : call_outcome
}.

Record Env : Type := {
  (** what the service does on the n-th remote call of the process *)
  service : nat -> api_params -> call_outcome;
  (** seconds one pass of the PII patterns over a text takes *)
  scan_secs : string -> Q;
  (** [str(e)] of an interpreter error *)
  error_text : py_error -> string;
  (** [list(set(xs))]: the order in which the interpreter iterates a set *)
  set_order : list string -> list string
}.

Record World : Type := {
  now : Q;                       (* the reading of [time.perf_counter()] *)
  calls : list call_record       (* remote calls made so far, oldest first *)
}.

Definition M (A : Type) : Type := World -> A * World.

Definition ret {A} (a : A) : M A := fun w => (a, w).

Definition bind {A B} (m : M A) (f : A -> M B) : M B :=
  fun w => let (a, w') := m w in f a w'.

Declare Scope m_scope.
Delimit Scope m_scope with M.
Notation "x <- c ;; k" := (bind c (fun x => k))
  (at level 61, c at next level, right associativity) : m_scope.
Notation "c ;;; k" := (bind c (fun _ => k))
  (at level 61, right associativity) : m_scope.
Notation "' pat <- c ;; k" := (bind c (fun x => match x with pat => k end))
  (at level 61, pat pattern, c at next level, right associativity) : m_scope.

Definition sleep (d : Q) : M unit :=
  fun w => (tt, {| now := (now w + d)%Q; calls := calls w |}).

(** [time.perf_counter()] *)
Definition perf_counter : M Q := fun w => (now w, w).

(** [client.invoke_model] applied to the keyword arguments: the call is
    logged, time passes, and the call raises or returns a response. *)
Definition client_invoke_model (env : Env) (who : string) (p : api_params)
  : M (exn + response) :=
  fun w =>
    let o := service env (List.length (calls w)) p in
    (call_result o,
     {| now := (now w + call_secs o)%Q;
        calls := calls w ++ [ {| caller := who; request := p; outcome := o |} ] |}).

(** [json.loads(response["body"].read())] *)
Definition read_json (r : response) : M (exn + value) :=
  (sleep (read_secs r) ;;; ret (read_result r))%M.

(** [str(e)] *)
Definition exn_str (env : Env) (e : exn) : string :=
  match e with
  | Raised _ text => text
  | Local err => error_text env err
  end.

(** [isinstance(e, client.exceptions.ValidationException)] *)
Definition is_validation (e : exn) : bool :=
  match e with
  | Raised v _ => v
  | Local _ => false
  end.

(** The request body both scripts build: one user message and the
    inference configuration. *)
Definition user_message (text : string) : value :=
  VDict [("role", VStr "user");
         ("content", VList [VDict [("text", VStr text)]])]%string.

(** [for i in range(n)]: the body run in sequence, the accumulator passed on. *)
Fixpoint for_range {A} (n : nat) (body : A -> M A) (acc : A) : M A :=
  match n with
  | O => ret acc
  | S n' => (acc' <- body acc ;; for_range n' body acc')%M
  end.

(** [for x in xs] *)
Fixpoint for_each {A X} (xs : list X) (body : X -> A -> M A) (acc : A) : M A :=
  match xs with
  | [] => ret acc
  | x :: xs' => (acc' <- body x acc ;; for_each xs' body acc')%M
  end.

(** Computations that may raise an interpreter error *)
Definition ebind {A B} (m : py_error + A) (f : A -> py_error + B)
  : py_error + B :=
  match m with
  | inl e => inl e
  | inr a => f a
  end.

Declare Scope e_scope.
Delimit Scope e_scope with E.
Notation "x <- c ;; k" := (ebind c (fun x => k))
  (at level 61, c at next level, right associativity) : e_scope.

(** [sum(1 for x in xs if f(x))] *)
Definition count {A} (f : A -> bool) (l : list A) : nat :=
  List.length (filter f l).

(** ** benchmark.py *)

Module Benchmark.

Open Scope string_scope.

Definition REGION := "us-east-1".
Definition MODEL_ID := "amazon.nova-pro-v1:0".
Definition GUARDRAIL_ID := "wys9zt8hy6n4".
Definition GUARDRAIL_VERSION := "1".

Definition TEST_PROMPTS : list string := [
  "What is the capital of France?";
  "Explain how photosynthesis works in simple terms.";
  "Write a short poem about the ocean.";
  "What are the benefits of regular exercise?";
  "Describe the water cycle.";
  "My email is test@example.com, can you help me write a professional signature?";
  "The server IP 192.168.1.100 is not responding, what should I check?";
  "What are some conflict resolution strategies?";
  "How do I handle criticism at work?";
  "Explain the history of martial arts."
].

Record BenchmarkResult : Type := {
  prompt : string;
  with_guardrail : bool;
  latency_ms : Q;
  input_tokens : value;          (* Optional[int]: what the body reports *)
  output_tokens : value;
  blocked : bool;
  error : option string
}.

Definition request_body (prompt : string) : value :=
  VDict [("messages", VList [user_message prompt]);
         ("inferenceConfig",
          VDict [("maxTokens", VInt 512);
                 ("temperature", VFloat (7 # 10));
                 ("topP", VFloat (9 # 10))])].

Definition api_params_of (prompt : string) (use_guardrail : bool) : api_params :=
  {| modelId := MODEL_ID;
     body := request_body prompt;
     contentType := "application/json";
     accept := "application/json";
     guardrailIdentifier := if use_guardrail then Some GUARDRAIL_ID else None;
     guardrailVersion := if use_guardrail then Some GUARDRAIL_VERSION else None |}.

(** The variables [invoke_model] assigns inside its [try] block and keeps
    when the block is left by an exception. *)
Record locals : Type := {
  l_input_tokens : value;
  l_output_tokens : value;
  l_blocked : bool
}.

Definition initial : locals :=
  {| l_input_tokens := VNone; l_output_tokens := VNone; l_blocked := false |}.

(** "Extract token counts":
    [if "usage" in response_body: input_tokens = ...; output_tokens = ...] *)
Definition extract_tokens (response_body : value) (l : locals)
  : locals * option py_error :=
  match Py.contains "usage" response_body with
  | inl e => (l, Some e)
  | inr false => (l, None)
  | inr true =>
      match (u <- Py.getitem response_body "usage" ;;
             Py.get u "inputTokens" VNone)%E with
      | inl e => (l, Some e)
      | inr i =>
          let l1 := {| l_input_tokens := i;
                       l_output_tokens := l_output_tokens l;
                       l_blocked := l_blocked l |} in
          match (u <- Py.getitem response_body "usage" ;;
                 Py.get u "outputTokens" VNone)%E with
          | inl e => (l1, Some e)
          | inr o =>
              ({| l_input_tokens := i;
                  l_output_tokens := o;
                  l_blocked := l_blocked l |}, None)
          end
      end
  end.

(** "Check if blocked by guardrail":
    [if use_guardrail: if response_body.get("stopReason", "") ==
    "guardrail_intervened": blocked = True] *)
Definition check_blocked (use_guardrail : bool) (response_body : value)
    (l : locals) : locals * option py_error :=
  if use_guardrail then
    match Py.get response_body "stopReason" (VStr "") with
    | inl e => (l, Some e)
    | inr stop_reason =>
        if Py.eq_str stop_reason "guardrail_intervened"
        then ({| l_input_tokens := l_input_tokens l;
                 l_output_tokens := l_output_tokens l;
                 l_blocked := true |}, None)
        else (l, None)
    end
  else (l, None).

(** The statements of the [try] block after the body has been parsed. *)
Definition inspect (use_guardrail : bool) (response_body : value)
  : locals * option py_error :=
  match extract_tokens response_body initial with
  | (l, Some e) => (l, Some e)
  | (l, None) => check_blocked use_guardrail response_body l
  end.

Definition result_of (prompt : string) (use_guardrail : bool) (latency_ms : Q)
    (l : locals) (blocked : bool) (error : option string) : BenchmarkResult :=
  {| prompt := Str.label prompt;
     with_guardrail := use_guardrail;
     latency_ms := latency_ms;
     input_tokens := l_input_tokens l;
     output_tokens := l_output_tokens l;
     blocked := blocked;
     error := error |}.

(** The two [except] clauses: the first catches
    [client.exceptions.ValidationException], the second every other
    [Exception].  Both stop the timer and keep the text; only the first looks
    for "guardrail" in it. *)
Definition handle (env : Env) (prompt : string) (use_guardrail : bool)
    (start_time : Q) (l : locals) (e : exn) : M BenchmarkResult :=
  (end_time <- perf_counter ;;
   let latency_ms := ((end_time - start_time) * 1000)%Q in
   let error := exn_str env e in
   if is_validation e then
     let blocked :=
       if Str.contains "guardrail" (Str.lower error) then true else l_blocked l in
     ret (result_of prompt use_guardrail latency_ms l blocked (Some error))
   else
     ret (result_of prompt use_guardrail latency_ms l (l_blocked l) (Some error)))%M.

Definition invoke_model (env : Env) (prompt : string) (use_guardrail : bool)
  : M BenchmarkResult :=
  (let api_params := api_params_of prompt use_guardrail in
   start_time <- perf_counter ;;
   called <- client_invoke_model env "invoke_model" api_params ;;
   match called with
   | inl e => handle env prompt use_guardrail start_time initial e
   | inr response =>
       end_time <- perf_counter ;;
       let latency_ms := ((end_time - start_time) * 1000)%Q in
       parsed <- read_json response ;;
       match parsed with
       | inl e => handle env prompt use_guardrail start_time initial e
       | inr response_body =>
           match inspect use_guardrail response_body with
           | (l, Some e) =>
               handle env prompt use_guardrail start_time l (Local e)
           | (l, None) =>
               ret (result_of prompt use_guardrail latency_ms l (l_blocked l) None)
           end
       end
   end)%M.

(** The dict [run_benchmark] returns, by the names of its two lists. *)
Record Results : Type := {
  results_without_guardrail : list BenchmarkResult;
  results_with_guardrail : list BenchmarkResult
}.

Definition no_results : Results :=
  {| results_without_guardrail := []; results_with_guardrail := [] |}.

(** One pass of the inner loop: a call without, then a call with guardrail,
    each appended to its list. *)
Definition one_round (env : Env) (prompt : string) (acc : Results) : M Results :=
  (result <- invoke_model env prompt false ;;
   let without := (results_without_guardrail acc ++ [result])%list in
   result <- invoke_model env prompt true ;;
   let with_ := (results_with_guardrail acc ++ [result])%list in
   ret {| results_without_guardrail := without;
          results_with_guardrail := with_ |})%M.

Definition run_benchmark (env : Env) (prompts : list string) (iterations : Z)
  : M Results :=
  (invoke_model env "Hello" false ;;;
   invoke_model env "Hello" true ;;;
   for_each prompts
     (fun prompt acc => for_range (Z.to_nat iterations) (one_round env prompt) acc)
     no_results)%M.

(** [not r.error]: the error is [None] or the empty string. *)
Definition no_error (r : BenchmarkResult) : bool :=
  negb (Py.truthy_opt (error r)).

(** The statistics printed for one variant under [if latencies:]; the
    standard deviation only when there are at least two latencies. *)
Record latency_stats : Type := {
  s_mean : Q;
  s_median : Q;
  s_variance : option Q;         (* printed as its root, the std deviation *)
  s_min : Q;
  s_max : Q;
  s_p95 : Q
}.

Definition describe (latencies : list Q) : py_error + option latency_stats :=
  match latencies with
  | [] => inr None
  | _ =>
      (mean <- Stats.mean latencies ;;
       median <- Stats.median latencies ;;
       variance <- (if (1 <? List.length latencies)%nat
                    then (v <- Stats.variance latencies ;; inr (Some v))
                    else inr None) ;;
       lo <- Stats.min latencies ;;
       hi <- Stats.max latencies ;;
       p95 <- Stats.p95 latencies ;;
       inr (Some {| s_mean := mean; s_median := median; s_variance := variance;
                    s_min := lo; s_max := hi; s_p95 := p95 |}))%E
  end.

(** "GUARDRAIL OVERHEAD ANALYSIS", printed under
    [if latencies_without and latencies_with:]. *)
Record overhead_analysis : Type := {
  overhead : Q;
  overhead_pct : Q;
  blocked_pct : Q
}.

Definition percentage_overhead (mean_without mean_with : Q) : py_error + Q :=
  (let overhead := (mean_with - mean_without)%Q in
   q <- Stats.div overhead mean_without ;;
   inr (q * 100)%Q)%E.

(** The same expression on binary64 floats, and the text
    [f"{overhead_pct:+.1f}%"] the report shows. *)
Definition percentage_overhead_binary64 (mean_without mean_with : float)
  : py_error + float :=
  (let overhead := PrimFloat.sub mean_with mean_without in
   q <- Binary64.div overhead mean_without ;;
   inr (PrimFloat.mul q 100%float))%E.

Definition shown_overhead (mean_without mean_with : float) : py_error + string :=
  (pct <- percentage_overhead_binary64 mean_without mean_with ;;
   inr (Binary64.format_signed_1f pct ++ "%"))%E.

Definition compare (latencies_without latencies_with : list Q)
    (blocked_count n_with : nat) : py_error + option overhead_analysis :=
  match latencies_without, latencies_with with
  | _ :: _, _ :: _ =>
      (mean_without <- Stats.mean latencies_without ;;
       mean_with <- Stats.mean latencies_with ;;
       let overhead := (mean_with - mean_without)%Q in
       overhead_pct <- percentage_overhead mean_without mean_with ;;
       rate <- Stats.div (100 * Stats.of_nat blocked_count)%Q
                         (Stats.of_nat n_with) ;;
       inr (Some {| overhead := overhead; overhead_pct := overhead_pct;
                    blocked_pct := rate |}))%E
  | _, _ => inr None
  end.

(** "Group by prompt": the labels of the results without guardrail, each
    once, in the order first seen. *)
Definition prompts_seen (without_gr : list BenchmarkResult) : list string :=
  fold_left
    (fun seen r =>
       if existsb (String.eqb (prompt r)) seen then seen
       else (seen ++ [prompt r])%list)
    without_gr [].

Record table_row : Type := {
  row_prompt : string;
  avg_without : Q;
  avg_with : Q;
  was_blocked : bool
}.

(** [statistics.mean(times) if times else 0] *)
Definition mean_or_zero (times : list Q) : py_error + Q :=
  match times with
  | [] => inr 0%Q
  | _ => Stats.mean times
  end.

Definition times_of (rs : list BenchmarkResult) (p : string) : list Q :=
  map latency_ms
      (filter (fun r => String.eqb (prompt r) p && no_error r) rs).

Definition row_of (without_gr with_gr : list BenchmarkResult) (p : string)
  : py_error + table_row :=
  (let without_times := times_of without_gr p in
   let with_times := times_of with_gr p in
   let blocked_any :=
     existsb blocked (filter (fun r => String.eqb (prompt r) p) with_gr) in
   a <- mean_or_zero without_times ;;
   b <- mean_or_zero with_times ;;
   inr {| row_prompt := p; avg_without := a; avg_with := b;
          was_blocked := blocked_any |})%E.

Fixpoint each {A B} (f : A -> py_error + B) (l : list A) : py_error + list B :=
  match l with
  | [] => inr []
  | x :: l' => (y <- f x ;; ys <- each f l' ;; inr (y :: ys))%E
  end.

(** What [analyze_results] prints, as data. *)
Record report : Type := {
  total_without : nat;
  successful_without : nat;
  stats_without : option latency_stats;
  total_with : nat;
  successful_with : nat;
  blocked_count : nat;
  stats_with : option latency_stats;
  analysis : option overhead_analysis;
  table : list table_row
}.

Definition analyze_results (results : Results) : py_error + report :=
  (let without_gr := results_without_guardrail results in
   let with_gr := results_with_guardrail results in
   let latencies_without := map latency_ms (filter no_error without_gr) in
   let latencies_with := map latency_ms (filter no_error with_gr) in
   let blocked_count := count blocked with_gr in
   stats_without <- describe latencies_without ;;
   stats_with <- describe latencies_with ;;
   analysis <- compare latencies_without latencies_with
                       blocked_count (List.length with_gr) ;;
   table <- each (row_of without_gr with_gr) (prompts_seen without_gr) ;;
   inr {| total_without := List.length without_gr;
          successful_without := List.length latencies_without;
          stats_without := stats_without;
          total_with := List.length with_gr;
          successful_with := List.length latencies_with;
          blocked_count := blocked_count;
          stats_with := stats_with;
          analysis := analysis;
          table := table |})%E.

Definition of_error (e : option string) : value :=
  match e with
  | Some s => VStr s
  | None => VNone
  end.

Definition entry_without (r : BenchmarkResult) : value :=
  VDict [("prompt", VStr (prompt r));
         ("latency_ms", VFloat (latency_ms r));
         ("input_tokens", input_tokens r);
         ("output_tokens", output_tokens r);
         ("error", of_error (error r))].

Definition entry_with (r : BenchmarkResult) : value :=
  VDict [("prompt", VStr (prompt r));
         ("latency_ms", VFloat (latency_ms r));
         ("input_tokens", input_tokens r);
         ("output_tokens", output_tokens r);
         ("blocked", VBool (blocked r));
         ("error", of_error (error r))].

(** [export_results_json]: the document [export_data] handed to
    [json.dump]. *)
Definition export_results_json (results : Results) : value :=
  VDict [("config",
          VDict [("model_id", VStr MODEL_ID);
                 ("guardrail_id", VStr GUARDRAIL_ID);
                 ("guardrail_version", VStr GUARDRAIL_VERSION);
                 ("region", VStr REGION)]);
         ("results",
          VDict [("without_guardrail",
                  VList (map entry_without (results_without_guardrail results)));
                 ("with_guardrail",
                  VList (map entry_with (results_with_guardrail results)))])].

Definition main (env : Env) : M (py_error + report * value) :=
  (results <- run_benchmark env TEST_PROMPTS 3 ;;
   ret (rep <- analyze_results results ;;
        inr (rep, export_results_json results))%E)%M.

End Benchmark.

(** ** benchmark_pii_comparison.py *)

Module PiiComparison.

Open Scope string_scope.
Import Re.

Definition REGION := "us-east-1".
Definition MODEL_ID := "amazon.nova-pro-v1:0".
Definition SIMPLE_PII_GUARDRAIL_ID := "beraeckuf5js".
Definition SIMPLE_PII_GUARDRAIL_VERSION := "1".

Definition digit : cset := [CDigit].
Definition alnum : list cset_item :=
  [CRange "a" "z"; CRange "A" "Z"; CRange "0" "9"].
Definition separator : cset := [CChar "-"; CChar "."; CSpace].

(** [[a-zA-Z0-9._%+-]+@[a-zA-Z0-9.-]+\.[a-zA-Z]{2,}] *)
Definition email_pattern : pattern :=
  seq [plus (alnum ++ [CChar "."; CChar "_"; CChar "%"; CChar "+"; CChar "-"])%list;
       lit "@";
       plus (alnum ++ [CChar "."; CChar "-"])%list;
       lit ".";
       at_least 2 [CRange "a" "z"; CRange "A" "Z"]].

(** [(\+?1[-.\s]?)?\(?\d{3}\)?[-.\s]?\d{3}[-.\s]?\d{4}] *)
Definition phone_pattern : pattern :=
  seq [ROpt (seq [ROpt (lit "+"); lit "1"; opt_set separator]);
       ROpt (lit "(");
       exactly 3 digit;
       ROpt (lit ")");
       opt_set separator;
       exactly 3 digit;
       opt_set separator;
       exactly 4 digit].

(** [\b\d{3}[-.\s]?\d{2}[-.\s]?\d{4}\b] *)
Definition ssn_pattern : pattern :=
  seq [RBoundary;
       exactly 3 digit; opt_set separator;
       exactly 2 digit; opt_set separator;
       exactly 4 digit;
       RBoundary].

(** [\b(?:\d{4}[-.\s]?){3}\d{4}\b] *)
Definition credit_card_pattern : pattern :=
  seq ([RBoundary]
       ++ times 3 (seq [exactly 4 digit; opt_set separator])
       ++ [exactly 4 digit; RBoundary])%list.

(** The dict [PII_PATTERNS], in insertion order. *)
Definition PII_PATTERNS : list (string * pattern) :=
  [("email", email_pattern);
   ("phone", phone_pattern);
   ("ssn", ssn_pattern);
   ("credit_card", credit_card_pattern)].

Definition TEST_PROMPTS : list string := [
  "What is the capital of France?";
  "Explain quantum computing in simple terms.";
  "What are best practices for code review?";
  "My email is john.doe@example.com, can you help me write a professional bio?";
  "Contact support at help@company.org for assistance.";
  "Call me at 555-123-4567 to discuss the project.";
  "My office number is (800) 555-0199.";
  "Send the report to alice@corp.com or call 555-987-6543.";
  "Reach out to bob@test.io at +1-555-000-1111 for details.";
  "The IP address 192.168.1.1 is not a phone number."
].

Record BenchmarkResult : Type := {
  prompt : string;
  method : string;
  latency_ms : Q;
  pii_check_ms : Q;
  total_ms : Q;
  pii_found : list string;
  blocked : bool;
  error : option string
}.

(** The categories whose pattern is found in the text, in the order of
    [PII_PATTERNS]. *)
Definition found_in (text : string) : list string :=
  map fst (filter (fun kv => search (snd kv) text) PII_PATTERNS).

(** [detect_pii_regex]: the categories found and the time the pass took, in
    milliseconds. *)
Definition detect_pii_regex (env : Env) (text : string) : M (list string * Q) :=
  (start <- perf_counter ;;
   sleep (scan_secs env text) ;;;
   let found := found_in text in
   stop <- perf_counter ;;
   let elapsed_ms := ((stop - start) * 1000)%Q in
   ret (found, elapsed_ms))%M.

Definition anonymize_pii_regex (text : string) : string :=
  let result := text in
  let result := sub email_pattern "[EMAIL]" result in
  let result := sub phone_pattern "[PHONE]" result in
  let result := sub ssn_pattern "[SSN]" result in
  let result := sub credit_card_pattern "[CARD]" result in
  result.

Definition request_body (text : string) : value :=
  VDict [("messages", VList [user_message text]);
         ("inferenceConfig",
          VDict [("maxTokens", VInt 256); ("temperature", VFloat (7 # 10))])].

Definition plain_params (text : string) : api_params :=
  {| modelId := MODEL_ID;
     body := request_body text;
     contentType := "application/json";
     accept := "application/json";
     guardrailIdentifier := None;
     guardrailVersion := None |}.

Definition guardrail_params (text : string) : api_params :=
  {| modelId := MODEL_ID;
     body := request_body text;
     contentType := "application/json";
     accept := "application/json";
     guardrailIdentifier := Some SIMPLE_PII_GUARDRAIL_ID;
     guardrailVersion := Some SIMPLE_PII_GUARDRAIL_VERSION |}.

(** [(time.perf_counter() - start) * 1000] *)
Definition elapsed_ms (start : Q) : M Q :=
  (t <- perf_counter ;; ret ((t - start) * 1000)%Q)%M.

(** "Baseline: No PII protection." *)
Definition invoke_no_protection (env : Env) (prompt : string) : M BenchmarkResult :=
  (start <- perf_counter ;;
   let except (e : exn) : M BenchmarkResult :=
     (latency <- elapsed_ms start ;;
      ret {| prompt := Str.label prompt;
             method := "no_protection";
             latency_ms := latency;
             pii_check_ms := 0;
             total_ms := latency;
             pii_found := [];
             blocked := false;
             error := Some (exn_str env e) |})%M in
   called <- client_invoke_model env "invoke_no_protection" (plain_params prompt) ;;
   match called with
   | inl e => except e
   | inr response =>
       parsed <- read_json response ;;
       match parsed with
       | inl e => except e
       | inr response_body =>
           latency <- elapsed_ms start ;;
           ret {| prompt := Str.label prompt;
                  method := "no_protection";
                  latency_ms := latency;
                  pii_check_ms := 0;
                  total_ms := latency;
                  pii_found := [];
                  blocked := false;
                  error := None |}
       end
   end)%M.

(** "Use Bedrock simple PII guardrail." *)
Definition invoke_with_guardrail (env : Env) (prompt : string) : M BenchmarkResult :=
  (start <- perf_counter ;;
   let except (e : exn) : M BenchmarkResult :=
     (latency <- elapsed_ms start ;;
      ret {| prompt := Str.label prompt;
             method := "guardrail";
             latency_ms := latency;
             pii_check_ms := 0;
             total_ms := latency;
             pii_found := [];
             blocked := Str.contains "guardrail" (Str.lower (exn_str env e));
             error := Some (exn_str env e) |})%M in
   called <- client_invoke_model env "invoke_with_guardrail" (guardrail_params prompt) ;;
   match called with
   | inl e => except e
   | inr response =>
       latency <- elapsed_ms start ;;
       parsed <- read_json response ;;
       match parsed with
       | inl e => except e
       | inr response_body =>
           match Py.get response_body "stopReason" VNone with
           | inl e => except (Local e)
           | inr stop_reason =>
               let blocked := Py.eq_str stop_reason "guardrail_intervened" in
               ret {| prompt := Str.label prompt;
                      method := "guardrail";
                      latency_ms := latency;
                      pii_check_ms := 0;
                      total_ms := latency;
                      pii_found := [];
                      blocked := blocked;
                      error := None |}
           end
       end
   end)%M.

(** "Post-check output for PII": the text of the first content block of the
    output message, or the empty string. *)
Definition output_text_of (response_body : value) : py_error + value :=
  (has_output <- Py.contains "output" response_body ;;
   has_message <- (if has_output : bool
                   then (output <- Py.getitem response_body "output" ;;
                         Py.contains "message" output)
                   else inr false) ;;
   if has_message : bool then
     output <- Py.getitem response_body "output" ;;
     message <- Py.getitem output "message" ;;
     content <- Py.get message "content" (VList []) ;;
     has_text <- (if Py.truthy content
                  then (first <- Py.getitem0 content ;; Py.contains "text" first)
                  else inr false) ;;
     if has_text : bool then
       first <- Py.getitem0 content ;;
       Py.getitem first "text"
     else inr (VStr "")
   else inr (VStr ""))%E.

(** "Use Python regex for PII detection before/after model call." *)
Definition invoke_with_regex (env : Env) (prompt : string) : M BenchmarkResult :=
  ('(input_pii, input_check_time) <- detect_pii_regex env prompt ;;
   let processed_prompt :=
     match input_pii with
     | [] => prompt
     | _ => anonymize_pii_regex prompt
     end in
   model_start <- perf_counter ;;
   let except (e : exn) : M BenchmarkResult :=
     (model_latency <- elapsed_ms model_start ;;
      ret {| prompt := Str.label prompt;
             method := "regex";
             latency_ms := model_latency;
             pii_check_ms := input_check_time;
             total_ms := (model_latency + input_check_time)%Q;
             pii_found := input_pii;
             blocked := false;
             error := Some (exn_str env e) |})%M in
   called <- client_invoke_model env "invoke_with_regex" (plain_params processed_prompt) ;;
   match called with
   | inl e => except e
   | inr response =>
       model_latency <- elapsed_ms model_start ;;
       parsed <- read_json response ;;
       match parsed with
       | inl e => except e
       | inr response_body =>
           match output_text_of response_body with
           | inl e => except (Local e)
           | inr (VStr output_text) =>
               '(output_pii, output_check_time) <- detect_pii_regex env output_text ;;
               let total_pii_check := (input_check_time + output_check_time)%Q in
               let all_pii := set_order env (input_pii ++ output_pii)%list in
               ret {| prompt := Str.label prompt;
                      method := "regex";
                      latency_ms := model_latency;
                      pii_check_ms := total_pii_check;
                      total_ms := (model_latency + total_pii_check)%Q;
                      pii_found := all_pii;
                      blocked := false;
                      error := None |}
           | inr other =>
               (* [pattern.search] refuses what is not a string *)
               except (Local (TypeError other))
           end
       end
   end)%M.

(** The dict [results], by its three keys. *)
Record Results : Type := {
  no_protection : list BenchmarkResult;
  guardrail : list BenchmarkResult;
  regex : list BenchmarkResult
}.

Definition no_results : Results :=
  {| no_protection := []; guardrail := []; regex := [] |}.

Definition one_round (env : Env) (prompt : string) (acc : Results) : M Results :=
  (r <- invoke_no_protection env prompt ;;
   let acc := {| no_protection := (no_protection acc ++ [r])%list;
                 guardrail := guardrail acc;
                 regex := regex acc |} in
   r <- invoke_with_guardrail env prompt ;;
   let acc := {| no_protection := no_protection acc;
                 guardrail := (guardrail acc ++ [r])%list;
                 regex := regex acc |} in
   r <- invoke_with_regex env prompt ;;
   let acc := {| no_protection := no_protection acc;
                 guardrail := guardrail acc;
                 regex := (regex acc ++ [r])%list |} in
   ret acc)%M.

Definition run_benchmark (env : Env) (prompts : list string) (iterations : Z)
  : M Results :=
  (invoke_no_protection env "Hello" ;;;
   invoke_with_guardrail env "Hello" ;;;
   invoke_with_regex env "Hello" ;;;
   for_each prompts
     (fun prompt acc => for_range (Z.to_nat iterations) (one_round env prompt) acc)
     no_results)%M.

(** [results.items()] *)
Definition items (results : Results) : list (string * list BenchmarkResult) :=
  [("no_protection", no_protection results);
   ("guardrail", guardrail results);
   ("regex", regex results)].

(** [not r.error]: the error is [None] or the empty string. *)
Definition no_error (r : BenchmarkResult) : bool :=
  negb (Py.truthy_opt (error r)).

(** One block of "RESULTS SUMMARY".  The blocked count is shown only when
    it is not zero, the standard deviation only for two latencies or more. *)
Record method_summary : Type := {
  requests : nat;
  successful : nat;
  blocked_shown : option nat;
  s_mean : Q;
  s_median : Q;
  s_min : Q;
  s_max : Q;
  s_variance : option Q          (* printed as its root, the std dev *)
}.

(** The body of [for method, data in results.items()]; [None] is the
    [continue] taken when no latency is left. *)
Definition summarize (data : list BenchmarkResult) : py_error + option method_summary :=
  let latencies := map total_ms (filter no_error data) in
  let n_blocked := count blocked data in
  match latencies with
  | [] => inr None
  | _ =>
      (mean <- Stats.mean latencies ;;
       median <- Stats.median latencies ;;
       lo <- Stats.min latencies ;;
       hi <- Stats.max latencies ;;
       variance <- (if (1 <? List.length latencies)%nat
                    then (v <- Stats.variance latencies ;; inr (Some v))
                    else inr None) ;;
       inr (Some {| requests := List.length data;
                    successful := List.length latencies;
                    blocked_shown := match n_blocked with
                                     | O => None
                                     | _ => Some n_blocked
                                     end;
                    s_mean := mean; s_median := median;
                    s_min := lo; s_max := hi; s_variance := variance |}))%E
  end.

Fixpoint summaries (l : list (string * list BenchmarkResult))
  : py_error + list (string * method_summary) :=
  match l with
  | [] => inr []
  | (name, data) :: l' =>
      (s <- summarize data ;;
       rest <- summaries l' ;;
       inr match s with
           | Some block => (name, block) :: rest
           | None => rest
           end)%E
  end.

(** [((mean / baseline) - 1) * 100] *)
Definition percentage_overhead (baseline mean : Q) : py_error + Q :=
  (q <- Stats.div mean baseline ;; inr ((q - 1) * 100)%Q)%E.

(** The same expression on binary64 floats, and the text
    [f"{((mean/baseline)-1)*100:+.1f}%"] the report shows. *)
Definition percentage_overhead_binary64 (baseline mean : float)
  : py_error + float :=
  (q <- Binary64.div mean baseline ;;
   inr (PrimFloat.mul (PrimFloat.sub q 1%float) 100%float))%E.

Definition shown_overhead (baseline mean : float) : py_error + string :=
  (pct <- percentage_overhead_binary64 baseline mean ;;
   inr (Binary64.format_signed_1f pct ++ "%"))%E.

(** "OVERHEAD COMPARISON (vs No Protection)" *)
Record overhead_comparison : Type := {
  baseline : Q;
  guardrail_overhead : Q;
  guardrail_overhead_pct : Q;
  regex_overhead : Q;
  regex_overhead_pct : Q;
  guardrail_vs_regex : Q
}.

Definition compare (no_prot guardrail_ regex_ : list Q)
  : py_error + option overhead_comparison :=
  match no_prot, guardrail_, regex_ with
  | _ :: _, _ :: _, _ :: _ =>
      (baseline <- Stats.mean no_prot ;;
       gr_mean <- Stats.mean guardrail_ ;;
       rx_mean <- Stats.mean regex_ ;;
       gr_pct <- percentage_overhead baseline gr_mean ;;
       rx_pct <- percentage_overhead baseline rx_mean ;;
       inr (Some {| baseline := baseline;
                    guardrail_overhead := (gr_mean - baseline)%Q;
                    guardrail_overhead_pct := gr_pct;
                    regex_overhead := (rx_mean - baseline)%Q;
                    regex_overhead_pct := rx_pct;
                    guardrail_vs_regex := (gr_mean - rx_mean)%Q |}))%E
  | _, _, _ => inr None
  end.

(** "REGEX PII CHECK TIMING" *)
Definition pii_check_timing (regex_results : list BenchmarkResult)
  : py_error + option Q :=
  match regex_results with
  | [] => inr None
  | _ => (avg <- Stats.mean (map pii_check_ms regex_results) ;; inr (Some avg))%E
  end.

(** What [analyze_results] prints, as data. *)
Record report : Type := {
  summary : list (string * method_summary);
  comparison : option overhead_comparison;
  avg_pii_check : option Q
}.

Definition analyze_results (results : Results) : py_error + report :=
  (summary <- summaries (items results) ;;
   let no_prot := map total_ms (filter no_error (no_protection results)) in
   let guardrail_ := map total_ms (filter no_error (guardrail results)) in
   let regex_ := map total_ms (filter no_error (regex results)) in
   comparison <- compare no_prot guardrail_ regex_ ;;
   avg <- pii_check_timing (filter no_error (regex results)) ;;
   inr {| summary := summary; comparison := comparison; avg_pii_check := avg |})%E.

Definition of_error (e : option string) : value :=
  match e with
  | Some s => VStr s
  | None => VNone
  end.

Definition entry (r : BenchmarkResult) : value :=
  VDict [("prompt", VStr (prompt r));
         ("latency_ms", VFloat (latency_ms r));
         ("pii_check_ms", VFloat (pii_check_ms r));
         ("total_ms", VFloat (total_ms r));
         ("pii_found", VList (map VStr (pii_found r)));
         ("blocked", VBool (blocked r));
         ("error", of_error (error r))].

(** [export_results]: the document [export] handed to [json.dump]. *)
Definition export_results (results : Results) : value :=
  VDict [("config",
          VDict [("model", VStr MODEL_ID);
                 ("guardrail_id", VStr SIMPLE_PII_GUARDRAIL_ID);
                 ("region", VStr REGION)]);
         ("results",
          VDict (map (fun kv => (fst kv, VList (map entry (snd kv))))
                     (items results)))].

Definition main (env : Env) : M (py_error + report * value) :=
  (results <- run_benchmark env TEST_PROMPTS 1000 ;;
   ret (rep <- analyze_results results ;;
        inr (rep, export_results results))%E)%M.

End PiiComparison.

(** ** Reference notions and sample data for the statements *)

(** The 95th percentile as the specification words it: the maximum below
    twenty samples, otherwise the item at index [floor(0.95 * n)] of the
    samples in ascending order. *)
Definition nearest_rank_p95 (l : list Q) (v : Q) : Prop :=
  let n := List.length l in
  ((n < 20)%nat -> In v l /\ forall x, In x l -> (x <= v)%Q) /\
  ((20 <= n)%nat ->
   exists s, Permutation s l /\ StronglySorted Qle s /\
             nth_error s (Z.to_nat (95 * Z.of_nat n / 100)) = Some v).

Definition samples_5 : list Q := map inject_Z [10; 20; 30; 40; 50]%Z.

Definition samples_20 : list Q :=
  map (fun k => inject_Z (10 * Z.of_nat k)) (List.seq 1 20).

Definition pii_example : string := "My email is a@b.com, call 555-123-4567".

(** The binary64 index and the exact one compared on [n], [n+1], ... *)
Fixpoint index_agrees_from (n : Z) (count : nat) : bool :=
  match count with
  | O => true
  | S count' =>
      match Stats.p95_index_binary64 n with
      | Some k => (k =? 95 * n / 100)%Z
      | None => false
      end && index_agrees_from (n + 1) count'
  end.

(** No operation takes a negative time. *)
Definition clock_monotone (env : Env) : Prop :=
  (forall n p, (0 <= call_secs (service env n p))%Q) /\
  (forall n p r, call_result (service env n p) = inr r -> (0 <= read_secs r)%Q) /\
  (forall text, (0 <= scan_secs env text)%Q).

(** The timing invariant of a result of the PII script. *)
Definition well_timed (r : PiiComparison.BenchmarkResult) : Prop :=
  (PiiComparison.total_ms r
   == PiiComparison.latency_ms r + PiiComparison.pii_check_ms r)%Q /\
  (0 <= PiiComparison.latency_ms r)%Q /\
  (PiiComparison.latency_ms r <= PiiComparison.total_ms r)%Q.

(** What the service does on the next call made from the world [w]. *)
Definition next_call (env : Env) (w : World) (p : api_params) : call_outcome :=
  service env (List.length (calls w)) p.

(** Milliseconds between two worlds. *)
Definition passed_ms (w w' : World) : Q := ((now w' - now w) * 1000)%Q.

(** A logged call of benchmark.py was made with the guardrail attached. *)
Definition uses_guardrail (c : call_record) : bool :=
  match guardrailIdentifier (request c) with
  | Some _ => true
  | None => false
  end.

Definition is_raised {A B} (x : A + B) : bool :=
  match x with
  | inl _ => true
  | inr _ => false
  end.

(** The body an outcome delivers, if the call returns and the body can be
    read and parsed. *)
Definition delivered (o : call_outcome) : option value :=
  match call_result o with
  | inl _ => None
  | inr resp =>
      match read_result resp with
      | inl _ => None
      | inr response_body => Some response_body
      end
  end.

Definition parsed_body (c : call_record) : option value :=
  delivered (outcome c).

(** A logged call of [Benchmark.invoke_model] failed: the call raised, the
    body could not be read or parsed, or the statements that inspect it
    raised. *)
Definition model_call_failed (c : call_record) : bool :=
  match parsed_body c with
  | None => true
  | Some response_body =>
      match snd (Benchmark.inspect (uses_guardrail c) response_body) with
      | Some _ => true
      | None => false
      end
  end.

(** The same for the three functions of the PII script. *)
Definition plain_call_failed (c : call_record) : bool :=
  match parsed_body c with
  | None => true
  | Some _ => false
  end.

Definition guardrail_call_failed (c : call_record) : bool :=
  match parsed_body c with
  | None => true
  | Some response_body => is_raised (Py.get response_body "stopReason" VNone)
  end.

Definition regex_call_failed (c : call_record) : bool :=
  match parsed_body c with
  | None => true
  | Some response_body =>
      match PiiComparison.output_text_of response_body with
      | inr (VStr _) => false
      | _ => true
      end
  end.

Definition made_by (name : string) (c : call_record) : bool :=
  String.eqb (caller c) name.

(** A result records no error. *)
Definition succeeded (r : Benchmark.BenchmarkResult) : bool :=
  match Benchmark.error r with
  | None => true
  | Some _ => false
  end.

Definition pii_succeeded (r : PiiComparison.BenchmarkResult) : bool :=
  match PiiComparison.error r with
  | None => true
  | Some _ => false
  end.

(** Two results of benchmark.py that differ at most in [blocked]. *)
Definition same_but_blocked (r r' : Benchmark.BenchmarkResult) : Prop :=
  Benchmark.prompt r = Benchmark.prompt r' /\
  Benchmark.with_guardrail r = Benchmark.with_guardrail r' /\
  Benchmark.latency_ms r = Benchmark.latency_ms r' /\
  Benchmark.input_tokens r = Benchmark.input_tokens r' /\
  Benchmark.output_tokens r = Benchmark.output_tokens r' /\
  Benchmark.error r = Benchmark.error r'.

(** The exception a logged outcome raises in the call itself or while the
    body is read and parsed, if any. *)
Definition raised_by (o : call_outcome) : option exn :=
  match call_result o with
  | inl e => Some e
  | inr resp =>
      match read_result resp with
      | inl e => Some e
      | inr _ => None
      end
  end.

(** ["guardrail" in text.lower()] *)
Definition names_guardrail (text : string) : bool :=
  Str.contains "guardrail" (Str.lower text).

(** The prompt [invoke_with_regex] sends. *)
Definition processed (prompt : string) : string :=
  match PiiComparison.found_in prompt with
  | [] => prompt
  | _ => PiiComparison.anonymize_pii_regex prompt
  end.

(** *** Sample services *)

Definition sample_body : value :=
  VDict [("output",
          VDict [("message",
                  VDict [("role", VStr "assistant");
                         ("content", VList [VDict [("text", VStr "Paris.")]])])]);
         ("stopReason", VStr "end_turn");
         ("usage", VDict [("inputTokens", VInt 7); ("outputTokens", VInt 2)])]%string.

(** A body that reports an intervention and carries generated text too. *)
Definition intervened_body : value :=
  VDict [("output",
          VDict [("message",
                  VDict [("role", VStr "assistant");
                         ("content",
                          VList [VDict [("text", VStr "Sorry, I cannot help.")]])])]);
         ("stopReason", VStr "guardrail_intervened");
         ("usage", VDict [("inputTokens", VInt 7); ("outputTokens", VInt 5)])]%string.

(** A call that takes two seconds and returns a body read in one. *)
Definition reply (response_body : value) : call_outcome :=
  {| call_secs := 2;
     call_result := inr {| read_secs := 1; read_result := inr response_body |} |}.

(** A call that raises after two seconds. *)
Definition failure (validation : bool) (text : string) : call_outcome :=
  {| call_secs := 2; call_result := inl (Raised validation text) |}.

Definition env_of (f : nat -> api_params -> call_outcome) : Env :=
  {| service := f;
     scan_secs := fun _ => 1 # 1000;
     error_text := fun _ => "TypeError"%string;
     set_order := nodup string_dec |}.

Definition w0 : World := {| now := 0; calls := [] |}.

Definition env_answers : Env := env_of (fun _ _ => reply sample_body).

Definition env_intervenes : Env := env_of (fun _ _ => reply intervened_body).

Definition denied : string :=
  "An error occurred (AccessDeniedException) when calling the InvokeModel operation: not authorized to perform bedrock:ApplyGuardrail".

(** Every call is refused with an error that is not a validation error and
    whose text names the guardrail. *)
Definition env_denied : Env := env_of (fun _ _ => failure false denied).

(** Every third call times out. *)
Definition env_flaky : Env :=
  env_of (fun n _ => if (n mod 3 =? 0)%nat
                     then failure false "Read timed out"%string
                     else reply sample_body).

Definition rejected : string :=
  "An error occurred (ValidationException) when calling the InvokeModel operation: guardrail configuration is invalid".

(** Two services that reject every call with the same text; the second
    raises a validation error only for the calls that attach the guardrail. *)
Definition env_rejects : Env := env_of (fun _ _ => failure true rejected).

Definition env_rejects_guarded : Env :=
  env_of (fun _ p => match guardrailIdentifier p with
                     | Some _ => failure true rejected
                     | None => failure false rejected
                     end).

(** A run of benchmark.py in which every call is refused. *)
Definition refused_run : Benchmark.Results :=
  fst (Benchmark.run_benchmark env_denied ["Hello"%string] 1 w0).

(** A result was recorded for a logged call of the variant [g]. *)
Definition recorded (g : bool) (r : Benchmark.BenchmarkResult) (c : call_record) : Prop :=
  Benchmark.with_guardrail r = g /\ succeeded r = negb (model_call_failed c).

(** A result of the variant [name] was recorded for a logged call; [failed]
    tells whether the [try] block of the call was left by an exception. *)
Definition pii_recorded (name : string) (failed : call_record -> bool)
    (r : PiiComparison.BenchmarkResult) (c : call_record) : Prop :=
  PiiComparison.method r = name /\ pii_succeeded r = negb (failed c).

(** Two runs of benchmark.py against services that reject every call. *)
Definition rejected_run : Benchmark.Results :=
  fst (Benchmark.run_benchmark env_rejects ["Hello"%string] 1 w0).

Definition rejected_guarded_run : Benchmark.Results :=
  fst (Benchmark.run_benchmark env_rejects_guarded ["Hello"%string] 1 w0).

(** A service whose every call raises an exception with an empty text. *)
Definition env_silent : Env := env_of (fun _ _ => failure false ""%string).

(** ** Notions for the properties of the analysis, the detector and the runs *)

Unset Implicit Arguments.
Open Scope string_scope.

(** The labels of a list, each once, in the order of first occurrence. *)
Fixpoint first_seen (l : list string) : list string :=
  match l with
  | [] => []
  | x :: l' => x :: filter (fun y => negb (String.eqb x y)) (first_seen l')
  end.

(** A label that was not seen before. *)
Definition unseen (seen : list string) (y : string) : bool :=
  negb (existsb (String.eqb y) seen).

(** A run of benchmark.py over two prompts, the second one long, against the
    service that times out on every third call, and a run of the PII script
    against the service that always answers. *)
Definition flaky_run : Benchmark.Results :=
  fst (Benchmark.run_benchmark env_flaky
         ["What is the capital of France?";
          "My email is test@example.com, can you help me write a professional signature?";
          "What is the capital of France?"] 2 w0).

Definition pii_answers_run : PiiComparison.Results :=
  fst (PiiComparison.run_benchmark env_answers [pii_example] 2 w0).

(** The texts a pattern matches when the context is left aside: [\b] matches
    the empty text. *)
Inductive accepts : Re.pattern -> string -> Prop :=
| accepts_set (cs : Re.cset) (c : ascii) :
    Re.in_cset c cs = true -> accepts (Re.RSet cs) (String c EmptyString)
| accepts_rep (cs : Re.cset) (lo : nat) (hi : option nat) (m : string) :
    (forall c, In c (list_ascii_of_string m) -> Re.in_cset c cs = true) ->
    (lo <= String.length m)%nat ->
    (forall h, hi = Some h -> (String.length m <= h)%nat) ->
    accepts (Re.RRep cs lo hi) m
| accepts_seq (r1 r2 : Re.pattern) (m1 m2 : string) :
    accepts r1 m1 -> accepts r2 m2 -> accepts (Re.RSeq r1 r2) (m1 ++ m2)
| accepts_opt_some (r : Re.pattern) (m : string) :
    accepts r m -> accepts (Re.ROpt r) m
| accepts_opt_none (r : Re.pattern) : accepts (Re.ROpt r) EmptyString
| accepts_boundary : accepts Re.RBoundary EmptyString.

(** The number of decimal digits of a text. *)
Fixpoint count_digits (s : string) : nat :=
  match s with
  | EmptyString => 0
  | String c s' => (if Re.is_digit c then 1 else 0) + count_digits s'
  end.

(** A class that holds decimal digits only. *)
Definition digits_only (cs : Re.cset) : bool :=
  forallb (fun i => match i with Re.CDigit => true | _ => false end) cs.

(** A number of digits every text matched by the pattern has. *)
Fixpoint min_digits (r : Re.pattern) : nat :=
  match r with
  | Re.RRep cs lo _ => if digits_only cs then lo else 0
  | Re.RSeq r1 r2 => min_digits r1 + min_digits r2
  | _ => 0
  end.

(** Every character of the text satisfies [f]. *)
Definition all_chars (f : ascii -> bool) (s : string) : bool :=
  forallb f (list_ascii_of_string s).

Definition is_letter (c : ascii) : bool :=
  Str.between 65 90 c || Str.between 97 122 c.

Definition one_of (chars : string) (c : ascii) : bool :=
  existsb (Ascii.eqb c) (list_ascii_of_string chars).

(** [d.get(key)] of a dict read from JSON. *)
Definition get_or_none (key : string) (d : list (string * value)) : value :=
  match Py.lookup key d with
  | Some v => v
  | None => VNone
  end.

Definition is_dict (v : value) : bool :=
  match v with
  | VDict _ => true
  | _ => false
  end.

(** [list(set(xs))] lists the members of [xs], each once. *)
Definition set_listing (env : Env) : Prop :=
  forall l, NoDup (set_order env l) /\ forall x, In x (set_order env l) <-> In x l.

(** An answer with two content blocks, each holding personal data, and a
    service that always gives it. *)
Definition leaking_body : value :=
  VDict [("output",
          VDict [("message",
                  VDict [("role", VStr "assistant");
                         ("content",
                          VList [VDict [("text", VStr "Write to a@b.com.")];
                                 VDict [("text", VStr "Or call 555-123-4567.")]])])]);
         ("stopReason", VStr "end_turn")].

Definition env_leaks : Env := env_of (fun _ _ => reply leaking_body).

(** The requests of one pass of the inner loop, in the order they are sent. *)
Definition round_requests (p : string) : list api_params :=
  [Benchmark.api_params_of p false; Benchmark.api_params_of p true].

Definition pii_round_requests (p : string) : list api_params :=
  [PiiComparison.plain_params p; PiiComparison.guardrail_params p;
   PiiComparison.plain_params (processed p)].

(** The time the results of a run account for, in milliseconds. *)
Definition recorded_ms (res : Benchmark.Results) : Q :=
  (Stats.sum (map Benchmark.latency_ms (Benchmark.results_without_guardrail res))
   + Stats.sum (map Benchmark.latency_ms (Benchmark.results_with_guardrail res)))%Q.

Definition pii_recorded_ms (res : PiiComparison.Results) : Q :=
  (Stats.sum (map PiiComparison.total_ms (PiiComparison.no_protection res))
   + Stats.sum (map PiiComparison.total_ms (PiiComparison.guardrail res))
   + Stats.sum (map PiiComparison.total_ms (PiiComparison.regex res)))%Q.

(** Every remote call takes time. *)
Definition calls_take_time (env : Env) : Prop :=
  forall n p, (0 < call_secs (service env n p))%Q.

(** A pattern without [\b]: what it matches does not depend on the context. *)
Fixpoint boundary_free (r : Re.pattern) : bool :=
  match r with
  | Re.RSeq r1 r2 => boundary_free r1 && boundary_free r2
  | Re.ROpt r1 => boundary_free r1
  | Re.RBoundary => false
  | _ => true
  end.

(** Nothing, or one of the separators [-], [.] and white space. *)
Definition optional_separator (s : string) : Prop :=
  s = "" \/ exists c, s = String c "" /\ Re.in_cset c PiiComparison.separator = true.

(** * Properties *)

Unset Implicit Arguments.
Open Scope string_scope.

Arguments PiiComparison.found_in : simpl never.
Arguments PiiComparison.anonymize_pii_regex : simpl never.
Arguments Str.label : simpl never.

(** Unfolds the primitives of the monad [M] in the goal. *)
Ltac step_world :=
  unfold bind, ret, perf_counter, client_invoke_model, read_json, sleep,
    PiiComparison.elapsed_ms, PiiComparison.detect_pii_regex; cbn.

(** ** The local PII detector on the sample sentence *)

(** C8: on "My email is a@b.com, call 555-123-4567" the detector returns
    exactly the categories email and phone; anonymization substitutes the
    placeholders pattern by pattern in the order email, phone, ssn, card, and
    its result contains neither the address nor the number. *)
Theorem detector_on_sample_sentence :
  PiiComparison.found_in pii_example = ["email"; "phone"]%string /\
  (forall env w,
      fst (fst (PiiComparison.detect_pii_regex env pii_example w))
      = ["email"; "phone"]%string) /\
  Re.sub PiiComparison.email_pattern "[EMAIL]" pii_example
  = "My email is [EMAIL], call 555-123-4567"%string /\
  Re.sub PiiComparison.phone_pattern "[PHONE]"
         "My email is [EMAIL], call 555-123-4567"
  = "My email is [EMAIL], call [PHONE]"%string /\
  Re.sub PiiComparison.ssn_pattern "[SSN]" "My email is [EMAIL], call [PHONE]"
  = "My email is [EMAIL], call [PHONE]"%string /\
  Re.sub PiiComparison.credit_card_pattern "[CARD]"
         "My email is [EMAIL], call [PHONE]"
  = "My email is [EMAIL], call [PHONE]"%string /\
  PiiComparison.anonymize_pii_regex pii_example
  = "My email is [EMAIL], call [PHONE]"%string /\
  Str.contains "a@b.com" (PiiComparison.anonymize_pii_regex pii_example) = false /\
  Str.contains "555-123-4567" (PiiComparison.anonymize_pii_regex pii_example)
  = false.
Proof.
  repeat split; try (vm_compute; reflexivity).
Qed.

(** ** Sorting, maximum and the percentile index *)

Section StatsFacts.

Open Scope Q_scope.

Lemma Qle_bool_false (x y : Q) : Qle_bool x y = false -> y <= x.
Proof.
  intro H. apply Qlt_le_weak, Qnot_le_lt. intro Hle.
  apply Qle_bool_iff in Hle. congruence.
Qed.

Lemma insert_perm (x : Q) (l : list Q) : Permutation (Stats.insert x l) (x :: l).
Proof.
  induction l as [|y l IH]; simpl.
  - apply Permutation_refl.
  - destruct (Qle_bool x y).
    + apply Permutation_refl.
    + eapply perm_trans; [apply perm_skip, IH | apply perm_swap].
Qed.

Lemma sorted_perm (l : list Q) : Permutation (Stats.sorted l) l.
Proof.
  induction l as [|x l IH]; simpl.
  - constructor.
  - eapply perm_trans; [apply insert_perm | apply perm_skip, IH].
Qed.

Lemma insert_sorted (x : Q) (l : list Q) :
  StronglySorted Qle l -> StronglySorted Qle (Stats.insert x l).
Proof.
  induction 1 as [|y l Hs IH Hall]; simpl.
  - repeat constructor.
  - destruct (Qle_bool x y) eqn:E.
    + apply Qle_bool_iff in E. constructor.
      * constructor; assumption.
      * constructor; [assumption|].
        eapply Forall_impl; [|exact Hall].
        intros z Hz. eapply Qle_trans; eassumption.
    + apply Qle_bool_false in E. constructor; [assumption|].
      eapply Permutation_Forall.
      * apply Permutation_sym, insert_perm.
      * constructor; assumption.
Qed.

Lemma sorted_sorted (l : list Q) : StronglySorted Qle (Stats.sorted l).
Proof.
  induction l; simpl; [constructor | apply insert_sorted; assumption].
Qed.

Lemma sorted_length (l : list Q) : List.length (Stats.sorted l) = List.length l.
Proof. apply Permutation_length, sorted_perm. Qed.

(** The running maximum of [max]: it is the start value or an item, and it
    bounds both. *)
Lemma running_max (l : list Q) (m : Q) :
  let r := fold_left (fun m y => if Stats.Qlt_bool m y then y else m) l m in
  (r = m \/ In r l) /\ m <= r /\ forall x, In x l -> x <= r.
Proof.
  revert m. induction l as [|y l IH]; intro m; simpl.
  - split; [left; reflexivity|]. split; [apply Qle_refl|]. intros x [].
  - destruct (IH (if Stats.Qlt_bool m y then y else m)) as (Hin & Hle & Hall).
    unfold Stats.Qlt_bool in *.
    destruct (Qle_bool y m) eqn:E; simpl in *.
    + apply Qle_bool_iff in E. split; [|split].
      * destruct Hin; [left | right; right]; assumption.
      * assumption.
      * intros x [<-|Hx]; [eapply Qle_trans; eassumption | auto].
    + apply Qle_bool_false in E. split; [|split].
      * destruct Hin as [->|Hin]; right; [left; reflexivity | right; assumption].
      * eapply Qle_trans; eassumption.
      * intros x [<-|Hx]; [assumption | auto].
Qed.

Lemma max_spec (l : list Q) :
  l <> [] ->
  exists v, Stats.max l = inr v /\ In v l /\ forall x, In x l -> x <= v.
Proof.
  destruct l as [|x l]; [congruence|]. intros _.
  destruct (running_max l x) as (Hin & Hle & Hall).
  eexists. split; [reflexivity|]. split.
  - destruct Hin as [->|Hin]; [left; reflexivity | right; assumption].
  - intros y [<-|Hy]; [assumption | auto].
Qed.

Lemma running_min (l : list Q) (m : Q) :
  let r := fold_left (fun m y => if Stats.Qlt_bool y m then y else m) l m in
  (r = m \/ In r l) /\ r <= m /\ forall x, In x l -> r <= x.
Proof.
  revert m. induction l as [|y l IH]; intro m; simpl.
  - split; [left; reflexivity|]. split; [apply Qle_refl|]. intros x [].
  - destruct (IH (if Stats.Qlt_bool y m then y else m)) as (Hin & Hle & Hall).
    unfold Stats.Qlt_bool in *.
    destruct (Qle_bool m y) eqn:E; simpl in *.
    + apply Qle_bool_iff in E. split; [|split].
      * destruct Hin; [left | right; right]; assumption.
      * assumption.
      * intros x [<-|Hx]; [eapply Qle_trans; eassumption | auto].
    + apply Qle_bool_false in E. split; [|split].
      * destruct Hin as [->|Hin]; right; [left; reflexivity | right; assumption].
      * eapply Qle_trans; eassumption.
      * intros x [<-|Hx]; [assumption | auto].
Qed.

(** [int(n * 0.95)] is [floor(95 n / 100)] in exact arithmetic. *)
Lemma p95_index_floor (n : nat) :
  Stats.p95_index n = (95 * Z.of_nat n / 100)%Z.
Proof.
  unfold Stats.p95_index, Stats.int, Stats.of_nat.
  assert (H : Qle_bool 0 (inject_Z (Z.of_nat n) * (95 # 100)) = true).
  { apply Qle_bool_iff. unfold Qle; simpl. lia. }
  rewrite H. unfold Qfloor, Qmult, inject_Z; cbn [Qnum Qden].
  change (Z.pos (1 * 100)) with 100%Z. rewrite (Z.mul_comm 95). reflexivity.
Qed.

Lemma p95_index_in_range (n : nat) :
  (0 < n)%nat -> (0 <= Stats.p95_index n < Z.of_nat n)%Z.
Proof.
  intro Hn. rewrite p95_index_floor. split.
  - apply Z.div_pos; lia.
  - apply Z.div_lt_upper_bound; lia.
Qed.

Lemma index_in_range (l : list Q) (i : Z) :
  (0 <= i < Z.of_nat (List.length l))%Z ->
  exists v, Stats.index l i = inr v /\ nth_error l (Z.to_nat i) = Some v.
Proof.
  intros [H0 H1]. unfold Stats.index.
  destruct (i <? 0)%Z eqn:E; [apply Z.ltb_lt in E; lia|]. rewrite E.
  destruct (nth_error l (Z.to_nat i)) as [v|] eqn:En.
  - exists v. split; reflexivity.
  - apply nth_error_None in En. lia.
Qed.

(** [p95] never raises on a non-empty list, and returns the nearest-rank
    percentile. *)
Lemma p95_spec (l : list Q) :
  l <> [] -> exists v, Stats.p95 l = inr v /\ nearest_rank_p95 l v.
Proof.
  intro Hne. unfold Stats.p95, nearest_rank_p95.
  destruct (20 <=? List.length l)%nat eqn:E.
  - apply Nat.leb_le in E.
    destruct (index_in_range (Stats.sorted l) (Stats.p95_index (List.length l)))
      as (v & Hv & Hn).
    { rewrite sorted_length. apply p95_index_in_range. lia. }
    exists v. split; [assumption|]. split; [lia|]. intros _.
    exists (Stats.sorted l). split; [apply sorted_perm|].
    split; [apply sorted_sorted|].
    rewrite <- p95_index_floor. assumption.
  - apply Nat.leb_gt in E.
    destruct (max_spec l Hne) as (v & Hv & Hin & Hall).
    exists v. split; [assumption|]. split; [auto | lia].
Qed.

End StatsFacts.

(** The rounding of binary64 does not show in the index: below twenty
    thousand samples [int(n * 0.95)] computed on doubles is the exact
    [floor(95 n / 100)]. *)
Lemma index_agrees_from_sound (count : nat) (n : Z) :
  index_agrees_from n count = true ->
  forall k, (n <= k < n + Z.of_nat count)%Z ->
            Stats.p95_index_binary64 k = Some (95 * k / 100)%Z.
Proof.
  revert n. induction count as [|c IH]; intros n H k Hk; [lia|].
  cbn [index_agrees_from] in H. apply andb_true_iff in H as [H1 H2].
  destruct (Z.eq_dec k n) as [->|Hne].
  - destruct (Stats.p95_index_binary64 n); [|discriminate].
    apply Z.eqb_eq in H1. congruence.
  - apply (IH _ H2). lia.
Qed.

Lemma p95_index_binary64_exact (n : nat) :
  (Z.of_nat n < 20000)%Z ->
  Stats.p95_index_binary64 (Z.of_nat n) = Some (Stats.p95_index n).
Proof.
  intro Hn. rewrite p95_index_floor.
  apply (index_agrees_from_sound (Z.to_nat 20000) 0%Z).
  - vm_compute. reflexivity.
  - lia.
Qed.

(** ** The statistics block of benchmark.py *)

Lemma median_total (l : list Q) :
  l <> [] -> exists m, Stats.median l = inr m.
Proof.
  intro Hne. unfold Stats.median. rewrite sorted_length.
  destruct l as [|x l]; [congruence|]. cbn [List.length].
  destruct (Nat.odd (S (List.length l))); eexists; reflexivity.
Qed.

Lemma variance_total (l : list Q) :
  (1 < List.length l)%nat -> exists v, Stats.variance l = inr v.
Proof.
  destruct l as [|a [|b l]]; cbn [List.length]; try lia.
  intros _. eexists. reflexivity.
Qed.

Lemma min_total (l : list Q) : l <> [] -> exists v, Stats.min l = inr v.
Proof. destruct l; [congruence|]. intros _. eexists. reflexivity. Qed.

Lemma mean_total (l : list Q) :
  l <> [] -> Stats.mean l = inr (Stats.sum l / Stats.of_nat (List.length l))%Q.
Proof. destruct l; [congruence|]. reflexivity. Qed.

(** On a non-empty list of latencies the block is computed without an
    exception, and its P95 is what [Stats.p95] returns. *)
Lemma describe_total (l : list Q) :
  l <> [] ->
  exists st, Benchmark.describe l = inr (Some st) /\
             Stats.p95 l = inr (Benchmark.s_p95 st) /\
             Stats.mean l = inr (Benchmark.s_mean st).
Proof.
  intro Hne. unfold Benchmark.describe.
  destruct (median_total l Hne) as [md Hmd].
  destruct (min_total l Hne) as [lo Hlo].
  destruct (max_spec l Hne) as (hi & Hhi & _).
  destruct (p95_spec l Hne) as (v & Hv & _).
  rewrite (mean_total l Hne), Hmd, Hlo, Hhi, Hv.
  destruct l as [|x l]; [congruence|].
  destruct (1 <? List.length (x :: l))%nat eqn:E.
  - apply Nat.ltb_lt in E. destruct (variance_total _ E) as [var Hvar].
    rewrite Hvar. cbn. eexists. split; [reflexivity|]. split; reflexivity.
  - cbn. eexists. split; [reflexivity|]. split; reflexivity.
Qed.

Lemma describe_empty : Benchmark.describe [] = inr None.
Proof. reflexivity. Qed.

(** ** Reports of benchmark.py *)

Lemma ebind_inr {A B} (m : py_error + A) (f : A -> py_error + B) (b : B) :
  ebind m f = inr b -> exists a, m = inr a /\ f a = inr b.
Proof.
  destruct m as [e|a]; simpl; [discriminate|]. intro H. exists a. auto.
Qed.

Tactic Notation "ebind_inv" hyp(H) "as" ident(a) ident(Ha) :=
  apply ebind_inr in H; destruct H as (a & Ha & H).

(** The two statistics blocks of a report are [describe] applied to the
    latencies of the results that carry no error. *)
Lemma analyze_results_stats (results : Benchmark.Results) (rep : Benchmark.report) :
  Benchmark.analyze_results results = inr rep ->
  Benchmark.describe
    (map Benchmark.latency_ms
         (filter Benchmark.no_error (Benchmark.results_without_guardrail results)))
  = inr (Benchmark.stats_without rep) /\
  Benchmark.describe
    (map Benchmark.latency_ms
         (filter Benchmark.no_error (Benchmark.results_with_guardrail results)))
  = inr (Benchmark.stats_with rep).
Proof.
  unfold Benchmark.analyze_results. intro H.
  ebind_inv H as s1 Hs1. ebind_inv H as s2 Hs2.
  ebind_inv H as an Han. ebind_inv H as tb Htb.
  injection H as <-. cbn. split; assumption.
Qed.

(** C2: for each variant of benchmark.py the P95 of a report is taken over
    the latencies of the results without error; it is the maximum when there
    are fewer than twenty of them and otherwise the item at index
    floor(0.95 n) of the ascending order, which is also the index the
    binary64 product [int(n * 0.95)] gives below twenty thousand samples; for
    [10,...,50] it is 50 and for [10,...,200] it is 200. *)
Theorem p95_is_nearest_rank :
  (forall l, l <> [] ->
     exists st, Benchmark.describe l = inr (Some st) /\
                nearest_rank_p95 l (Benchmark.s_p95 st)) /\
  (forall results rep,
     Benchmark.analyze_results results = inr rep ->
     forall with_gr : bool,
       let data := if with_gr then Benchmark.results_with_guardrail results
                   else Benchmark.results_without_guardrail results in
       let latencies := map Benchmark.latency_ms (filter Benchmark.no_error data) in
       let stats := if with_gr then Benchmark.stats_with rep
                    else Benchmark.stats_without rep in
       latencies <> [] ->
       exists st, stats = Some st /\ nearest_rank_p95 latencies (Benchmark.s_p95 st)) /\
  (forall n, (Z.of_nat n < 20000)%Z ->
     Stats.p95_index_binary64 (Z.of_nat n) = Some (95 * Z.of_nat n / 100)%Z) /\
  (exists st, Benchmark.describe samples_5 = inr (Some st) /\
              Benchmark.s_p95 st = inject_Z 50) /\
  (exists st, Benchmark.describe samples_20 = inr (Some st) /\
              Benchmark.s_p95 st = inject_Z 200).
Proof.
  assert (D : forall l, l <> [] ->
     exists st, Benchmark.describe l = inr (Some st) /\
                nearest_rank_p95 l (Benchmark.s_p95 st)).
  { intros l Hne. destruct (describe_total l Hne) as (st & Hd & Hp & _).
    exists st. split; [assumption|].
    destruct (p95_spec l Hne) as (v & Hv & Hn).
    rewrite Hv in Hp. injection Hp as <-. assumption. }
  split; [exact D|]. split.
  - intros results rep H with_gr data latencies stats Hne.
    destruct (analyze_results_stats results rep H) as [H1 H2].
    destruct (D latencies Hne) as (st & Hd & Hn).
    exists st. split; [|assumption].
    subst latencies stats data. destruct with_gr; congruence.
  - split.
    + intros n Hn. rewrite <- p95_index_floor.
      apply p95_index_binary64_exact. assumption.
    + split; eexists; (split; [vm_compute; reflexivity | reflexivity]).
Qed.

(** C2 at the twenty samples 10, 20, ..., 200. *)
Lemma p95_is_nearest_rank_witness :
  samples_20 <> [] /\
  exists st, Benchmark.describe samples_20 = inr (Some st) /\
             nearest_rank_p95 samples_20 (Benchmark.s_p95 st).
Proof.
  assert (H : samples_20 <> []) by (vm_compute; discriminate).
  split; [exact H | exact (proj1 p95_is_nearest_rank samples_20 H)].
Defined.

(** ** The percentage overhead *)

Lemma div_nonzero (a b : Q) : ~ (b == 0)%Q -> Stats.div a b = inr (a / b)%Q.
Proof.
  intro Hb. unfold Stats.div.
  destruct (Qeq_bool b 0) eqn:E; [|reflexivity].
  apply Qeq_bool_iff in E. contradiction.
Qed.

Lemma div_inr (a b q : Q) :
  Stats.div a b = inr q -> ~ (b == 0)%Q /\ q = (a / b)%Q.
Proof.
  unfold Stats.div. destruct (Qeq_bool b 0) eqn:E; [discriminate|].
  intro H. injection H as <-. split; [|reflexivity].
  intro Hb. apply Qeq_bool_iff in Hb. congruence.
Qed.


(** ** Timing of the invoke operations *)

Section Timing.

Variable env : Env.
Hypothesis mono : clock_monotone env.

Lemma call_nonneg (n : nat) (p : api_params) :
  (0 <= call_secs (service env n p))%Q.
Proof. apply mono. Qed.

Lemma read_nonneg (n : nat) (p : api_params) (r : response) :
  call_result (service env n p) = inr r -> (0 <= read_secs r)%Q.
Proof. apply mono. Qed.

Lemma scan_nonneg (text : string) : (0 <= scan_secs env text)%Q.
Proof. apply mono. Qed.

Lemma no_protection_well_timed (prompt : string) (w : World) :
  let r := fst (PiiComparison.invoke_no_protection env prompt w) in
  well_timed r /\ PiiComparison.pii_check_ms r = 0%Q.
Proof.
  unfold PiiComparison.invoke_no_protection, well_timed. step_world.
  pose proof (call_nonneg (List.length (calls w)) (PiiComparison.plain_params prompt)) as Hc.
  pose proof (read_nonneg (List.length (calls w)) (PiiComparison.plain_params prompt)) as Hr.
  destruct (call_result _) as [e|resp]; cbn.
  - repeat split; lra.
  - specialize (Hr resp eq_refl).
    destruct (read_result resp); cbn; repeat split; lra.
Qed.

Lemma with_guardrail_well_timed (prompt : string) (w : World) :
  let r := fst (PiiComparison.invoke_with_guardrail env prompt w) in
  well_timed r /\ PiiComparison.pii_check_ms r = 0%Q.
Proof.
  unfold PiiComparison.invoke_with_guardrail, well_timed. step_world.
  pose proof (call_nonneg (List.length (calls w)) (PiiComparison.guardrail_params prompt)) as Hc.
  pose proof (read_nonneg (List.length (calls w)) (PiiComparison.guardrail_params prompt)) as Hr.
  destruct (call_result _) as [e|resp]; cbn.
  - repeat split; lra.
  - specialize (Hr resp eq_refl).
    destruct (read_result resp) as [e|response_body]; cbn.
    + repeat split; lra.
    + destruct (Py.get response_body _ _); cbn; repeat split; lra.
Qed.

Lemma with_regex_well_timed (prompt : string) (w : World) :
  let r := fst (PiiComparison.invoke_with_regex env prompt w) in
  well_timed r /\ (0 <= PiiComparison.pii_check_ms r)%Q.
Proof.
  unfold PiiComparison.invoke_with_regex, well_timed. step_world.
  set (p := PiiComparison.plain_params _).
  pose proof (call_nonneg (List.length (calls w)) p) as Hc.
  pose proof (read_nonneg (List.length (calls w)) p) as Hr.
  pose proof (scan_nonneg prompt) as Hs.
  destruct (call_result _) as [e|resp]; cbn.
  - repeat split; lra.
  - specialize (Hr resp eq_refl).
    destruct (read_result resp) as [e|response_body]; cbn.
    + repeat split; lra.
    + destruct (PiiComparison.output_text_of response_body) as [e|[]]; cbn;
        try (repeat split; lra).
      pose proof (scan_nonneg s) as Hs'. repeat split; lra.
Qed.

Lemma invoke_model_latency_nonneg (prompt : string) (g : bool) (w : World) :
  (0 <= Benchmark.latency_ms (fst (Benchmark.invoke_model env prompt g w)))%Q.
Proof.
  unfold Benchmark.invoke_model, Benchmark.handle. step_world.
  set (p := Benchmark.api_params_of _ _).
  pose proof (call_nonneg (List.length (calls w)) p) as Hc.
  pose proof (read_nonneg (List.length (calls w)) p) as Hr.
  destruct (call_result _) as [e|resp]; cbn.
  - destruct (is_validation e); cbn; lra.
  - specialize (Hr resp eq_refl).
    destruct (read_result resp) as [e|response_body]; cbn.
    + destruct (is_validation e); cbn; lra.
    + destruct (Benchmark.inspect g response_body) as [l [e|]]; cbn; lra.
Qed.

End Timing.

(** C9: every result of the three invoke operations of the PII script has
    total_ms = latency_ms + pii_check_ms and total_ms >= latency_ms >= 0,
    whether the call succeeded or failed, and pii_check_ms = 0 in the two
    variants that run no local pattern matching; the latency recorded by
    [invoke_model] of benchmark.py, whose results have no other timing field,
    is not negative either.  The clock is assumed not to run backwards. *)
Theorem total_is_latency_plus_check (env : Env) (prompt : string) (w : World) :
  clock_monotone env ->
  let r0 := fst (PiiComparison.invoke_no_protection env prompt w) in
  let r1 := fst (PiiComparison.invoke_with_guardrail env prompt w) in
  let r2 := fst (PiiComparison.invoke_with_regex env prompt w) in
  (well_timed r0 /\ PiiComparison.pii_check_ms r0 = 0%Q) /\
  (well_timed r1 /\ PiiComparison.pii_check_ms r1 = 0%Q) /\
  (well_timed r2 /\ (0 <= PiiComparison.pii_check_ms r2)%Q) /\
  (forall use_guardrail,
      (0 <= Benchmark.latency_ms
              (fst (Benchmark.invoke_model env prompt use_guardrail w)))%Q).
Proof.
  intro mono. cbv zeta.
  split; [apply no_protection_well_timed; assumption|].
  split; [apply with_guardrail_well_timed; assumption|].
  split; [apply with_regex_well_timed; assumption|].
  intro g. apply invoke_model_latency_nonneg. assumption.
Qed.

Lemma sample_clock_monotone (f : nat -> api_params -> call_outcome) :
  (forall n p, exists b, f n p = reply b \/ exists v t, f n p = failure v t) ->
  clock_monotone (env_of f).
Proof.
  intro H. repeat split; cbn.
  - intros n p. destruct (H n p) as [b [->| (v & t & ->)]]; cbn; lra.
  - intros n p r Hr. destruct (H n p) as [b [E| (v & t & E)]];
      rewrite E in Hr; cbn in Hr; [|discriminate].
    injection Hr as <-. cbn. lra.
  - intros _. lra.
Qed.

Lemma env_answers_monotone : clock_monotone env_answers.
Proof.
  apply sample_clock_monotone. intros n p. exists sample_body. left. reflexivity.
Qed.

(** C9 at a concrete call. *)
Lemma total_is_latency_plus_check_witness :
  clock_monotone env_answers /\
  well_timed (fst (PiiComparison.invoke_with_regex env_answers pii_example w0)).
Proof.
  split; [exact env_answers_monotone|].
  exact (proj1 (proj1 (proj2 (proj2
    (total_is_latency_plus_check env_answers pii_example w0 env_answers_monotone))))).
Defined.

(** ** What the timer of each invoke operation covers *)

Lemma no_protection_latency (env : Env) (prompt : string) (w : World) :
  let run := PiiComparison.invoke_no_protection env prompt w in
  (PiiComparison.latency_ms (fst run) == passed_ms w (snd run))%Q.
Proof.
  unfold PiiComparison.invoke_no_protection, passed_ms. step_world.
  destruct (call_result _) as [e|resp]; cbn; [lra|].
  destruct (read_result resp); cbn; lra.
Qed.

Lemma with_guardrail_latency (env : Env) (prompt : string) (w : World) :
  let run := PiiComparison.invoke_with_guardrail env prompt w in
  let o := next_call env w (PiiComparison.guardrail_params prompt) in
  (PiiComparison.error (fst run) = None ->
   PiiComparison.latency_ms (fst run) == call_secs o * 1000)%Q /\
  (PiiComparison.error (fst run) <> None ->
   PiiComparison.latency_ms (fst run) == passed_ms w (snd run))%Q.
Proof.
  unfold PiiComparison.invoke_with_guardrail, passed_ms, next_call. step_world.
  destruct (call_result _) as [e|resp]; cbn.
  - split; [discriminate | intros _; lra].
  - destruct (read_result resp) as [e|response_body]; cbn.
    + split; [discriminate | intros _; lra].
    + destruct (Py.get response_body _ _); cbn.
      * split; [discriminate | intros _; lra].
      * split; [intros _; lra | congruence].
Qed.

Lemma invoke_model_latency (env : Env) (prompt : string) (g : bool) (w : World) :
  let run := Benchmark.invoke_model env prompt g w in
  let o := next_call env w (Benchmark.api_params_of prompt g) in
  (Benchmark.error (fst run) = None ->
   Benchmark.latency_ms (fst run) == call_secs o * 1000)%Q /\
  (Benchmark.error (fst run) <> None ->
   Benchmark.latency_ms (fst run) == passed_ms w (snd run))%Q.
Proof.
  unfold Benchmark.invoke_model, Benchmark.handle, passed_ms, next_call.
  step_world.
  destruct (call_result _) as [e|resp]; cbn.
  - destruct (is_validation e); cbn; (split; [discriminate | intros _; lra]).
  - destruct (read_result resp) as [e|response_body]; cbn.
    + destruct (is_validation e); cbn; (split; [discriminate | intros _; lra]).
    + destruct (Benchmark.inspect g response_body) as [l [e|]]; cbn.
      * split; [discriminate | intros _; lra].
      * split; [intros _; lra | congruence].
Qed.

Lemma with_regex_latency (env : Env) (prompt : string) (w : World) :
  let run := PiiComparison.invoke_with_regex env prompt w in
  let o := next_call env w (PiiComparison.plain_params (processed prompt)) in
  (PiiComparison.error (fst run) = None ->
   PiiComparison.latency_ms (fst run) == call_secs o * 1000)%Q /\
  (PiiComparison.error (fst run) <> None ->
   PiiComparison.latency_ms (fst run)
   == passed_ms w (snd run) - scan_secs env prompt * 1000)%Q.
Proof.
  unfold PiiComparison.invoke_with_regex, passed_ms, next_call, processed.
  step_world.
  destruct (call_result _) as [e|resp]; cbn.
  - split; [discriminate | intros _; lra].
  - destruct (read_result resp) as [e|response_body]; cbn.
    + split; [discriminate | intros _; lra].
    + destruct (PiiComparison.output_text_of response_body) as [e|[]]; cbn;
        try (split; [discriminate | intros _; lra]).
      split; [intros _; lra | congruence].
Qed.

(** C1, as amended: the timer starts right before the remote call.
    [invoke_no_protection] stops it after the body has been read and parsed,
    or when the exception is caught: its latency is the whole time the
    operation took.  [invoke_model], [invoke_with_guardrail] and
    [invoke_with_regex] stop it when the call returns, before the body is read
    and parsed: a result without error carries the duration of the call
    alone; a result with an error carries the time up to the exception (for
    [invoke_with_regex] less the scan of the prompt, which precedes the
    timer). *)
Theorem latency_covers_the_call (env : Env) (prompt : string) (w : World) :
  (let run := PiiComparison.invoke_no_protection env prompt w in
   PiiComparison.latency_ms (fst run) == passed_ms w (snd run))%Q /\
  (let run := PiiComparison.invoke_with_guardrail env prompt w in
   let o := next_call env w (PiiComparison.guardrail_params prompt) in
   (PiiComparison.error (fst run) = None ->
    PiiComparison.latency_ms (fst run) == call_secs o * 1000)%Q /\
   (PiiComparison.error (fst run) <> None ->
    PiiComparison.latency_ms (fst run) == passed_ms w (snd run))%Q) /\
  (forall use_guardrail,
   let run := Benchmark.invoke_model env prompt use_guardrail w in
   let o := next_call env w (Benchmark.api_params_of prompt use_guardrail) in
   (Benchmark.error (fst run) = None ->
    Benchmark.latency_ms (fst run) == call_secs o * 1000)%Q /\
   (Benchmark.error (fst run) <> None ->
    Benchmark.latency_ms (fst run) == passed_ms w (snd run))%Q) /\
  (let run := PiiComparison.invoke_with_regex env prompt w in
   let o := next_call env w (PiiComparison.plain_params (processed prompt)) in
   (PiiComparison.error (fst run) = None ->
    PiiComparison.latency_ms (fst run) == call_secs o * 1000)%Q /\
   (PiiComparison.error (fst run) <> None ->
    PiiComparison.latency_ms (fst run)
    == passed_ms w (snd run) - scan_secs env prompt * 1000)%Q).
Proof.
  split; [apply no_protection_latency|].
  split; [apply with_guardrail_latency|].
  split; [intro g; apply invoke_model_latency|].
  apply with_regex_latency.
Qed.

(** Counterexample to C1 as stated: the service answers in two seconds and
    the body takes one more to read; [invoke_model] records 2000 ms while
    3000 ms have passed. *)
Lemma latency_leaves_out_the_body :
  let run := Benchmark.invoke_model env_answers "What is the capital of France?" true w0 in
  Benchmark.error (fst run) = None /\
  (Benchmark.latency_ms (fst run) == 2000)%Q /\
  (passed_ms w0 (snd run) == 3000)%Q /\
  (Benchmark.latency_ms (fst run) < passed_ms w0 (snd run))%Q.
Proof.
  cbv zeta. repeat split; vm_compute; reflexivity.
Qed.

(** The amended C1 at a concrete call. *)
Lemma latency_covers_the_call_witness :
  (Benchmark.latency_ms
     (fst (Benchmark.invoke_model env_answers "What is the capital of France?" true w0))
   == call_secs (next_call env_answers w0
                   (Benchmark.api_params_of "What is the capital of France?" true))
      * 1000)%Q.
Proof.
  exact (proj1 (proj1 (proj2 (proj2
    (latency_covers_the_call env_answers "What is the capital of France?" w0)))
    true) eq_refl).
Defined.

(** ** The blocked flag *)

Lemma delivered_inv (o : call_outcome) (response_body : value) :
  delivered o = Some response_body ->
  exists resp, call_result o = inr resp /\ read_result resp = inr response_body.
Proof.
  unfold delivered. destruct (call_result o) as [e|resp]; [discriminate|].
  destruct (read_result resp) as [e|b] eqn:E; [discriminate|].
  intro H. injection H as <-. exists resp. auto.
Qed.

Lemma raised_by_inv (o : call_outcome) (e : exn) :
  raised_by o = Some e ->
  call_result o = inl e \/
  exists resp, call_result o = inr resp /\ read_result resp = inl e.
Proof.
  unfold raised_by. destruct (call_result o) as [e'|resp].
  - intro H. injection H as <-. left. reflexivity.
  - destruct (read_result resp) as [e'|b] eqn:E; [|discriminate].
    intro H. injection H as <-. right. exists resp. auto.
Qed.

(** The statements that inspect the body set [blocked] only through the
    stop reason, and leave it unset without the guardrail. *)
Lemma extract_tokens_blocked (response_body : value) (l : Benchmark.locals) :
  Benchmark.l_blocked (fst (Benchmark.extract_tokens response_body l))
  = Benchmark.l_blocked l.
Proof.
  unfold Benchmark.extract_tokens.
  destruct (Py.contains "usage" response_body) as [e|[|]]; cbn; try reflexivity.
  destruct (Py.getitem response_body "usage") as [e|u]; cbn; try reflexivity.
  destruct (Py.get u "inputTokens" VNone); cbn; try reflexivity.
  destruct (Py.get u "outputTokens" VNone); cbn; reflexivity.
Qed.

Lemma inspect_intervened (response_body : value) (l : Benchmark.locals) :
  Py.get response_body "stopReason" (VStr "") = inr (VStr "guardrail_intervened") ->
  Benchmark.inspect true response_body = (l, None) ->
  Benchmark.l_blocked l = true.
Proof.
  intros Hget. unfold Benchmark.inspect.
  destruct (Benchmark.extract_tokens response_body Benchmark.initial) as [l1 [e|]];
    [discriminate|].
  unfold Benchmark.check_blocked. rewrite Hget. cbn.
  intro H. injection H as <-. reflexivity.
Qed.

Lemma inspect_baseline (response_body : value) :
  Benchmark.l_blocked (fst (Benchmark.inspect false response_body)) = false.
Proof.
  unfold Benchmark.inspect.
  pose proof (extract_tokens_blocked response_body Benchmark.initial) as H.
  destruct (Benchmark.extract_tokens response_body Benchmark.initial) as [l1 [e|]];
    cbn in *; assumption.
Qed.

(** C5, as amended: in the guardrail variants ([invoke_model] with the
    guardrail, [invoke_with_guardrail]) a response that is processed without
    error and whose stop reason is "guardrail_intervened" gives blocked =
    true, whatever else the body holds; in the other variants ([invoke_model]
    without the guardrail, [invoke_no_protection], [invoke_with_regex]) a
    result without error is never blocked. *)
Theorem intervention_sets_blocked (env : Env) (prompt : string) (w : World) :
  (forall response_body,
      delivered (next_call env w (Benchmark.api_params_of prompt true))
      = Some response_body ->
      Py.get response_body "stopReason" (VStr "")
      = inr (VStr "guardrail_intervened") ->
      let r := fst (Benchmark.invoke_model env prompt true w) in
      Benchmark.error r = None -> Benchmark.blocked r = true) /\
  (forall response_body,
      delivered (next_call env w (PiiComparison.guardrail_params prompt))
      = Some response_body ->
      Py.get response_body "stopReason" VNone
      = inr (VStr "guardrail_intervened") ->
      let r := fst (PiiComparison.invoke_with_guardrail env prompt w) in
      PiiComparison.error r = None /\ PiiComparison.blocked r = true) /\
  (let r := fst (Benchmark.invoke_model env prompt false w) in
   Benchmark.error r = None -> Benchmark.blocked r = false) /\
  PiiComparison.blocked (fst (PiiComparison.invoke_no_protection env prompt w))
  = false /\
  PiiComparison.blocked (fst (PiiComparison.invoke_with_regex env prompt w))
  = false.
Proof.
  split; [|split; [|split; [|split]]].
  - intros response_body Hd Hget.
    apply delivered_inv in Hd as (resp & Hc & Hr). unfold next_call in Hc.
    unfold Benchmark.invoke_model, Benchmark.handle. step_world.
    rewrite Hc; cbn. rewrite Hr; cbn.
    destruct (Benchmark.inspect true response_body) as [l [e|]] eqn:E; cbn.
    + discriminate.
    + intros _. eapply inspect_intervened; eassumption.
  - intros response_body Hd Hget.
    apply delivered_inv in Hd as (resp & Hc & Hr). unfold next_call in Hc.
    unfold PiiComparison.invoke_with_guardrail. step_world.
    rewrite Hc; cbn. rewrite Hr; cbn. rewrite Hget; cbn. split; reflexivity.
  - unfold Benchmark.invoke_model, Benchmark.handle. step_world.
    destruct (call_result _) as [e|resp]; cbn.
    + destruct (is_validation e); cbn; discriminate.
    + destruct (read_result resp) as [e|response_body]; cbn.
      * destruct (is_validation e); cbn; discriminate.
      * pose proof (inspect_baseline response_body) as H.
        destruct (Benchmark.inspect false response_body) as [l [e|]]; cbn in *;
          [discriminate | intros _; assumption].
  - unfold PiiComparison.invoke_no_protection. step_world.
    destruct (call_result _) as [e|resp]; cbn; [reflexivity|].
    destruct (read_result resp); reflexivity.
  - unfold PiiComparison.invoke_with_regex. step_world.
    destruct (call_result _) as [e|resp]; cbn; [reflexivity|].
    destruct (read_result resp) as [e|response_body]; cbn; [reflexivity|].
    destruct (PiiComparison.output_text_of response_body) as [e|[]]; reflexivity.
Qed.

(** Counterexample to C5 as stated: the body reports "guardrail_intervened"
    and carries text, the call succeeds, and the variants without guardrail
    leave blocked = false. *)
Lemma baseline_ignores_intervention :
  Py.get intervened_body "stopReason" (VStr "") = inr (VStr "guardrail_intervened") /\
  (let r := fst (Benchmark.invoke_model env_intervenes "Hello" false w0) in
   Benchmark.error r = None /\ Benchmark.blocked r = false) /\
  (let r := fst (PiiComparison.invoke_no_protection env_intervenes "Hello" w0) in
   PiiComparison.error r = None /\ PiiComparison.blocked r = false) /\
  (let r := fst (PiiComparison.invoke_with_regex env_intervenes "Hello" w0) in
   PiiComparison.error r = None /\ PiiComparison.blocked r = false).
Proof.
  cbv zeta. repeat split; vm_compute; reflexivity.
Qed.

(** The amended C5 at a concrete call. *)
Lemma intervention_sets_blocked_witness :
  Benchmark.blocked (fst (Benchmark.invoke_model env_intervenes "Hello" true w0))
  = true /\
  PiiComparison.blocked
    (fst (PiiComparison.invoke_with_guardrail env_intervenes "Hello" w0)) = true.
Proof.
  pose proof (intervention_sets_blocked env_intervenes "Hello" w0) as (H1 & H2 & _).
  split.
  - exact (H1 intervened_body eq_refl eq_refl eq_refl).
  - exact (proj2 (H2 intervened_body eq_refl eq_refl)).
Defined.

(** ** Failed calls *)

(** C7, as amended: when the remote call, or the reading of its body,
    raises, the text of the exception is kept in the error field.
    [invoke_with_guardrail] marks the result blocked exactly when that text
    contains "guardrail" in any letter case, for every exception;
    [invoke_model] does so only for a validation error; [invoke_no_protection]
    and [invoke_with_regex] never mark a failed call blocked. *)
Theorem failure_is_captured (env : Env) (prompt : string) (w : World) (e : exn) :
  (forall use_guardrail,
      raised_by (next_call env w (Benchmark.api_params_of prompt use_guardrail))
      = Some e ->
      let r := fst (Benchmark.invoke_model env prompt use_guardrail w) in
      Benchmark.error r = Some (exn_str env e) /\
      Benchmark.blocked r = is_validation e && names_guardrail (exn_str env e)) /\
  (raised_by (next_call env w (PiiComparison.guardrail_params prompt)) = Some e ->
   let r := fst (PiiComparison.invoke_with_guardrail env prompt w) in
   PiiComparison.error r = Some (exn_str env e) /\
   PiiComparison.blocked r = names_guardrail (exn_str env e)) /\
  (forall text,
      let r := fst (PiiComparison.invoke_with_guardrail env prompt w) in
      PiiComparison.error r = Some text ->
      PiiComparison.blocked r = names_guardrail text) /\
  (raised_by (next_call env w (PiiComparison.plain_params prompt)) = Some e ->
   let r := fst (PiiComparison.invoke_no_protection env prompt w) in
   PiiComparison.error r = Some (exn_str env e) /\
   PiiComparison.blocked r = false) /\
  (raised_by (next_call env w (PiiComparison.plain_params (processed prompt)))
   = Some e ->
   let r := fst (PiiComparison.invoke_with_regex env prompt w) in
   PiiComparison.error r = Some (exn_str env e) /\
   PiiComparison.blocked r = false).
Proof.
  split; [|split; [|split; [|split]]].
  - intros g Hr. unfold next_call in Hr.
    unfold Benchmark.invoke_model, Benchmark.handle, names_guardrail. step_world.
    apply raised_by_inv in Hr as [Hc | (resp & Hc & Hb)]; rewrite Hc; cbn.
    + destruct (is_validation e); cbn; [|split; reflexivity].
      destruct (Str.contains _ _); split; reflexivity.
    + rewrite Hb; cbn.
      destruct (is_validation e); cbn; [|split; reflexivity].
      destruct (Str.contains _ _); split; reflexivity.
  - intros Hr. unfold next_call in Hr.
    unfold PiiComparison.invoke_with_guardrail, names_guardrail. step_world.
    apply raised_by_inv in Hr as [Hc | (resp & Hc & Hb)]; rewrite Hc; cbn.
    + split; reflexivity.
    + rewrite Hb; cbn. split; reflexivity.
  - intros text.
    unfold PiiComparison.invoke_with_guardrail, names_guardrail. step_world.
    destruct (call_result _) as [e'|resp]; cbn.
    + intro H. injection H as <-. reflexivity.
    + destruct (read_result resp) as [e'|response_body]; cbn.
      * intro H. injection H as <-. reflexivity.
      * destruct (Py.get response_body _ _); cbn.
        -- intro H. injection H as <-. reflexivity.
        -- discriminate.
  - intros Hr. unfold next_call in Hr.
    unfold PiiComparison.invoke_no_protection. step_world.
    apply raised_by_inv in Hr as [Hc | (resp & Hc & Hb)]; rewrite Hc; cbn.
    + split; reflexivity.
    + rewrite Hb; cbn. split; reflexivity.
  - intros Hr. unfold next_call, processed in Hr.
    unfold PiiComparison.invoke_with_regex. step_world.
    apply raised_by_inv in Hr as [Hc | (resp & Hc & Hb)]; rewrite Hc; cbn.
    + split; reflexivity.
    + rewrite Hb; cbn. split; reflexivity.
Qed.

(** Counterexample to C7 as stated: an access-denied error whose text names
    the guardrail is kept as the error, and the result is not blocked. *)
Lemma unvalidated_failure_is_not_blocked :
  names_guardrail denied = true /\
  (let r := fst (Benchmark.invoke_model env_denied "Hello" true w0) in
   Benchmark.error r = Some denied /\ Benchmark.blocked r = false) /\
  (let r := fst (PiiComparison.invoke_no_protection env_denied "Hello" w0) in
   PiiComparison.error r = Some denied /\ PiiComparison.blocked r = false) /\
  (let r := fst (PiiComparison.invoke_with_regex env_denied "Hello" w0) in
   PiiComparison.error r = Some denied /\ PiiComparison.blocked r = false).
Proof.
  cbv zeta. repeat split; vm_compute; reflexivity.
Qed.

(** The amended C7 at two concrete calls. *)
Lemma failure_is_captured_witness :
  (let r := fst (PiiComparison.invoke_with_guardrail env_denied "Hello" w0) in
   PiiComparison.error r = Some denied /\ PiiComparison.blocked r = true) /\
  (let r := fst (Benchmark.invoke_model env_rejects "Hello" true w0) in
   Benchmark.error r = Some rejected /\ Benchmark.blocked r = true).
Proof.
  split.
  - exact (proj1 (proj2 (failure_is_captured env_denied "Hello" w0 (Raised false denied)))
             eq_refl).
  - exact (proj1 (failure_is_captured env_rejects "Hello" w0 (Raised true rejected))
             true eq_refl).
Defined.

(** ** Variants and groups without a successful sample *)

Lemma describe_never_raises (l : list Q) :
  exists st, Benchmark.describe l = inr st /\ (l = [] -> st = None).
Proof.
  destruct l as [|x l].
  - exists None. split; reflexivity.
  - destruct (describe_total (x :: l)) as (st & H & _); [discriminate|].
    exists (Some st). split; [assumption | discriminate].
Qed.

Lemma mean_or_zero_total (l : list Q) :
  exists m, Benchmark.mean_or_zero l = inr m /\ (l = [] -> m = 0%Q).
Proof.
  destruct l as [|x l].
  - exists 0%Q. split; reflexivity.
  - eexists. split; [reflexivity | discriminate].
Qed.

Lemma row_of_total (without_gr with_gr : list Benchmark.BenchmarkResult) (p : string) :
  exists row,
    Benchmark.row_of without_gr with_gr p = inr row /\
    Benchmark.row_prompt row = p /\
    (Benchmark.times_of without_gr p = [] -> Benchmark.avg_without row = 0%Q) /\
    (Benchmark.times_of with_gr p = [] -> Benchmark.avg_with row = 0%Q).
Proof.
  unfold Benchmark.row_of.
  destruct (mean_or_zero_total (Benchmark.times_of without_gr p)) as (a & Ha & Ha0).
  destruct (mean_or_zero_total (Benchmark.times_of with_gr p)) as (b & Hb & Hb0).
  rewrite Ha, Hb. cbn. eexists. split; [reflexivity|]. cbn. auto.
Qed.

Lemma each_total {A B} (f : A -> py_error + B) (P : A -> B -> Prop) (l : list A) :
  (forall x, exists y, f x = inr y /\ P x y) ->
  exists ys, Benchmark.each f l = inr ys /\
             forall y, In y ys -> exists x, In x l /\ P x y.
Proof.
  intro Hf. induction l as [|x l (ys & Hys & Hall)]; cbn.
  - exists []. split; [reflexivity|]. intros y [].
  - destruct (Hf x) as (y & Hy & HP). rewrite Hy, Hys. cbn.
    exists (y :: ys). split; [reflexivity|].
    intros y' [<-|Hin].
    + exists x. auto.
    + destruct (Hall y' Hin) as (x' & Hx' & HP'). exists x'. auto.
Qed.

Lemma compare_skipped (lw lg : list Q) (b n : nat) :
  lw = [] \/ lg = [] -> Benchmark.compare lw lg b n = inr None.
Proof.
  intros [->| ->]; [reflexivity|]. destruct lw; reflexivity.
Qed.

Lemma summarize_never_raises (data : list PiiComparison.BenchmarkResult) :
  exists s, PiiComparison.summarize data = inr s /\
            (map PiiComparison.total_ms (filter PiiComparison.no_error data) = []
             <-> s = None).
Proof.
  unfold PiiComparison.summarize.
  destruct (map PiiComparison.total_ms (filter PiiComparison.no_error data))
    as [|x l] eqn:E.
  - exists None. split; [reflexivity|]. split; reflexivity.
  - assert (Hne : x :: l <> []) by discriminate.
    destruct (median_total _ Hne) as [md Hmd].
    destruct (min_total _ Hne) as [lo Hlo].
    destruct (max_spec _ Hne) as (hi & Hhi & _).
    rewrite (mean_total _ Hne), Hmd, Hlo, Hhi. cbn [ebind].
    destruct (1 <? List.length (x :: l))%nat eqn:E1.
    + apply Nat.ltb_lt in E1. destruct (variance_total _ E1) as [var Hvar].
      rewrite Hvar. cbn. eexists. split; [reflexivity|].
      split; discriminate.
    + cbn. eexists. split; [reflexivity|]. split; discriminate.
Qed.

Lemma summaries_never_raise (l : list (string * list PiiComparison.BenchmarkResult)) :
  exists s, PiiComparison.summaries l = inr s /\
            forall name, In name (map fst s) ->
              exists data, In (name, data) l /\
                map PiiComparison.total_ms (filter PiiComparison.no_error data) <> [].
Proof.
  induction l as [|[name data] l (s & Hs & Hall)]; cbn.
  - exists []. split; [reflexivity|]. intros name [].
  - destruct (summarize_never_raises data) as (b & Hb & Hnone).
    rewrite Hb, Hs. cbn.
    destruct b as [block|].
    + eexists. split; [reflexivity|]. cbn. intros name' [<-|Hin].
      * exists data. split; [left; reflexivity|].
        intro E. apply Hnone in E. discriminate.
      * destruct (Hall name' Hin) as (d & Hd & Hne). exists d. auto.
    + exists s. split; [reflexivity|]. intros name' Hin.
      destruct (Hall name' Hin) as (d & Hd & Hne). exists d. auto.
Qed.

Lemma pii_compare_skipped (a b c : list Q) :
  a = [] \/ b = [] \/ c = [] -> PiiComparison.compare a b c = inr None.
Proof.
  intros [->|[->| ->]]; [reflexivity| |].
  - destruct a; reflexivity.
  - destruct a; [reflexivity|]. destruct b; reflexivity.
Qed.

Lemma pii_check_timing_never_raises (rs : list PiiComparison.BenchmarkResult) :
  exists t, PiiComparison.pii_check_timing rs = inr t.
Proof.
  destruct rs as [|r rs]; [exists None; reflexivity|].
  eexists. reflexivity.
Qed.

(** C6, as amended: when a variant has no result without error, the
    analysis raises nothing and computes no mean over the empty list:
    benchmark.py leaves out the statistics of that variant and the overhead
    analysis, the PII script leaves out the block of that variant and the
    overhead comparison.  In the per-prompt table of benchmark.py a group
    without a successful sample is shown with the average 0. *)
Theorem empty_variant_is_left_out :
  (forall results,
      let lw := map Benchmark.latency_ms
                    (filter Benchmark.no_error
                            (Benchmark.results_without_guardrail results)) in
      let lg := map Benchmark.latency_ms
                    (filter Benchmark.no_error
                            (Benchmark.results_with_guardrail results)) in
      lw = [] \/ lg = [] ->
      exists rep,
        Benchmark.analyze_results results = inr rep /\
        Benchmark.analysis rep = None /\
        (lw = [] -> Benchmark.stats_without rep = None) /\
        (lg = [] -> Benchmark.stats_with rep = None) /\
        forall row, In row (Benchmark.table rep) ->
          (Benchmark.times_of (Benchmark.results_without_guardrail results)
                              (Benchmark.row_prompt row) = [] ->
           Benchmark.avg_without row = 0%Q) /\
          (Benchmark.times_of (Benchmark.results_with_guardrail results)
                              (Benchmark.row_prompt row) = [] ->
           Benchmark.avg_with row = 0%Q)) /\
  (forall results name data,
      In (name, data) (PiiComparison.items results) ->
      map PiiComparison.total_ms (filter PiiComparison.no_error data) = [] ->
      exists rep,
        PiiComparison.analyze_results results = inr rep /\
        PiiComparison.comparison rep = None /\
        ~ In name (map fst (PiiComparison.summary rep))).
Proof.
  split.
  - intros results lw lg Hempty.
    unfold Benchmark.analyze_results. fold lw lg.
    destruct (describe_never_raises lw) as (sw & Hsw & Hsw0).
    destruct (describe_never_raises lg) as (sg & Hsg & Hsg0).
    rewrite Hsw, Hsg. cbn [ebind]. rewrite compare_skipped by assumption.
    cbn [ebind].
    destruct (each_total
                (Benchmark.row_of (Benchmark.results_without_guardrail results)
                                  (Benchmark.results_with_guardrail results))
                (fun p row =>
                   Benchmark.row_prompt row = p /\
                   (Benchmark.times_of (Benchmark.results_without_guardrail results) p = [] ->
                    Benchmark.avg_without row = 0%Q) /\
                   (Benchmark.times_of (Benchmark.results_with_guardrail results) p = [] ->
                    Benchmark.avg_with row = 0%Q))
                (Benchmark.prompts_seen (Benchmark.results_without_guardrail results)))
      as (rows & Hrows & Hall).
    { intro p. destruct (row_of_total (Benchmark.results_without_guardrail results)
                                      (Benchmark.results_with_guardrail results) p)
        as (row & H1 & H2 & H3 & H4).
      exists row. auto. }
    rewrite Hrows. cbn. eexists. split; [reflexivity|]. cbn.
    repeat split; auto; intro Hrow;
      destruct (Hall row H) as (p & _ & Hp & Hw & Hg); rewrite Hp in *; auto.
  - intros results name data Hin Hempty.
    unfold PiiComparison.analyze_results.
    destruct (summaries_never_raise (PiiComparison.items results)) as (s & Hs & Hnames).
    rewrite Hs. cbn [ebind].
    rewrite pii_compare_skipped.
    2:{ cbn in Hin. destruct Hin as [E|[E|[E|[]]]]; inversion E; subst; auto. }
    cbn [ebind].
    destruct (pii_check_timing_never_raises
                (filter PiiComparison.no_error (PiiComparison.regex results)))
      as (t & Ht).
    rewrite Ht. cbn. eexists. split; [reflexivity|]. cbn. split; [reflexivity|].
    intro Hn. destruct (Hnames name Hn) as (data' & Hin' & Hne).
    assert (data' = data).
    { cbn in Hin, Hin'.
      destruct Hin as [E|[E|[E|[]]]]; destruct Hin' as [E'|[E'|[E'|[]]]];
        inversion E; subst; inversion E'; subst; reflexivity. }
    subst. contradiction.
Qed.

(** Counterexample to C6 as stated: every call of the run is refused, and
    the table shows the prompt with both averages equal to 0. *)
Lemma empty_group_is_reported_as_zero :
  map Benchmark.no_error (Benchmark.results_without_guardrail refused_run) = [false] /\
  map Benchmark.no_error (Benchmark.results_with_guardrail refused_run) = [false] /\
  match Benchmark.analyze_results refused_run with
  | inr rep =>
      Benchmark.table rep
      = [ {| Benchmark.row_prompt := "Hello";
             Benchmark.avg_without := 0;
             Benchmark.avg_with := 0;
             Benchmark.was_blocked := false |} ]
  | inl _ => False
  end.
Proof.
  repeat split; vm_compute; reflexivity.
Qed.

(** The amended C6 at the run in which every call is refused. *)
Lemma empty_variant_is_left_out_witness :
  exists rep,
    Benchmark.analyze_results refused_run = inr rep /\
    Benchmark.analysis rep = None /\
    Benchmark.stats_without rep = None.
Proof.
  destruct (proj1 empty_variant_is_left_out refused_run (or_introl eq_refl))
    as (rep & H1 & H2 & H3 & _).
  exists rep. split; [exact H1|]. split; [exact H2 | exact (H3 eq_refl)].
Defined.

(** ** Loops *)

Lemma for_each_app {A X} (xs ys : list X) (body : X -> A -> M A) (acc : A) (w : World) :
  for_each (xs ++ ys) body acc w
  = let (acc', w') := for_each xs body acc w in for_each ys body acc' w'.
Proof.
  revert acc w. induction xs as [|x xs IH]; intros acc w; cbn.
  - reflexivity.
  - unfold bind. destruct (body x acc w) as [acc1 w1]. apply IH.
Qed.

Lemma for_range_repeat {A X} (x : X) (n : nat) (body : X -> A -> M A) (acc : A)
    (w : World) :
  for_range n (body x) acc w = for_each (repeat x n) body acc w.
Proof.
  revert acc w. induction n as [|n IH]; intros acc w; cbn.
  - reflexivity.
  - unfold bind. destruct (body x acc w) as [acc1 w1]. apply IH.
Qed.

(** The two nested loops of a runner are one loop over the rounds: each
    prompt repeated [n] times. *)
Lemma nested_loops {A X} (xs : list X) (n : nat) (body : X -> A -> M A) (acc : A)
    (w : World) :
  for_each xs (fun x a => for_range n (body x) a) acc w
  = for_each (flat_map (fun x => repeat x n) xs) body acc w.
Proof.
  revert acc w. induction xs as [|x xs IH]; intros acc w; cbn.
  - reflexivity.
  - rewrite for_each_app. unfold bind. rewrite for_range_repeat.
    destruct (for_each (repeat x n) body acc w) as [acc1 w1]. apply IH.
Qed.

Lemma rounds_length {X} (xs : list X) (n : nat) :
  List.length (flat_map (fun x => repeat x n) xs) = (List.length xs * n)%nat.
Proof.
  induction xs as [|x xs IH]; cbn; [reflexivity|].
  rewrite length_app, repeat_length, IH. reflexivity.
Qed.

Lemma count_forall2 {A B} (f : A -> bool) (g : B -> bool) (P : A -> B -> Prop)
    (l : list A) (l' : list B) :
  (forall a b, P a b -> f a = negb (g b)) ->
  Forall2 P l l' ->
  (count f l + count g l' = List.length l)%nat /\ List.length l' = List.length l.
Proof.
  intros HP H. unfold count. induction H as [|a b l l' Hab H [IH1 IH2]]; cbn.
  - split; reflexivity.
  - rewrite (HP a b Hab). destruct (g b); cbn; split; lia.
Qed.

(** ** The runner of benchmark.py *)

Lemma invoke_model_step (env : Env) (prompt : string) (g : bool) (w : World) :
  exists c,
    calls (snd (Benchmark.invoke_model env prompt g w)) = (calls w ++ [c])%list /\
    uses_guardrail c = g /\
    recorded g (fst (Benchmark.invoke_model env prompt g w)) c.
Proof.
  exists {| caller := "invoke_model";
            request := Benchmark.api_params_of prompt g;
            outcome := next_call env w (Benchmark.api_params_of prompt g) |}.
  assert (Hg : uses_guardrail
                 {| caller := "invoke_model";
                    request := Benchmark.api_params_of prompt g;
                    outcome := next_call env w (Benchmark.api_params_of prompt g) |}
               = g) by (destruct g; reflexivity).
  unfold recorded, model_call_failed, parsed_body, delivered. rewrite Hg. clear Hg.
  unfold Benchmark.invoke_model, Benchmark.handle, next_call, succeeded.
  step_world.
  destruct (call_result _) as [e|resp]; cbn.
  - destruct (is_validation e); cbn; repeat split; destruct g; reflexivity.
  - destruct (read_result resp) as [e|response_body]; cbn.
    + destruct (is_validation e); cbn; repeat split; destruct g; reflexivity.
    + destruct (Benchmark.inspect g response_body) as [l [e|]]; cbn;
        repeat split; destruct g; reflexivity.
Qed.

Lemma one_round_step (env : Env) (prompt : string) (acc : Benchmark.Results)
    (w : World) :
  exists r1 r2 c1 c2,
    let run := Benchmark.one_round env prompt acc w in
    Benchmark.results_without_guardrail (fst run)
    = (Benchmark.results_without_guardrail acc ++ [r1])%list /\
    Benchmark.results_with_guardrail (fst run)
    = (Benchmark.results_with_guardrail acc ++ [r2])%list /\
    calls (snd run) = (calls w ++ [c1; c2])%list /\
    uses_guardrail c1 = false /\ uses_guardrail c2 = true /\
    recorded false r1 c1 /\ recorded true r2 c2.
Proof.
  unfold Benchmark.one_round, bind, ret.
  destruct (invoke_model_step env prompt false w) as (c1 & Hc1 & Hg1 & Hr1).
  destruct (Benchmark.invoke_model env prompt false w) as [r1 w1].
  cbn [fst snd] in *.
  destruct (invoke_model_step env prompt true w1) as (c2 & Hc2 & Hg2 & Hr2).
  destruct (Benchmark.invoke_model env prompt true w1) as [r2 w2].
  cbn [fst snd] in *.
  exists r1, r2, c1, c2.
  split; [reflexivity|]. split; [reflexivity|].
  split; [rewrite Hc2, Hc1, <- app_assoc; reflexivity|].
  repeat split; try assumption; try apply Hr1; try apply Hr2.
Qed.

Lemma rounds_spec (env : Env) (ps : list string) (acc : Benchmark.Results)
    (w : World) :
  exists rs1 rs2 cs,
    let run := for_each ps (Benchmark.one_round env) acc w in
    Benchmark.results_without_guardrail (fst run)
    = (Benchmark.results_without_guardrail acc ++ rs1)%list /\
    Benchmark.results_with_guardrail (fst run)
    = (Benchmark.results_with_guardrail acc ++ rs2)%list /\
    calls (snd run) = (calls w ++ cs)%list /\
    List.length cs = (2 * List.length ps)%nat /\
    List.length rs1 = List.length ps /\
    List.length rs2 = List.length ps /\
    Forall2 (recorded false) rs1 (filter (fun c => negb (uses_guardrail c)) cs) /\
    Forall2 (recorded true) rs2 (filter uses_guardrail cs).
Proof.
  revert acc w. induction ps as [|p ps IH]; intros acc w.
  - exists [], [], []. cbn. rewrite !app_nil_r. repeat split; constructor.
  - cbn [for_each]. unfold bind.
    destruct (one_round_step env p acc w)
      as (r1 & r2 & c1 & c2 & H1 & H2 & Hc & Hg1 & Hg2 & Hr1 & Hr2).
    destruct (Benchmark.one_round env p acc w) as [acc1 w1].
    cbn [fst snd] in H1, H2, Hc.
    destruct (IH acc1 w1) as (rs1 & rs2 & cs & I1 & I2 & Ic & Il & Il1 & Il2 & If1 & If2).
    exists (r1 :: rs1), (r2 :: rs2), (c1 :: c2 :: cs). cbv zeta in *.
    rewrite I1, I2, Ic, H1, H2, Hc, <- !app_assoc. cbn.
    rewrite Hg1, Hg2. cbn.
    repeat split; try reflexivity; try lia; try (constructor; assumption).
Qed.

(** What a run of benchmark.py records: after the two warm-up calls, whose
    results are dropped, one result per call of the main loop. *)
Lemma run_benchmark_spec (env : Env) (prompts : list string) (iterations : Z)
    (w : World) :
  exists warm cs,
    let run := Benchmark.run_benchmark env prompts iterations w in
    let n := (List.length prompts * Z.to_nat iterations)%nat in
    calls (snd run) = (calls w ++ warm ++ cs)%list /\
    List.length warm = 2%nat /\
    List.length cs = (2 * n)%nat /\
    List.length (Benchmark.results_without_guardrail (fst run)) = n /\
    List.length (Benchmark.results_with_guardrail (fst run)) = n /\
    Forall2 (recorded false) (Benchmark.results_without_guardrail (fst run))
            (filter (fun c => negb (uses_guardrail c)) cs) /\
    Forall2 (recorded true) (Benchmark.results_with_guardrail (fst run))
            (filter uses_guardrail cs).
Proof.
  unfold Benchmark.run_benchmark, bind.
  destruct (invoke_model_step env "Hello" false w) as (c1 & Hc1 & _).
  destruct (Benchmark.invoke_model env "Hello" false w) as [r1 w1].
  cbn [fst snd] in Hc1.
  destruct (invoke_model_step env "Hello" true w1) as (c2 & Hc2 & _).
  destruct (Benchmark.invoke_model env "Hello" true w1) as [r2 w2].
  cbn [fst snd] in Hc2.
  rewrite nested_loops.
  destruct (rounds_spec env (flat_map (fun x => repeat x (Z.to_nat iterations)) prompts)
                        Benchmark.no_results w2)
    as (rs1 & rs2 & cs & I1 & I2 & Ic & Il & Il1 & Il2 & If1 & If2).
  cbv zeta in *. cbn in I1, I2. rewrite rounds_length in *.
  exists [c1; c2], cs.
  rewrite I1, I2, Ic, Hc2, Hc1, <- !app_assoc. cbn.
  repeat split; assumption.
Qed.

(** The counts of a run of benchmark.py. *)
Lemma benchmark_run_counts (env : Env) (prompts : list string) (iterations : Z)
    (w : World) :
  (0 <= iterations)%Z ->
  let run := Benchmark.run_benchmark env prompts iterations w in
  let n := (Z.of_nat (List.length prompts) * iterations)%Z in
  let main := skipn (List.length (calls w) + 2) (calls (snd run)) in
  let without := filter (fun c => negb (uses_guardrail c)) main in
  let with_ := filter uses_guardrail main in
  Z.of_nat (List.length (Benchmark.results_without_guardrail (fst run))) = n /\
  Z.of_nat (List.length (Benchmark.results_with_guardrail (fst run))) = n /\
  Z.of_nat (List.length (calls (snd run)))
  = (Z.of_nat (List.length (calls w)) + 2 + 2 * n)%Z /\
  Z.of_nat (List.length without) = n /\
  Z.of_nat (List.length with_) = n /\
  Z.of_nat (count succeeded (Benchmark.results_without_guardrail (fst run)))
  = (n - Z.of_nat (count model_call_failed without))%Z /\
  Z.of_nat (count succeeded (Benchmark.results_with_guardrail (fst run)))
  = (n - Z.of_nat (count model_call_failed with_))%Z.
Proof.
  intros Hit run n main without with_.
  destruct (run_benchmark_spec env prompts iterations w)
    as (warm & cs & Hc & Hw & Hl & Hl1 & Hl2 & Hf1 & Hf2).
  cbv zeta in *. fold run in Hc, Hl1, Hl2, Hf1, Hf2.
  assert (Hn : n = Z.of_nat (List.length prompts * Z.to_nat iterations)).
  { subst n. rewrite Nat2Z.inj_mul, Z2Nat.id by assumption. reflexivity. }
  assert (Hmain : main = cs).
  { subst main. rewrite Hc, app_assoc, skipn_app.
    rewrite length_app, Hw, Nat.sub_diag. cbn [skipn].
    rewrite skipn_all2 by (rewrite length_app; lia). reflexivity. }
  subst without with_. rewrite Hmain.
  destruct (count_forall2 succeeded model_call_failed (recorded false) _ _
              (fun a b H => proj2 H) Hf1) as [Hk1 Hk1'].
  destruct (count_forall2 succeeded model_call_failed (recorded true) _ _
              (fun a b H => proj2 H) Hf2) as [Hk2 Hk2'].
  rewrite Hc, !length_app, Hw, Hl.
  repeat split; lia.
Qed.

(** ** The runner of the PII script *)

Lemma invoke_no_protection_step (env : Env) (prompt : string) (w : World) :
  exists c,
    calls (snd (PiiComparison.invoke_no_protection env prompt w))
    = (calls w ++ [c])%list /\
    caller c = "invoke_no_protection" /\
    pii_recorded "no_protection" plain_call_failed
                 (fst (PiiComparison.invoke_no_protection env prompt w)) c.
Proof.
  eexists. unfold pii_recorded, plain_call_failed, parsed_body, delivered, pii_succeeded.
  unfold PiiComparison.invoke_no_protection. step_world.
  destruct (call_result _) as [e|resp] eqn:Ec; cbn.
  - split; [reflexivity|]. cbn. rewrite Ec. auto.
  - destruct (read_result resp) as [e|response_body] eqn:Er; cbn;
      (split; [reflexivity|]); cbn; rewrite Ec, Er; auto.
Qed.

Lemma invoke_with_guardrail_step (env : Env) (prompt : string) (w : World) :
  exists c,
    calls (snd (PiiComparison.invoke_with_guardrail env prompt w))
    = (calls w ++ [c])%list /\
    caller c = "invoke_with_guardrail" /\
    pii_recorded "guardrail" guardrail_call_failed
                 (fst (PiiComparison.invoke_with_guardrail env prompt w)) c.
Proof.
  eexists. unfold pii_recorded, guardrail_call_failed, parsed_body, delivered, pii_succeeded.
  unfold PiiComparison.invoke_with_guardrail. step_world.
  destruct (call_result _) as [e|resp] eqn:Ec; cbn.
  - split; [reflexivity|]. cbn. rewrite Ec. auto.
  - destruct (read_result resp) as [e|response_body] eqn:Er; cbn.
    + split; [reflexivity|]. cbn. rewrite Ec, Er. auto.
    + destruct (Py.get response_body _ _) eqn:Eg; cbn;
        (split; [reflexivity|]); cbn; rewrite Ec, Er, Eg; auto.
Qed.

Lemma invoke_with_regex_step (env : Env) (prompt : string) (w : World) :
  exists c,
    calls (snd (PiiComparison.invoke_with_regex env prompt w))
    = (calls w ++ [c])%list /\
    caller c = "invoke_with_regex" /\
    pii_recorded "regex" regex_call_failed
                 (fst (PiiComparison.invoke_with_regex env prompt w)) c.
Proof.
  eexists. unfold pii_recorded, regex_call_failed, parsed_body, delivered, pii_succeeded.
  unfold PiiComparison.invoke_with_regex. step_world.
  destruct (call_result _) as [e|resp] eqn:Ec; cbn.
  - split; [reflexivity|]. cbn. rewrite Ec. auto.
  - destruct (read_result resp) as [e|response_body] eqn:Er; cbn.
    + split; [reflexivity|]. cbn. rewrite Ec, Er. auto.
    + destruct (PiiComparison.output_text_of response_body) as [e|[]] eqn:Eo; cbn;
        (split; [reflexivity|]); cbn; rewrite Ec, Er, Eo; auto.
Qed.

Lemma pii_one_round_step (env : Env) (prompt : string) (acc : PiiComparison.Results)
    (w : World) :
  exists r1 r2 r3 c1 c2 c3,
    let run := PiiComparison.one_round env prompt acc w in
    PiiComparison.no_protection (fst run)
    = (PiiComparison.no_protection acc ++ [r1])%list /\
    PiiComparison.guardrail (fst run)
    = (PiiComparison.guardrail acc ++ [r2])%list /\
    PiiComparison.regex (fst run)
    = (PiiComparison.regex acc ++ [r3])%list /\
    calls (snd run) = (calls w ++ [c1; c2; c3])%list /\
    caller c1 = "invoke_no_protection" /\
    caller c2 = "invoke_with_guardrail" /\
    caller c3 = "invoke_with_regex" /\
    pii_recorded "no_protection" plain_call_failed r1 c1 /\
    pii_recorded "guardrail" guardrail_call_failed r2 c2 /\
    pii_recorded "regex" regex_call_failed r3 c3.
Proof.
  unfold PiiComparison.one_round, bind, ret.
  destruct (invoke_no_protection_step env prompt w) as (c1 & Hc1 & Hg1 & Hr1).
  destruct (PiiComparison.invoke_no_protection env prompt w) as [r1 w1].
  cbn [fst snd] in *.
  destruct (invoke_with_guardrail_step env prompt w1) as (c2 & Hc2 & Hg2 & Hr2).
  destruct (PiiComparison.invoke_with_guardrail env prompt w1) as [r2 w2].
  cbn [fst snd] in *.
  destruct (invoke_with_regex_step env prompt w2) as (c3 & Hc3 & Hg3 & Hr3).
  destruct (PiiComparison.invoke_with_regex env prompt w2) as [r3 w3].
  cbn [fst snd] in *.
  exists r1, r2, r3, c1, c2, c3.
  split; [reflexivity|]. split; [reflexivity|]. split; [reflexivity|].
  split; [rewrite Hc3, Hc2, Hc1, <- !app_assoc; reflexivity|].
  repeat split; try assumption; try apply Hr1; try apply Hr2; try apply Hr3.
Qed.

Lemma pii_rounds_spec (env : Env) (ps : list string) (acc : PiiComparison.Results)
    (w : World) :
  exists rs1 rs2 rs3 cs,
    let run := for_each ps (PiiComparison.one_round env) acc w in
    PiiComparison.no_protection (fst run)
    = (PiiComparison.no_protection acc ++ rs1)%list /\
    PiiComparison.guardrail (fst run)
    = (PiiComparison.guardrail acc ++ rs2)%list /\
    PiiComparison.regex (fst run)
    = (PiiComparison.regex acc ++ rs3)%list /\
    calls (snd run) = (calls w ++ cs)%list /\
    List.length cs = (3 * List.length ps)%nat /\
    List.length rs1 = List.length ps /\
    List.length rs2 = List.length ps /\
    List.length rs3 = List.length ps /\
    Forall2 (pii_recorded "no_protection" plain_call_failed) rs1
            (filter (made_by "invoke_no_protection") cs) /\
    Forall2 (pii_recorded "guardrail" guardrail_call_failed) rs2
            (filter (made_by "invoke_with_guardrail") cs) /\
    Forall2 (pii_recorded "regex" regex_call_failed) rs3
            (filter (made_by "invoke_with_regex") cs).
Proof.
  revert acc w. induction ps as [|p ps IH]; intros acc w.
  - exists [], [], [], []. cbn. rewrite !app_nil_r. repeat split; constructor.
  - cbn [for_each]. unfold bind.
    destruct (pii_one_round_step env p acc w)
      as (r1 & r2 & r3 & c1 & c2 & c3 & H1 & H2 & H3 & Hc & Hg1 & Hg2 & Hg3
          & Hr1 & Hr2 & Hr3).
    destruct (PiiComparison.one_round env p acc w) as [acc1 w1].
    cbn [fst snd] in H1, H2, H3, Hc.
    destruct (IH acc1 w1)
      as (rs1 & rs2 & rs3 & cs & I1 & I2 & I3 & Ic & Il & Il1 & Il2 & Il3
          & If1 & If2 & If3).
    exists (r1 :: rs1), (r2 :: rs2), (r3 :: rs3), (c1 :: c2 :: c3 :: cs).
    cbv zeta in *.
    rewrite I1, I2, I3, Ic, H1, H2, H3, Hc, <- !app_assoc.
    assert (M : forall who,
               made_by who c1 = String.eqb "invoke_no_protection" who /\
               made_by who c2 = String.eqb "invoke_with_guardrail" who /\
               made_by who c3 = String.eqb "invoke_with_regex" who).
    { intro who. unfold made_by. rewrite Hg1, Hg2, Hg3. auto. }
    cbn [filter List.length app].
    destruct (M "invoke_no_protection") as (-> & -> & ->).
    destruct (M "invoke_with_guardrail") as (-> & -> & ->).
    destruct (M "invoke_with_regex") as (-> & -> & ->).
    cbn.
    repeat split; try reflexivity; try lia; try (constructor; assumption).
Qed.

(** What a run of the PII script records: after the three warm-up calls,
    whose results are dropped, one result per call of the main loop. *)
Lemma pii_run_benchmark_spec (env : Env) (prompts : list string) (iterations : Z)
    (w : World) :
  exists warm cs,
    let run := PiiComparison.run_benchmark env prompts iterations w in
    let n := (List.length prompts * Z.to_nat iterations)%nat in
    calls (snd run) = (calls w ++ warm ++ cs)%list /\
    List.length warm = 3%nat /\
    List.length cs = (3 * n)%nat /\
    List.length (PiiComparison.no_protection (fst run)) = n /\
    List.length (PiiComparison.guardrail (fst run)) = n /\
    List.length (PiiComparison.regex (fst run)) = n /\
    Forall2 (pii_recorded "no_protection" plain_call_failed)
            (PiiComparison.no_protection (fst run))
            (filter (made_by "invoke_no_protection") cs) /\
    Forall2 (pii_recorded "guardrail" guardrail_call_failed)
            (PiiComparison.guardrail (fst run))
            (filter (made_by "invoke_with_guardrail") cs) /\
    Forall2 (pii_recorded "regex" regex_call_failed)
            (PiiComparison.regex (fst run))
            (filter (made_by "invoke_with_regex") cs).
Proof.
  unfold PiiComparison.run_benchmark, bind.
  destruct (invoke_no_protection_step env "Hello" w) as (c1 & Hc1 & _).
  destruct (PiiComparison.invoke_no_protection env "Hello" w) as [r1 w1].
  cbn [fst snd] in Hc1.
  destruct (invoke_with_guardrail_step env "Hello" w1) as (c2 & Hc2 & _).
  destruct (PiiComparison.invoke_with_guardrail env "Hello" w1) as [r2 w2].
  cbn [fst snd] in Hc2.
  destruct (invoke_with_regex_step env "Hello" w2) as (c3 & Hc3 & _).
  destruct (PiiComparison.invoke_with_regex env "Hello" w2) as [r3 w3].
  cbn [fst snd] in Hc3.
  rewrite nested_loops.
  destruct (pii_rounds_spec env
              (flat_map (fun x => repeat x (Z.to_nat iterations)) prompts)
              PiiComparison.no_results w3)
    as (rs1 & rs2 & rs3 & cs & I1 & I2 & I3 & Ic & Il & Il1 & Il2 & Il3
        & If1 & If2 & If3).
  cbv zeta in *. cbn in I1, I2, I3. rewrite rounds_length in *.
  exists [c1; c2; c3], cs.
  rewrite I1, I2, I3, Ic, Hc3, Hc2, Hc1, <- !app_assoc. cbn.
  repeat split; assumption.
Qed.

Lemma pii_run_counts (env : Env) (prompts : list string) (iterations : Z)
    (w : World) :
  (0 <= iterations)%Z ->
  let run := PiiComparison.run_benchmark env prompts iterations w in
  let n := (Z.of_nat (List.length prompts) * iterations)%Z in
  let main := skipn (List.length (calls w) + 3) (calls (snd run)) in
  let by_ := fun who => filter (made_by who) main in
  Z.of_nat (List.length (PiiComparison.no_protection (fst run))) = n /\
  Z.of_nat (List.length (PiiComparison.guardrail (fst run))) = n /\
  Z.of_nat (List.length (PiiComparison.regex (fst run))) = n /\
  Z.of_nat (List.length (calls (snd run)))
  = (Z.of_nat (List.length (calls w)) + 3 + 3 * n)%Z /\
  Z.of_nat (List.length (by_ "invoke_no_protection")) = n /\
  Z.of_nat (List.length (by_ "invoke_with_guardrail")) = n /\
  Z.of_nat (List.length (by_ "invoke_with_regex")) = n /\
  Z.of_nat (count pii_succeeded (PiiComparison.no_protection (fst run)))
  = (n - Z.of_nat (count plain_call_failed (by_ "invoke_no_protection")))%Z /\
  Z.of_nat (count pii_succeeded (PiiComparison.guardrail (fst run)))
  = (n - Z.of_nat (count guardrail_call_failed (by_ "invoke_with_guardrail")))%Z /\
  Z.of_nat (count pii_succeeded (PiiComparison.regex (fst run)))
  = (n - Z.of_nat (count regex_call_failed (by_ "invoke_with_regex")))%Z.
Proof.
  intros Hit run n main by_.
  destruct (pii_run_benchmark_spec env prompts iterations w)
    as (warm & cs & Hc & Hw & Hl & Hl1 & Hl2 & Hl3 & Hf1 & Hf2 & Hf3).
  cbv zeta in *. fold run in Hc, Hl1, Hl2, Hl3, Hf1, Hf2, Hf3.
  assert (Hn : n = Z.of_nat (List.length prompts * Z.to_nat iterations)).
  { subst n. rewrite Nat2Z.inj_mul, Z2Nat.id by assumption. reflexivity. }
  assert (Hmain : main = cs).
  { subst main. rewrite Hc, app_assoc, skipn_app.
    rewrite length_app, Hw, Nat.sub_diag. cbn [skipn].
    rewrite skipn_all2 by (rewrite length_app; lia). reflexivity. }
  subst by_. cbv beta. rewrite Hmain.
  destruct (count_forall2 pii_succeeded plain_call_failed _ _ _
              (fun a b H => proj2 H) Hf1) as [Hk1 Hk1'].
  destruct (count_forall2 pii_succeeded guardrail_call_failed _ _ _
              (fun a b H => proj2 H) Hf2) as [Hk2 Hk2'].
  destruct (count_forall2 pii_succeeded regex_call_failed _ _ _
              (fun a b H => proj2 H) Hf3) as [Hk3 Hk3'].
  rewrite Hc, !length_app, Hw, Hl.
  repeat split; lia.
Qed.

(** C3: for P prompts and I >= 0 iterations each runner records exactly
    P * I results per variant; the calls of the main loop are all made, P * I
    per variant after the warm-up calls, whatever each call does; and the
    number of results without error of a variant is P * I minus the number of
    its calls that failed. *)
Theorem runner_records_every_call (env : Env) (prompts : list string)
    (iterations : Z) (w : World) :
  (0 <= iterations)%Z ->
  let n := (Z.of_nat (List.length prompts) * iterations)%Z in
  (let run := Benchmark.run_benchmark env prompts iterations w in
   let main := skipn (List.length (calls w) + 2) (calls (snd run)) in
   let without := filter (fun c => negb (uses_guardrail c)) main in
   let with_ := filter uses_guardrail main in
   Z.of_nat (List.length (Benchmark.results_without_guardrail (fst run))) = n /\
   Z.of_nat (List.length (Benchmark.results_with_guardrail (fst run))) = n /\
   Z.of_nat (List.length (calls (snd run)))
   = (Z.of_nat (List.length (calls w)) + 2 + 2 * n)%Z /\
   Z.of_nat (List.length without) = n /\
   Z.of_nat (List.length with_) = n /\
   Z.of_nat (count succeeded (Benchmark.results_without_guardrail (fst run)))
   = (n - Z.of_nat (count model_call_failed without))%Z /\
   Z.of_nat (count succeeded (Benchmark.results_with_guardrail (fst run)))
   = (n - Z.of_nat (count model_call_failed with_))%Z) /\
  (let run := PiiComparison.run_benchmark env prompts iterations w in
   let main := skipn (List.length (calls w) + 3) (calls (snd run)) in
   let by_ := fun who => filter (made_by who) main in
   Z.of_nat (List.length (PiiComparison.no_protection (fst run))) = n /\
   Z.of_nat (List.length (PiiComparison.guardrail (fst run))) = n /\
   Z.of_nat (List.length (PiiComparison.regex (fst run))) = n /\
   Z.of_nat (List.length (calls (snd run)))
   = (Z.of_nat (List.length (calls w)) + 3 + 3 * n)%Z /\
   Z.of_nat (List.length (by_ "invoke_no_protection")) = n /\
   Z.of_nat (List.length (by_ "invoke_with_guardrail")) = n /\
   Z.of_nat (List.length (by_ "invoke_with_regex")) = n /\
   Z.of_nat (count pii_succeeded (PiiComparison.no_protection (fst run)))
   = (n - Z.of_nat (count plain_call_failed (by_ "invoke_no_protection")))%Z /\
   Z.of_nat (count pii_succeeded (PiiComparison.guardrail (fst run)))
   = (n - Z.of_nat (count guardrail_call_failed (by_ "invoke_with_guardrail")))%Z /\
   Z.of_nat (count pii_succeeded (PiiComparison.regex (fst run)))
   = (n - Z.of_nat (count regex_call_failed (by_ "invoke_with_regex")))%Z).
Proof.
  intros Hit n. split.
  - apply benchmark_run_counts. assumption.
  - apply pii_run_counts. assumption.
Qed.

(** C3 at a run of two prompts and two iterations in which every third call
    times out. *)
Lemma runner_records_every_call_witness :
  (0 <= 2)%Z /\
  Z.of_nat (List.length (Benchmark.results_with_guardrail
     (fst (Benchmark.run_benchmark env_flaky ["Hello"; pii_example] 2 w0)))) = 4%Z /\
  Z.of_nat (count succeeded (Benchmark.results_with_guardrail
     (fst (Benchmark.run_benchmark env_flaky ["Hello"; pii_example] 2 w0)))) = 2%Z.
Proof.
  assert (H : (0 <= 2)%Z) by lia.
  pose proof (proj1 (runner_records_every_call env_flaky ["Hello"; pii_example] 2 w0 H))
    as (_ & H2 & _ & _ & _ & _ & H7).
  split; [exact H|]. split; [exact H2|].
  etransitivity; [exact H7|]. vm_compute. reflexivity.
Defined.

(** ** The exported document *)

Lemma map_eq_Forall2 {A B} (f : A -> B) (l l' : list A) :
  map f l = map f l' -> Forall2 (fun a b => f a = f b) l l'.
Proof.
  revert l'. induction l as [|a l IH]; intros [|b l'] H; cbn in H;
    try discriminate; constructor.
  - injection H as H _. assumption.
  - injection H as _ H. apply IH. assumption.
Qed.

Lemma Forall2_left {A B} (P : A -> B -> Prop) (Q : A -> Prop) (l : list A)
    (l' : list B) :
  (forall a b, P a b -> Q a) -> Forall2 P l l' -> Forall Q l.
Proof. intros HP H. induction H; constructor; eauto. Qed.

Lemma Forall2_eq {A} (P : A -> A -> Prop) (Q : A -> Prop) (l l' : list A) :
  (forall a b, P a b -> Q a -> Q b -> a = b) ->
  Forall2 P l l' -> Forall Q l -> Forall Q l' -> l = l'.
Proof.
  intros HP H. induction H as [|a b l l' Hab H IH]; intros Hl Hl'.
  - reflexivity.
  - inversion Hl; inversion Hl'; subst. f_equal; auto.
Qed.

Lemma of_error_inj (e e' : option string) :
  Benchmark.of_error e = Benchmark.of_error e' -> e = e'.
Proof. destruct e, e'; cbn; congruence. Qed.

Lemma pii_of_error_inj (e e' : option string) :
  PiiComparison.of_error e = PiiComparison.of_error e' -> e = e'.
Proof. destruct e, e'; cbn; congruence. Qed.

Lemma map_VStr_inj (l l' : list string) : map VStr l = map VStr l' -> l = l'.
Proof.
  revert l'. induction l as [|a l IH]; intros [|b l'] H; cbn in H;
    try discriminate; [reflexivity|].
  injection H as -> H. f_equal. apply IH. assumption.
Qed.

Lemma entry_without_inj (r r' : Benchmark.BenchmarkResult) :
  Benchmark.entry_without r = Benchmark.entry_without r' ->
  Benchmark.with_guardrail r = Benchmark.with_guardrail r' ->
  same_but_blocked r r'.
Proof.
  unfold Benchmark.entry_without, same_but_blocked. intros H Hg.
  injection H as H1 H2 H3 H4 H5. apply of_error_inj in H5. auto 10.
Qed.

Lemma entry_with_inj (r r' : Benchmark.BenchmarkResult) :
  Benchmark.entry_with r = Benchmark.entry_with r' ->
  Benchmark.with_guardrail r = Benchmark.with_guardrail r' ->
  r = r'.
Proof.
  unfold Benchmark.entry_with. intros H Hg.
  injection H as H1 H2 H3 H4 H5 H6. apply of_error_inj in H6.
  destruct r, r'. cbn in *. congruence.
Qed.

Lemma entry_inj (r r' : PiiComparison.BenchmarkResult) :
  PiiComparison.entry r = PiiComparison.entry r' ->
  PiiComparison.method r = PiiComparison.method r' ->
  r = r'.
Proof.
  unfold PiiComparison.entry. intros H Hm.
  injection H as H1 H2 H3 H4 H5 H6 H7.
  apply pii_of_error_inj in H7. apply map_VStr_inj in H5.
  destruct r, r'. cbn in *. congruence.
Qed.

Lemma entries_inj (name : string) (l l' : list PiiComparison.BenchmarkResult) :
  Forall (fun r => PiiComparison.method r = name) l ->
  Forall (fun r => PiiComparison.method r = name) l' ->
  map PiiComparison.entry l = map PiiComparison.entry l' -> l = l'.
Proof.
  intros Hl Hl' H. apply map_eq_Forall2 in H.
  eapply Forall2_eq; [| exact H | exact Hl | exact Hl'].
  cbv beta. intros a b Hab Ha Hb. apply entry_inj; congruence.
Qed.

(** C4, as amended: the document written for a run determines every field
    of every recorded result, but for one: benchmark.py does not write the
    blocked flag of the results without guardrail.  Two runs of benchmark.py
    with the same document have the same results with guardrail, and results
    without guardrail that differ at most in blocked; two runs of the PII
    script with the same document have the same results. *)
Theorem export_keeps_the_exported_fields
    (env env' : Env) (prompts prompts' : list string) (iterations iterations' : Z)
    (w w' : World) :
  (let a := fst (Benchmark.run_benchmark env prompts iterations w) in
   let b := fst (Benchmark.run_benchmark env' prompts' iterations' w') in
   Benchmark.export_results_json a = Benchmark.export_results_json b ->
   Benchmark.results_with_guardrail a = Benchmark.results_with_guardrail b /\
   Forall2 same_but_blocked (Benchmark.results_without_guardrail a)
           (Benchmark.results_without_guardrail b)) /\
  (let a := fst (PiiComparison.run_benchmark env prompts iterations w) in
   let b := fst (PiiComparison.run_benchmark env' prompts' iterations' w') in
   PiiComparison.export_results a = PiiComparison.export_results b -> a = b).
Proof.
  split.
  - intros a b H.
    destruct (run_benchmark_spec env prompts iterations w)
      as (wa & ca & _ & _ & _ & _ & _ & Fa1 & Fa2).
    destruct (run_benchmark_spec env' prompts' iterations' w')
      as (wb & cb & _ & _ & _ & _ & _ & Fb1 & Fb2).
    cbv zeta in *. fold a in Fa1, Fa2. fold b in Fb1, Fb2.
    unfold Benchmark.export_results_json in H.
    injection H as Hwo Hwi.
    apply map_eq_Forall2 in Hwo. apply map_eq_Forall2 in Hwi.
    apply (Forall2_left _ (fun r => Benchmark.with_guardrail r = false) _ _
             (fun x y K => proj1 K)) in Fa1, Fb1.
    apply (Forall2_left _ (fun r => Benchmark.with_guardrail r = true) _ _
             (fun x y K => proj1 K)) in Fa2, Fb2.
    split.
    + eapply Forall2_eq; [| exact Hwi | exact Fa2 | exact Fb2].
      cbv beta. intros x y Hxy Hx Hy. apply entry_with_inj; congruence.
    + clear Hwi Fa2 Fb2. revert Fa1 Fb1.
      induction Hwo as [|x y l l' Hxy Hwo IH]; intros Fa1 Fb1; constructor.
      * inversion Fa1; inversion Fb1; subst.
        apply entry_without_inj; congruence.
      * inversion Fa1; inversion Fb1; subst. apply IH; assumption.
  - intros a b H.
    destruct (pii_run_benchmark_spec env prompts iterations w)
      as (wa & ca & _ & _ & _ & _ & _ & _ & Fa1 & Fa2 & Fa3).
    destruct (pii_run_benchmark_spec env' prompts' iterations' w')
      as (wb & cb & _ & _ & _ & _ & _ & _ & Fb1 & Fb2 & Fb3).
    cbv zeta in *. fold a in Fa1, Fa2, Fa3. fold b in Fb1, Fb2, Fb3.
    unfold PiiComparison.export_results, PiiComparison.items in H. cbn in H.
    injection H as H1 H2 H3.
    apply (Forall2_left _ (fun r => PiiComparison.method r = "no_protection") _ _
             (fun x y K => proj1 K)) in Fa1, Fb1.
    apply (Forall2_left _ (fun r => PiiComparison.method r = "guardrail") _ _
             (fun x y K => proj1 K)) in Fa2, Fb2.
    apply (Forall2_left _ (fun r => PiiComparison.method r = "regex") _ _
             (fun x y K => proj1 K)) in Fa3, Fb3.
    apply (entries_inj _ _ _ Fa1 Fb1) in H1.
    apply (entries_inj _ _ _ Fa2 Fb2) in H2.
    apply (entries_inj _ _ _ Fa3 Fb3) in H3.
    destruct a, b. cbn in *. congruence.
Qed.

(** Counterexample to C4 as stated: two runs whose results without guardrail
    differ in blocked are written as the same document. *)
Lemma export_drops_blocked :
  Benchmark.export_results_json rejected_run
  = Benchmark.export_results_json rejected_guarded_run /\
  map Benchmark.blocked (Benchmark.results_without_guardrail rejected_run)
  = [true] /\
  map Benchmark.blocked (Benchmark.results_without_guardrail rejected_guarded_run)
  = [false].
Proof.
  repeat split; vm_compute; reflexivity.
Qed.

(** The amended C4 at these two runs. *)
Lemma export_keeps_the_exported_fields_witness :
  Benchmark.results_with_guardrail rejected_run
  = Benchmark.results_with_guardrail rejected_guarded_run /\
  Forall2 same_but_blocked (Benchmark.results_without_guardrail rejected_run)
          (Benchmark.results_without_guardrail rejected_guarded_run).
Proof.
  apply (proj1 (export_keeps_the_exported_fields
                  env_rejects env_rejects_guarded ["Hello"] ["Hello"] 1 1 w0 w0)).
  vm_compute. reflexivity.
Defined.

(** ** Prompt labels *)

Lemma take_length (n : nat) (s : string) :
  String.length (Str.take n s) = Nat.min n (String.length s).
Proof.
  revert s. induction n as [|n IH]; intros [|c s]; cbn; try reflexivity.
  rewrite IH. reflexivity.
Qed.

Lemma append_length (s t : string) :
  String.length (s ++ t) = (String.length s + String.length t)%nat.
Proof. induction s as [|c s IH]; cbn; [reflexivity | rewrite IH; reflexivity]. Qed.

Lemma invoke_model_prompt (env : Env) (prompt : string) (g : bool) (w : World) :
  Benchmark.prompt (fst (Benchmark.invoke_model env prompt g w)) = Str.label prompt.
Proof.
  unfold Benchmark.invoke_model, Benchmark.handle, bind, ret, perf_counter,
    client_invoke_model, read_json, sleep; cbn.
  destruct (call_result _) as [e|resp]; cbn.
  - destruct (is_validation e); reflexivity.
  - destruct (read_result resp) as [e|b]; cbn.
    + destruct (is_validation e); reflexivity.
    + destruct (Benchmark.inspect g b) as [l [e|]]; reflexivity.
Qed.

(** The label of a result is the prompt when it has at most fifty
    characters, and otherwise its first fifty characters and an ellipsis,
    fifty-three characters in all. *)
Theorem label_is_truncated_prompt (prompt : string) :
  (String.length (Str.label prompt) <= 53)%nat /\
  ((String.length prompt <= 50)%nat -> Str.label prompt = prompt) /\
  ((50 < String.length prompt)%nat ->
   Str.label prompt = Str.take 50 prompt ++ "..." /\
   String.length (Str.label prompt) = 53%nat) /\
  (forall env g w,
      Benchmark.prompt (fst (Benchmark.invoke_model env prompt g w))
      = Str.label prompt).
Proof.
  split; [|split; [|split]].
  - unfold Str.label. destruct (50 <? String.length prompt)%nat eqn:E.
    + rewrite append_length, take_length. cbn [String.length]. lia.
    + apply Nat.ltb_ge in E. lia.
  - intro H. unfold Str.label.
    destruct (50 <? String.length prompt)%nat eqn:E; [|reflexivity].
    apply Nat.ltb_lt in E. lia.
  - intro H. unfold Str.label.
    destruct (50 <? String.length prompt)%nat eqn:E.
    + split; [reflexivity|].
      rewrite append_length, take_length. cbn [String.length]. lia.
    + apply Nat.ltb_ge in E. lia.
  - intros env g w. apply invoke_model_prompt.
Qed.

Lemma label_is_truncated_prompt_witness :
  Str.label "What is the capital of France?" = "What is the capital of France?".
Proof.
  apply (proj1 (proj2 (label_is_truncated_prompt "What is the capital of France?"))).
  cbn. lia.
Defined.

(** ** Substitution where nothing matches *)

Lemma sub_without_match (r : Re.pattern) (repl : string) (s : string)
    (prev : option ascii) :
  Re.search_from r prev s = false -> Re.sub_from r repl 0 prev s = s.
Proof.
  revert prev. induction s as [|c s IH]; intros prev H; cbn in *.
  - destruct (Re.match_here r prev ""); [discriminate | reflexivity].
  - destruct (Re.match_here r prev (String c s)); [discriminate|].
    rewrite IH by assumption. reflexivity.
Qed.

Lemma found_in_nil (text : string) :
  PiiComparison.found_in text = [] ->
  Re.search PiiComparison.email_pattern text = false /\
  Re.search PiiComparison.phone_pattern text = false /\
  Re.search PiiComparison.ssn_pattern text = false /\
  Re.search PiiComparison.credit_card_pattern text = false.
Proof.
  unfold PiiComparison.found_in, PiiComparison.PII_PATTERNS. cbn [filter snd].
  destruct (Re.search PiiComparison.email_pattern text); [discriminate|].
  destruct (Re.search PiiComparison.phone_pattern text); [discriminate|].
  destruct (Re.search PiiComparison.ssn_pattern text); [discriminate|].
  destruct (Re.search PiiComparison.credit_card_pattern text); [discriminate|].
  auto.
Qed.

(** The prompt [invoke_with_regex] sends is the anonymized prompt in every
    case: when the detector finds nothing, anonymization changes nothing. *)
Theorem processed_prompt_is_anonymized (prompt : string) :
  processed prompt = PiiComparison.anonymize_pii_regex prompt /\
  (PiiComparison.found_in prompt = [] ->
   PiiComparison.anonymize_pii_regex prompt = prompt).
Proof.
  assert (H : PiiComparison.found_in prompt = [] ->
              PiiComparison.anonymize_pii_regex prompt = prompt).
  { intro E. apply found_in_nil in E as (E1 & E2 & E3 & E4).
    unfold PiiComparison.anonymize_pii_regex, Re.sub, Re.search in *.
    rewrite (sub_without_match _ _ _ _ E1), (sub_without_match _ _ _ _ E2),
      (sub_without_match _ _ _ _ E3), (sub_without_match _ _ _ _ E4).
    reflexivity. }
  split; [|exact H].
  unfold processed. destruct (PiiComparison.found_in prompt) eqn:E.
  - symmetry. apply H. reflexivity.
  - reflexivity.
Qed.

Lemma processed_prompt_is_anonymized_witness :
  PiiComparison.anonymize_pii_regex "What is the capital of France?"
  = "What is the capital of France?".
Proof.
  apply (proj2 (processed_prompt_is_anonymized "What is the capital of France?")).
  vm_compute. reflexivity.
Defined.

(** ** The order of the recorded results *)

Lemma invoke_no_protection_prompt (env : Env) (prompt : string) (w : World) :
  PiiComparison.prompt (fst (PiiComparison.invoke_no_protection env prompt w))
  = Str.label prompt.
Proof.
  unfold PiiComparison.invoke_no_protection. step_world.
  destruct (call_result _) as [e|resp]; cbn; [reflexivity|].
  destruct (read_result resp); reflexivity.
Qed.

Lemma invoke_with_guardrail_prompt (env : Env) (prompt : string) (w : World) :
  PiiComparison.prompt (fst (PiiComparison.invoke_with_guardrail env prompt w))
  = Str.label prompt.
Proof.
  unfold PiiComparison.invoke_with_guardrail. step_world.
  destruct (call_result _) as [e|resp]; cbn; [reflexivity|].
  destruct (read_result resp) as [e|b]; cbn; [reflexivity|].
  destruct (Py.get b _ _); reflexivity.
Qed.

Lemma invoke_with_regex_prompt (env : Env) (prompt : string) (w : World) :
  PiiComparison.prompt (fst (PiiComparison.invoke_with_regex env prompt w))
  = Str.label prompt.
Proof.
  unfold PiiComparison.invoke_with_regex. step_world.
  destruct (call_result _) as [e|resp]; cbn; [reflexivity|].
  destruct (read_result resp) as [e|b]; cbn; [reflexivity|].
  destruct (PiiComparison.output_text_of b) as [e|[]]; reflexivity.
Qed.

Lemma one_round_prompts (env : Env) (p : string) (acc : Benchmark.Results)
    (w : World) :
  let run := Benchmark.one_round env p acc w in
  map Benchmark.prompt (Benchmark.results_without_guardrail (fst run))
  = (map Benchmark.prompt (Benchmark.results_without_guardrail acc)
     ++ [Str.label p])%list /\
  map Benchmark.prompt (Benchmark.results_with_guardrail (fst run))
  = (map Benchmark.prompt (Benchmark.results_with_guardrail acc)
     ++ [Str.label p])%list.
Proof.
  unfold Benchmark.one_round, bind, ret.
  pose proof (invoke_model_prompt env p false w) as H1.
  destruct (Benchmark.invoke_model env p false w) as [r1 w1]. cbn [fst] in H1.
  pose proof (invoke_model_prompt env p true w1) as H2.
  destruct (Benchmark.invoke_model env p true w1) as [r2 w2]. cbn [fst] in H2.
  cbn. rewrite !map_app. cbn. rewrite H1, H2. split; reflexivity.
Qed.

Lemma rounds_prompts (env : Env) (ps : list string) (acc : Benchmark.Results)
    (w : World) :
  let run := for_each ps (Benchmark.one_round env) acc w in
  map Benchmark.prompt (Benchmark.results_without_guardrail (fst run))
  = (map Benchmark.prompt (Benchmark.results_without_guardrail acc)
     ++ map Str.label ps)%list /\
  map Benchmark.prompt (Benchmark.results_with_guardrail (fst run))
  = (map Benchmark.prompt (Benchmark.results_with_guardrail acc)
     ++ map Str.label ps)%list.
Proof.
  revert acc w. induction ps as [|p ps IH]; intros acc w; cbn [for_each].
  - cbn. rewrite !app_nil_r. split; reflexivity.
  - unfold bind.
    destruct (one_round_prompts env p acc w) as [H1 H2].
    destruct (Benchmark.one_round env p acc w) as [acc1 w1].
    cbn [fst] in H1, H2.
    destruct (IH acc1 w1) as [I1 I2]. cbv zeta in *.
    rewrite I1, I2, H1, H2, <- !app_assoc. split; reflexivity.
Qed.

Lemma pii_one_round_prompts (env : Env) (p : string)
    (acc : PiiComparison.Results) (w : World) :
  let run := PiiComparison.one_round env p acc w in
  map PiiComparison.prompt (PiiComparison.no_protection (fst run))
  = (map PiiComparison.prompt (PiiComparison.no_protection acc)
     ++ [Str.label p])%list /\
  map PiiComparison.prompt (PiiComparison.guardrail (fst run))
  = (map PiiComparison.prompt (PiiComparison.guardrail acc)
     ++ [Str.label p])%list /\
  map PiiComparison.prompt (PiiComparison.regex (fst run))
  = (map PiiComparison.prompt (PiiComparison.regex acc)
     ++ [Str.label p])%list.
Proof.
  unfold PiiComparison.one_round, bind, ret.
  pose proof (invoke_no_protection_prompt env p w) as H1.
  destruct (PiiComparison.invoke_no_protection env p w) as [r1 w1].
  cbn [fst] in H1.
  pose proof (invoke_with_guardrail_prompt env p w1) as H2.
  destruct (PiiComparison.invoke_with_guardrail env p w1) as [r2 w2].
  cbn [fst] in H2.
  pose proof (invoke_with_regex_prompt env p w2) as H3.
  destruct (PiiComparison.invoke_with_regex env p w2) as [r3 w3].
  cbn [fst] in H3.
  cbn. rewrite !map_app. cbn. rewrite H1, H2, H3. repeat split; reflexivity.
Qed.

Lemma pii_rounds_prompts (env : Env) (ps : list string)
    (acc : PiiComparison.Results) (w : World) :
  let run := for_each ps (PiiComparison.one_round env) acc w in
  map PiiComparison.prompt (PiiComparison.no_protection (fst run))
  = (map PiiComparison.prompt (PiiComparison.no_protection acc)
     ++ map Str.label ps)%list /\
  map PiiComparison.prompt (PiiComparison.guardrail (fst run))
  = (map PiiComparison.prompt (PiiComparison.guardrail acc)
     ++ map Str.label ps)%list /\
  map PiiComparison.prompt (PiiComparison.regex (fst run))
  = (map PiiComparison.prompt (PiiComparison.regex acc)
     ++ map Str.label ps)%list.
Proof.
  revert acc w. induction ps as [|p ps IH]; intros acc w; cbn [for_each].
  - cbn. rewrite !app_nil_r. repeat split; reflexivity.
  - unfold bind.
    destruct (pii_one_round_prompts env p acc w) as (H1 & H2 & H3).
    destruct (PiiComparison.one_round env p acc w) as [acc1 w1].
    cbn [fst] in H1, H2, H3.
    destruct (IH acc1 w1) as (I1 & I2 & I3). cbv zeta in *.
    rewrite I1, I2, I3, H1, H2, H3, <- !app_assoc. repeat split; reflexivity.
Qed.

(** The results of every variant follow the order of the main loop: prompt
    by prompt, each prompt as many times as there are iterations. *)
Theorem results_follow_the_prompts (env : Env) (prompts : list string)
    (iterations : Z) (w : World) :
  let rounds :=
    map Str.label (flat_map (fun p => repeat p (Z.to_nat iterations)) prompts) in
  (let res := fst (Benchmark.run_benchmark env prompts iterations w) in
   map Benchmark.prompt (Benchmark.results_without_guardrail res) = rounds /\
   map Benchmark.prompt (Benchmark.results_with_guardrail res) = rounds) /\
  (let res := fst (PiiComparison.run_benchmark env prompts iterations w) in
   map PiiComparison.prompt (PiiComparison.no_protection res) = rounds /\
   map PiiComparison.prompt (PiiComparison.guardrail res) = rounds /\
   map PiiComparison.prompt (PiiComparison.regex res) = rounds).
Proof.
  intro rounds. split.
  - unfold Benchmark.run_benchmark, bind.
    destruct (Benchmark.invoke_model env "Hello" false w) as [r1 w1].
    destruct (Benchmark.invoke_model env "Hello" true w1) as [r2 w2].
    rewrite nested_loops. apply rounds_prompts.
  - unfold PiiComparison.run_benchmark, bind.
    destruct (PiiComparison.invoke_no_protection env "Hello" w) as [r1 w1].
    destruct (PiiComparison.invoke_with_guardrail env "Hello" w1) as [r2 w2].
    destruct (PiiComparison.invoke_with_regex env "Hello" w2) as [r3 w3].
    rewrite nested_loops. apply pii_rounds_prompts.
Qed.

(** ** When the analysis of benchmark.py raises *)

Lemma of_nat_nonzero (n : nat) : (0 < n)%nat -> ~ (Stats.of_nat n == 0)%Q.
Proof.
  intros Hn H. unfold Stats.of_nat, Qeq, inject_Z in H. cbn in H. lia.
Qed.

Lemma div_zero (a b : Q) : (b == 0)%Q -> Stats.div a b = inl ZeroDivisionError.
Proof.
  intro H. unfold Stats.div. apply Qeq_bool_iff in H. rewrite H. reflexivity.
Qed.

Lemma rows_never_raise (without_gr with_gr : list Benchmark.BenchmarkResult)
    (ps : list string) :
  exists rows, Benchmark.each (Benchmark.row_of without_gr with_gr) ps = inr rows.
Proof.
  destruct (each_total (Benchmark.row_of without_gr with_gr) (fun _ _ => True) ps)
    as (rows & H & _).
  - intro p. destruct (row_of_total without_gr with_gr p) as (row & H & _).
    exists row. auto.
  - exists rows. assumption.
Qed.

Lemma analyze_results_cases (results : Benchmark.Results) :
  let lw := map Benchmark.latency_ms
                (filter Benchmark.no_error
                        (Benchmark.results_without_guardrail results)) in
  let lg := map Benchmark.latency_ms
                (filter Benchmark.no_error
                        (Benchmark.results_with_guardrail results)) in
  (exists rep, Benchmark.analyze_results results = inr rep) \/
  (Benchmark.analyze_results results = inl ZeroDivisionError /\
   lw <> [] /\ lg <> [] /\
   exists m, Stats.mean lw = inr m /\ (m == 0)%Q).
Proof.
  intros lw lg. unfold Benchmark.analyze_results. fold lw lg.
  destruct (describe_never_raises lw) as (sw & Hsw & _).
  destruct (describe_never_raises lg) as (sg & Hsg & _).
  rewrite Hsw, Hsg. cbn [ebind].
  destruct (rows_never_raise (Benchmark.results_without_guardrail results)
              (Benchmark.results_with_guardrail results)
              (Benchmark.prompts_seen (Benchmark.results_without_guardrail results)))
    as (rows & Hrows).
  destruct lw as [|x lw'] eqn:Ew.
  { left. rewrite compare_skipped by auto. cbn [ebind]. rewrite Hrows.
    eexists. reflexivity. }
  destruct lg as [|y lg'] eqn:Eg.
  { left. rewrite compare_skipped by auto. cbn [ebind]. rewrite Hrows.
    eexists. reflexivity. }
  unfold Benchmark.compare, Benchmark.percentage_overhead.
  rewrite (mean_total (x :: lw')), (mean_total (y :: lg')) by discriminate.
  cbn [ebind].
  set (mw := (Stats.sum (x :: lw') / Stats.of_nat (List.length (x :: lw')))%Q).
  set (mg := (Stats.sum (y :: lg') / Stats.of_nat (List.length (y :: lg')))%Q).
  destruct (Qeq_bool mw 0) eqn:E.
  - apply Qeq_bool_iff in E. right. rewrite (div_zero _ mw E). cbn [ebind].
    split; [reflexivity|]. split; [discriminate|]. split; [discriminate|].
    exists mw. split; [reflexivity | assumption].
  - left. rewrite (div_nonzero _ mw).
    2:{ intro H. apply Qeq_bool_iff in H. congruence. }
    cbn [ebind]. rewrite div_nonzero.
    + cbn [ebind]. rewrite Hrows. eexists. reflexivity.
    + apply of_nat_nonzero.
      assert (L : (0 < List.length (filter Benchmark.no_error
                         (Benchmark.results_with_guardrail results)))%nat).
      { destruct (filter Benchmark.no_error
                        (Benchmark.results_with_guardrail results)) as [|r rs];
          [discriminate Eg | cbn [List.length]; lia]. }
      pose proof (filter_length_le Benchmark.no_error
                    (Benchmark.results_with_guardrail results)). lia.
Qed.


(** ** Order between the statistics of one variant *)

Section Ordering.

Open Scope Q_scope.

Lemma min_spec (l : list Q) :
  l <> [] ->
  exists v, Stats.min l = inr v /\ In v l /\ forall x, In x l -> v <= x.
Proof.
  destruct l as [|x l]; [congruence|]. intros _.
  destruct (running_min l x) as (Hin & Hle & Hall).
  eexists. split; [reflexivity|]. split.
  - destruct Hin as [->|Hin]; [left; reflexivity | right; assumption].
  - intros y [<-|Hy]; [assumption | auto].
Qed.

Lemma sum_bounds (l : list Q) (lo hi : Q) :
  (forall x, In x l -> lo <= x <= hi) ->
  Stats.of_nat (List.length l) * lo <= Stats.sum l <= Stats.of_nat (List.length l) * hi.
Proof.
  unfold Stats.of_nat. induction l as [|x l IH]; intro H.
  - cbn. change (inject_Z 0) with 0. lra.
  - cbn [List.length Stats.sum fold_right].
    assert (Hx : lo <= x <= hi) by (apply H; left; reflexivity).
    assert (Hl : forall y, In y l -> lo <= y <= hi) by (intros; apply H; right; assumption).
    specialize (IH Hl). unfold Stats.sum in IH.
    rewrite Nat2Z.inj_succ. unfold Z.succ. rewrite inject_Z_plus.
    change (inject_Z 1) with 1. lra.
Qed.

Lemma of_nat_pos (n : nat) : (0 < n)%nat -> 0 < Stats.of_nat n.
Proof.
  intro H. unfold Stats.of_nat, Qlt, inject_Z. cbn. lia.
Qed.

Lemma mean_bounds (l : list Q) (lo hi m : Q) :
  Stats.mean l = inr m ->
  (forall x, In x l -> lo <= x <= hi) ->
  lo <= m <= hi.
Proof.
  intros Hm H.
  assert (Hne : l <> []) by (intro E; subst; discriminate).
  rewrite (mean_total l Hne) in Hm. injection Hm as <-.
  pose proof (sum_bounds l lo hi H) as [H1 H2].
  assert (Hn : 0 < Stats.of_nat (List.length l)).
  { apply of_nat_pos. destruct l; [congruence | cbn; lia]. }
  split.
  - apply Qle_shift_div_l; [assumption|]. lra.
  - apply Qle_shift_div_r; [assumption|]. lra.
Qed.

Lemma nth_sorted_In (l : list Q) (i : nat) :
  (i < List.length l)%nat -> In (nth i (Stats.sorted l) 0) l.
Proof.
  intro H. eapply Permutation_in; [apply sorted_perm|].
  apply nth_In. rewrite sorted_length. assumption.
Qed.

Lemma sorted_nth_le (s : list Q) (i j : nat) :
  StronglySorted Qle s -> (i <= j < List.length s)%nat ->
  nth i s 0 <= nth j s 0.
Proof.
  intro Hs. revert i j. induction Hs as [|x s Hs IH Hall]; intros i j Hij.
  - cbn in Hij. lia.
  - destruct i as [|i], j as [|j]; cbn in *; try lia.
    + apply Qle_refl.
    + rewrite Forall_forall in Hall. apply Hall, nth_In. lia.
    + apply IH. lia.
Qed.

Lemma median_cases (l : list Q) (m : Q) :
  Stats.median l = inr m ->
  (0 < List.length l)%nat /\
  (m = nth (List.length l / 2) (Stats.sorted l) 0 \/
   m = (nth (List.length l / 2 - 1) (Stats.sorted l) 0
        + nth (List.length l / 2) (Stats.sorted l) 0) / 2).
Proof.
  unfold Stats.median. rewrite sorted_length. intros Hm.
  destruct (List.length l) as [|n] eqn:En; [discriminate|].
  split; [lia|].
  destruct (Nat.odd (S n)); [left | right]; congruence.
Qed.

Lemma median_bounds (l : list Q) (lo hi m : Q) :
  Stats.median l = inr m ->
  (forall x, In x l -> lo <= x <= hi) ->
  lo <= m <= hi.
Proof.
  intros Hm H. apply median_cases in Hm as [Hn Hm].
  set (k := (List.length l / 2)%nat) in *.
  assert (H2 : (k < List.length l)%nat) by (apply Nat.div_lt; lia).
  assert (H1 : (k - 1 < List.length l)%nat) by lia.
  pose proof (H _ (nth_sorted_In l _ H2)) as B2.
  pose proof (H _ (nth_sorted_In l _ H1)) as B1.
  destruct Hm as [->| ->].
  - assumption.
  - split.
    + apply Qle_shift_div_l; lra.
    + apply Qle_shift_div_r; lra.
Qed.

(** The median is at most the item at any index from the middle on. *)
Lemma median_le_nth (l : list Q) (m : Q) (j : nat) :
  Stats.median l = inr m ->
  (List.length l / 2 <= j < List.length l)%nat ->
  m <= nth j (Stats.sorted l) 0.
Proof.
  intros Hm Hj. apply median_cases in Hm as [Hn Hm].
  set (k := (List.length l / 2)%nat) in *.
  pose proof (sorted_sorted l) as Hs.
  assert (A : nth k (Stats.sorted l) 0 <= nth j (Stats.sorted l) 0).
  { apply sorted_nth_le; [assumption|]. rewrite sorted_length. lia. }
  assert (B : nth (k - 1) (Stats.sorted l) 0 <= nth k (Stats.sorted l) 0).
  { apply sorted_nth_le; [assumption|]. rewrite sorted_length. lia. }
  destruct Hm as [->| ->].
  - assumption.
  - apply Qle_shift_div_r; lra.
Qed.

Lemma index_nth (l : list Q) (i : Z) (v : Q) :
  (0 <= i)%Z -> Stats.index l i = inr v ->
  v = nth (Z.to_nat i) l 0 /\ (Z.to_nat i < List.length l)%nat.
Proof.
  intros Hi. unfold Stats.index.
  destruct (i <? 0)%Z eqn:E; [apply Z.ltb_lt in E; lia|]. rewrite E.
  destruct (nth_error l (Z.to_nat i)) as [x|] eqn:En; [|discriminate].
  intro H. injection H as <-. split.
  - symmetry. apply nth_error_nth. assumption.
  - apply nth_error_Some. congruence.
Qed.

(** The P95 is one of the samples and is not below the median. *)
Lemma p95_ge_median (l : list Q) (m v : Q) :
  Stats.median l = inr m -> Stats.p95 l = inr v -> In v l /\ m <= v.
Proof.
  intros Hm Hv.
  assert (Hne : l <> []).
  { intro E. subst. discriminate. }
  unfold Stats.p95 in Hv.
  destruct (20 <=? List.length l)%nat eqn:E.
  - apply Nat.leb_le in E.
    pose proof (p95_index_in_range (List.length l) ltac:(lia)) as [I0 I1].
    apply index_nth in Hv as [-> Hlt]; [|assumption].
    rewrite sorted_length in Hlt. split.
    + apply nth_sorted_In. assumption.
    + apply median_le_nth; [assumption|]. split; [|assumption].
      rewrite p95_index_floor.
      apply Nat2Z.inj_le. rewrite Z2Nat.id by (apply Z.div_pos; lia).
      rewrite Nat2Z.inj_div. change (Z.of_nat 2) with 2%Z.
      apply Z.div_le_lower_bound; [lia|].
      pose proof (Z.mul_div_le (Z.of_nat (List.length l)) 2 ltac:(lia)). lia.
  - destruct (max_spec l Hne) as (hi & Hhi & Hin & Hall).
    rewrite Hhi in Hv. injection Hv as <-. split; [assumption|].
    assert (B : forall x, In x l -> x <= x <= hi)
      by (intros x Hx; split; [apply Qle_refl | auto]).
    destruct (min_spec l Hne) as (lo & _ & _ & Hlo).
    apply (median_bounds l lo hi m Hm). intros x Hx. split; auto.
Qed.

Lemma square_nonneg (a : Q) : 0 <= a * a.
Proof.
  destruct (Qlt_le_dec a 0).
  - setoid_replace (a * a) with ((- a) * (- a)) by ring.
    apply Qmult_le_0_compat; lra.
  - apply Qmult_le_0_compat; assumption.
Qed.

Lemma sum_squares_nonneg (l : list Q) (m : Q) :
  0 <= Stats.sum (map (fun x => (x - m) * (x - m)) l).
Proof.
  unfold Stats.sum. induction l as [|x l IH]; cbn [map fold_right].
  - apply Qle_refl.
  - pose proof (square_nonneg (x - m)) as H. lra.
Qed.

Lemma variance_eq (l : list Q) :
  (1 < List.length l)%nat ->
  Stats.variance l
  = inr (Stats.sum (map (fun x => (x - Stats.sum l / Stats.of_nat (List.length l))
                                  * (x - Stats.sum l / Stats.of_nat (List.length l))) l)
         / Stats.of_nat (List.length l - 1)).
Proof.
  destruct l as [|a [|b l]]; cbn [List.length]; try lia. reflexivity.
Qed.

Lemma variance_nonneg (l : list Q) (v : Q) :
  Stats.variance l = inr v -> 0 <= v.
Proof.
  intro H.
  assert (Hn : (1 < List.length l)%nat).
  { destruct l as [|a [|b l]]; try discriminate. cbn. lia. }
  rewrite (variance_eq l Hn) in H.
  assert (E : v = Stats.sum (map (fun x => (x - Stats.sum l / Stats.of_nat (List.length l))
                                  * (x - Stats.sum l / Stats.of_nat (List.length l))) l)
         / Stats.of_nat (List.length l - 1)) by congruence.
  rewrite E. apply Qle_shift_div_l.
  - apply of_nat_pos. lia.
  - rewrite Qmult_0_l. apply sum_squares_nonneg.
Qed.

End Ordering.

Lemma describe_inv (l : list Q) (st : Benchmark.latency_stats) :
  Benchmark.describe l = inr (Some st) ->
  l <> [] /\
  Stats.mean l = inr (Benchmark.s_mean st) /\
  Stats.median l = inr (Benchmark.s_median st) /\
  Stats.min l = inr (Benchmark.s_min st) /\
  Stats.max l = inr (Benchmark.s_max st) /\
  Stats.p95 l = inr (Benchmark.s_p95 st) /\
  (forall v, Benchmark.s_variance st = Some v -> Stats.variance l = inr v) /\
  (Benchmark.s_variance st = None -> List.length l = 1%nat).
Proof.
  unfold Benchmark.describe. destruct l as [|x l']; [discriminate|].
  set (l := x :: l'). intro H.
  ebind_inv H as mean Hmean. ebind_inv H as median Hmedian.
  ebind_inv H as var Hvar. ebind_inv H as lo Hlo. ebind_inv H as hi Hhi.
  ebind_inv H as p Hp.
  assert (E : st = {| Benchmark.s_mean := mean; Benchmark.s_median := median;
                      Benchmark.s_variance := var; Benchmark.s_min := lo;
                      Benchmark.s_max := hi; Benchmark.s_p95 := p |}) by congruence.
  subst st. cbn [Benchmark.s_mean Benchmark.s_median Benchmark.s_variance
                   Benchmark.s_min Benchmark.s_max Benchmark.s_p95].
  split; [discriminate|]. repeat (split; [assumption|]).
  destruct (1 <? List.length l)%nat eqn:E1.
  - ebind_inv Hvar as v Hv. split.
    + intros v' Hv'. congruence.
    + intro Hn. congruence.
  - apply Nat.ltb_ge in E1. split.
    + intros v' Hv'. congruence.
    + intros _. subst l. cbn [List.length] in *. lia.
Qed.

(** The statistics of a variant in benchmark.py are consistent: the minimum,
    the maximum and the P95 are samples; every sample lies between minimum
    and maximum, and so do the mean and the median; the P95 is not below the
    median; the variance behind the standard deviation is not negative, and
    it is left out exactly for a single sample. *)
Theorem statistics_are_ordered (l : list Q) (st : Benchmark.latency_stats) :
  Benchmark.describe l = inr (Some st) ->
  In (Benchmark.s_min st) l /\ In (Benchmark.s_max st) l /\
  In (Benchmark.s_p95 st) l /\
  (forall x, In x l -> Benchmark.s_min st <= x <= Benchmark.s_max st)%Q /\
  (Benchmark.s_min st <= Benchmark.s_mean st <= Benchmark.s_max st)%Q /\
  (Benchmark.s_min st <= Benchmark.s_median st)%Q /\
  (Benchmark.s_median st <= Benchmark.s_p95 st)%Q /\
  (Benchmark.s_p95 st <= Benchmark.s_max st)%Q /\
  (forall v, Benchmark.s_variance st = Some v -> 0 <= v)%Q /\
  (Benchmark.s_variance st = None <-> List.length l = 1%nat).
Proof.
  intro H.
  apply describe_inv in H as (Hne & Hmean & Hmed & Hlo & Hhi & Hp & Hvar & Hnone).
  destruct (min_spec l Hne) as (lo & Elo & Ilo & Alo).
  destruct (max_spec l Hne) as (hi & Ehi & Ihi & Ahi).
  assert (lo = Benchmark.s_min st) by congruence.
  assert (hi = Benchmark.s_max st) by congruence. subst lo hi.
  assert (B : forall x, In x l ->
                (Benchmark.s_min st <= x <= Benchmark.s_max st)%Q)
    by (intros x Hx; split; auto).
  destruct (p95_ge_median l _ _ Hmed Hp) as [Ip Mp].
  split; [assumption|]. split; [assumption|]. split; [assumption|].
  split; [assumption|].
  split; [apply (mean_bounds l _ _ _ Hmean B)|].
  split; [apply (median_bounds l _ _ _ Hmed B)|].
  split; [assumption|].
  split; [apply B; assumption|].
  split.
  - intros v Hv. apply (variance_nonneg l). apply Hvar. assumption.
  - split; [assumption|]. intro Hn.
    destruct (Benchmark.s_variance st) as [v|] eqn:Ev; [|reflexivity].
    specialize (Hvar v eq_refl).
    destruct l as [|a [|b l']]; cbn in Hn; try lia. discriminate.
Qed.

Lemma statistics_are_ordered_witness :
  exists st, Benchmark.describe samples_5 = inr (Some st) /\
             (Benchmark.s_median st <= Benchmark.s_p95 st)%Q.
Proof.
  assert (Hne : samples_5 <> []) by (vm_compute; discriminate).
  destruct (describe_total samples_5 Hne) as (st & H & _).
  exists st. split; [exact H|].
  destruct (statistics_are_ordered samples_5 st H) as (_ & _ & _ & _ & _ & _ & Hm & _).
  exact Hm.
Defined.

(** One block of the summary of the PII script is consistent: it is shown
    only for a variant with a successful result; it counts all requests and
    the successful ones; the blocked count is shown exactly when it is not
    zero and never exceeds the requests; minimum and maximum are samples and
    bracket the mean and the median; the variance is not negative. *)
Theorem summary_block_is_consistent
    (data : list PiiComparison.BenchmarkResult) (s : PiiComparison.method_summary) :
  PiiComparison.summarize data = inr (Some s) ->
  let l := map PiiComparison.total_ms (filter PiiComparison.no_error data) in
  PiiComparison.requests s = List.length data /\
  PiiComparison.successful s = List.length l /\
  (0 < PiiComparison.successful s <= PiiComparison.requests s)%nat /\
  (PiiComparison.blocked_shown s = None <-> count PiiComparison.blocked data = 0%nat) /\
  (forall b, PiiComparison.blocked_shown s = Some b ->
             b = count PiiComparison.blocked data /\
             (0 < b <= PiiComparison.requests s)%nat) /\
  In (PiiComparison.s_min s) l /\ In (PiiComparison.s_max s) l /\
  (PiiComparison.s_min s <= PiiComparison.s_mean s <= PiiComparison.s_max s)%Q /\
  (PiiComparison.s_min s <= PiiComparison.s_median s <= PiiComparison.s_max s)%Q /\
  (forall v, PiiComparison.s_variance s = Some v -> 0 <= v)%Q.
Proof.
  intro H. cbv zeta. unfold PiiComparison.summarize in H. cbv zeta in H.
  set (l := map PiiComparison.total_ms (filter PiiComparison.no_error data)) in *.
  destruct l as [|x l'] eqn:El; [discriminate|]. rewrite <- El in *.
  assert (Hne : l <> []) by (rewrite El; discriminate).
  ebind_inv H as mean Hmean. ebind_inv H as median Hmedian.
  ebind_inv H as lo Hlo. ebind_inv H as hi Hhi. ebind_inv H as var Hvar.
  assert (E : s = {| PiiComparison.requests := List.length data;
                     PiiComparison.successful := List.length l;
                     PiiComparison.blocked_shown :=
                       match count PiiComparison.blocked data with
                       | O => None
                       | _ => Some (count PiiComparison.blocked data)
                       end;
                     PiiComparison.s_mean := mean;
                     PiiComparison.s_median := median;
                     PiiComparison.s_min := lo; PiiComparison.s_max := hi;
                     PiiComparison.s_variance := var |}) by congruence.
  subst s. cbn [PiiComparison.requests PiiComparison.successful
                  PiiComparison.blocked_shown PiiComparison.s_mean
                  PiiComparison.s_median PiiComparison.s_min PiiComparison.s_max
                  PiiComparison.s_variance].
  destruct (min_spec l Hne) as (lo' & Elo & Ilo & Alo).
  destruct (max_spec l Hne) as (hi' & Ehi & Ihi & Ahi).
  assert (lo' = lo) by congruence. assert (hi' = hi) by congruence. subst lo' hi'.
  assert (B : forall y, In y l -> (lo <= y <= hi)%Q) by (intros y Hy; split; auto).
  assert (Ll : (0 < List.length l <= List.length data)%nat).
  { split.
    - destruct l; [congruence | cbn; lia].
    - unfold l. rewrite length_map. apply filter_length_le. }
  assert (Lb : (count PiiComparison.blocked data <= List.length data)%nat)
    by apply filter_length_le.
  split; [reflexivity|]. split; [reflexivity|]. split; [assumption|].
  split.
  { destruct (count PiiComparison.blocked data); split; congruence. }
  split.
  { intros b Hb. destruct (count PiiComparison.blocked data) as [|n] eqn:En;
      [discriminate|]. injection Hb as <-. split; [reflexivity | lia]. }
  split; [assumption|]. split; [assumption|].
  split; [apply (mean_bounds l _ _ _ Hmean B)|].
  split; [apply (median_bounds l _ _ _ Hmedian B)|].
  intros v Hv. subst var.
  destruct (1 <? List.length l)%nat; [|discriminate].
  ebind_inv Hvar as v' Hv'. apply (variance_nonneg l).
  congruence.
Qed.

(** ** The report of benchmark.py *)

Lemma analyze_results_inv (results : Benchmark.Results) (rep : Benchmark.report) :
  Benchmark.analyze_results results = inr rep ->
  let without_gr := Benchmark.results_without_guardrail results in
  let with_gr := Benchmark.results_with_guardrail results in
  let lw := map Benchmark.latency_ms (filter Benchmark.no_error without_gr) in
  let lg := map Benchmark.latency_ms (filter Benchmark.no_error with_gr) in
  Benchmark.describe lw = inr (Benchmark.stats_without rep) /\
  Benchmark.describe lg = inr (Benchmark.stats_with rep) /\
  Benchmark.compare lw lg (count Benchmark.blocked with_gr) (List.length with_gr)
  = inr (Benchmark.analysis rep) /\
  Benchmark.each (Benchmark.row_of without_gr with_gr)
                 (Benchmark.prompts_seen without_gr)
  = inr (Benchmark.table rep) /\
  Benchmark.total_without rep = List.length without_gr /\
  Benchmark.successful_without rep = List.length lw /\
  Benchmark.total_with rep = List.length with_gr /\
  Benchmark.successful_with rep = List.length lg /\
  Benchmark.blocked_count rep = count Benchmark.blocked with_gr.
Proof.
  unfold Benchmark.analyze_results. intro H. cbv zeta in *.
  ebind_inv H as s1 Hs1. ebind_inv H as s2 Hs2.
  ebind_inv H as an Han. ebind_inv H as tb Htb.
  injection H as <-. cbn. repeat split; assumption.
Qed.

Lemma describe_none (l : list Q) :
  Benchmark.describe l = inr None -> l = [].
Proof.
  intro H. destruct l as [|x l]; [reflexivity|].
  destruct (describe_total (x :: l)) as (st & Hst & _); [discriminate|].
  congruence.
Qed.

Lemma compare_inv (lw lg : list Q) (b n : nat) (a : Benchmark.overhead_analysis) :
  Benchmark.compare lw lg b n = inr (Some a) ->
  exists mw mg,
    Stats.mean lw = inr mw /\ Stats.mean lg = inr mg /\
    ~ (mw == 0)%Q /\ (0 < n)%nat /\
    Benchmark.overhead a = (mg - mw)%Q /\
    Benchmark.overhead_pct a = ((mg - mw) / mw * 100)%Q /\
    Benchmark.blocked_pct a = (100 * Stats.of_nat b / Stats.of_nat n)%Q.
Proof.
  unfold Benchmark.compare. destruct lw as [|x lw]; [discriminate|].
  destruct lg as [|y lg]; [discriminate|]. intro H.
  ebind_inv H as mw Hmw. ebind_inv H as mg Hmg. ebind_inv H as pct Hpct.
  ebind_inv H as rate Hrate.
  unfold Benchmark.percentage_overhead in Hpct. ebind_inv Hpct as q Hq.
  apply div_inr in Hq as [Hz ->]. apply div_inr in Hrate as [Hn ->].
  exists mw, mg. split; [assumption|]. split; [assumption|].
  split; [assumption|]. split.
  - destruct n; [|lia]. exfalso. apply Hn. reflexivity.
  - assert (E : a = {| Benchmark.overhead := (mg - mw)%Q;
                       Benchmark.overhead_pct := pct;
                       Benchmark.blocked_pct :=
                         (100 * Stats.of_nat b / Stats.of_nat n)%Q |})
      by congruence.
    subst a. cbn. repeat split. congruence.
Qed.

Lemma count_le_length {A} (f : A -> bool) (l : list A) :
  (count f l <= List.length l)%nat.
Proof. apply filter_length_le. Qed.

Lemma of_nat_le (a b : nat) : (a <= b)%nat -> (Stats.of_nat a <= Stats.of_nat b)%Q.
Proof.
  intro H. unfold Stats.of_nat. rewrite <- Zle_Qle. lia.
Qed.

(** The numbers of a report of benchmark.py fit together: the successful
    requests of a variant are among its requests and the blocked ones among
    the requests with guardrail; the statistics of a variant are left out
    exactly when it has no successful request, the overhead analysis exactly
    when one of the two has none; the overhead is the difference of the two
    means shown, and the blocked rate lies between 0 and 100. *)
Theorem report_is_consistent (results : Benchmark.Results) (rep : Benchmark.report) :
  Benchmark.analyze_results results = inr rep ->
  (Benchmark.successful_without rep <= Benchmark.total_without rep)%nat /\
  (Benchmark.successful_with rep <= Benchmark.total_with rep)%nat /\
  (Benchmark.blocked_count rep <= Benchmark.total_with rep)%nat /\
  (Benchmark.stats_without rep = None <-> Benchmark.successful_without rep = 0%nat) /\
  (Benchmark.stats_with rep = None <-> Benchmark.successful_with rep = 0%nat) /\
  (Benchmark.analysis rep = None <->
   Benchmark.successful_without rep = 0%nat \/ Benchmark.successful_with rep = 0%nat) /\
  (forall a, Benchmark.analysis rep = Some a ->
     exists sw sg,
       Benchmark.stats_without rep = Some sw /\
       Benchmark.stats_with rep = Some sg /\
       Benchmark.overhead a = (Benchmark.s_mean sg - Benchmark.s_mean sw)%Q /\
       (0 <= Benchmark.blocked_pct a <= 100)%Q).
Proof.
  intro H. apply analyze_results_inv in H. cbv zeta in H.
  set (lw := map Benchmark.latency_ms
               (filter Benchmark.no_error
                       (Benchmark.results_without_guardrail results))) in *.
  set (lg := map Benchmark.latency_ms
               (filter Benchmark.no_error
                       (Benchmark.results_with_guardrail results))) in *.
  destruct H as (Hsw & Hsg & Hcmp & Htb & -> & -> & -> & -> & ->).
  assert (Lw : (List.length lw
                <= List.length (Benchmark.results_without_guardrail results))%nat)
    by (unfold lw; rewrite length_map; apply filter_length_le).
  assert (Lg : (List.length lg
                <= List.length (Benchmark.results_with_guardrail results))%nat)
    by (unfold lg; rewrite length_map; apply filter_length_le).
  assert (Nw : Benchmark.stats_without rep = None <-> List.length lw = 0%nat).
  { split.
    - intro E. rewrite E in Hsw. apply describe_none in Hsw. rewrite Hsw. reflexivity.
    - intro E. apply length_zero_iff_nil in E. rewrite E in Hsw. cbn in Hsw. congruence. }
  assert (Ng : Benchmark.stats_with rep = None <-> List.length lg = 0%nat).
  { split.
    - intro E. rewrite E in Hsg. apply describe_none in Hsg. rewrite Hsg. reflexivity.
    - intro E. apply length_zero_iff_nil in E. rewrite E in Hsg. cbn in Hsg. congruence. }
  split; [assumption|]. split; [assumption|].
  split; [apply count_le_length|]. split; [assumption|]. split; [assumption|].
  split.
  - split.
    + intro E. rewrite E in Hcmp. unfold Benchmark.compare in Hcmp.
      destruct lw as [|x lw']; [left; reflexivity|].
      destruct lg as [|y lg']; [right; reflexivity|].
      exfalso. ebind_inv Hcmp as a1 H1. ebind_inv Hcmp as a2 H2.
      ebind_inv Hcmp as a3 H3. ebind_inv Hcmp as a4 H4. discriminate.
    + intros [E|E]; apply length_zero_iff_nil in E;
        rewrite compare_skipped in Hcmp by auto; congruence.
  - intros a Ha. rewrite Ha in Hcmp.
    apply compare_inv in Hcmp as (mw & mg & Hmw & Hmg & Hz & Hn & Ho & _ & Hb).
    assert (Hlw : lw <> []) by (intro E; rewrite E in Hmw; discriminate).
    assert (Hlg : lg <> []) by (intro E; rewrite E in Hmg; discriminate).
    destruct (describe_total lw Hlw) as (sw & Dw & _ & Mw).
    destruct (describe_total lg Hlg) as (sg & Dg & _ & Mg).
    exists sw, sg. split; [congruence|]. split; [congruence|].
    split; [congruence|].
    rewrite Hb.
    pose proof (of_nat_pos _ Hn) as Pn.
    pose proof (of_nat_le _ _ (count_le_length Benchmark.blocked
                  (Benchmark.results_with_guardrail results))) as Pb.
    pose proof (of_nat_le 0 _ (Nat.le_0_l (count Benchmark.blocked
                  (Benchmark.results_with_guardrail results)))) as P0.
    change (Stats.of_nat 0) with 0%Q in P0.
    split.
    + apply Qle_shift_div_l; [assumption|]. lra.
    + apply Qle_shift_div_r; [assumption|]. lra.
Qed.

(** ** The per-prompt table *)

Lemma filter_filter {A} (f g : A -> bool) (l : list A) :
  filter f (filter g l) = filter (fun x => g x && f x) l.
Proof.
  induction l as [|x l IH]; cbn; [reflexivity|].
  destruct (g x); cbn; [destruct (f x)|]; rewrite IH; reflexivity.
Qed.

Lemma seen_accumulates (rs : list Benchmark.BenchmarkResult) (seen : list string) :
  fold_left
    (fun seen r =>
       if existsb (String.eqb (Benchmark.prompt r)) seen then seen
       else (seen ++ [Benchmark.prompt r])%list)
    rs seen
  = (seen ++ filter (unseen seen) (first_seen (map Benchmark.prompt rs)))%list.
Proof.
  revert seen. induction rs as [|r rs IH]; intro seen; cbn [fold_left map first_seen].
  - cbn. rewrite app_nil_r. reflexivity.
  - set (x := Benchmark.prompt r). cbn [filter].
    assert (Ux : unseen seen x = negb (existsb (String.eqb x) seen)) by reflexivity.
    destruct (existsb (String.eqb x) seen) eqn:E.
    + rewrite IH, Ux. cbn [negb]. f_equal. rewrite filter_filter.
      apply filter_ext_in. intros y _. unfold unseen.
      destruct (String.eqb x y) eqn:Exy; [|reflexivity].
      apply String.eqb_eq in Exy. subst y. rewrite E. reflexivity.
    + rewrite IH, Ux. cbn [negb]. rewrite <- app_assoc. cbn [app]. f_equal. f_equal.
      rewrite filter_filter. apply filter_ext. intro y. unfold unseen.
      rewrite existsb_app. cbn [existsb]. rewrite orb_false_r, negb_orb.
      rewrite (String.eqb_sym y x). apply andb_comm.
Qed.

(** "Group by prompt" lists the labels in the order of first occurrence. *)
Lemma prompts_seen_first_seen (rs : list Benchmark.BenchmarkResult) :
  Benchmark.prompts_seen rs = first_seen (map Benchmark.prompt rs).
Proof.
  unfold Benchmark.prompts_seen. rewrite seen_accumulates. cbn [app].
  rewrite <- (filter_ext (fun _ => true)) by reflexivity.
  induction (first_seen (map Benchmark.prompt rs)) as [|y l IH]; cbn; congruence.
Qed.

Lemma first_seen_In (l : list string) (x : string) :
  In x (first_seen l) <-> In x l.
Proof.
  induction l as [|y l IH]; cbn; [tauto|].
  rewrite filter_In, IH. split.
  - intros [H|[H _]]; auto.
  - intros [H|H]; [auto|].
    destruct (String.eqb y x) eqn:E.
    + apply String.eqb_eq in E. auto.
    + right. auto.
Qed.

Lemma first_seen_NoDup (l : list string) : NoDup (first_seen l).
Proof.
  induction l as [|y l IH]; cbn; constructor.
  - rewrite filter_In. intros [_ H]. rewrite String.eqb_refl in H. discriminate.
  - apply NoDup_filter. assumption.
Qed.

Lemma each_Forall2 {A B} (f : A -> py_error + B) (l : list A) (ys : list B) :
  Benchmark.each f l = inr ys -> Forall2 (fun x y => f x = inr y) l ys.
Proof.
  revert ys. induction l as [|x l IH]; intros ys H; cbn in H.
  - injection H as <-. constructor.
  - ebind_inv H as y Hy. ebind_inv H as ys' Hys. injection H as <-.
    constructor; [assumption | apply IH; assumption].
Qed.

Lemma row_of_inv (without_gr with_gr : list Benchmark.BenchmarkResult)
    (p : string) (row : Benchmark.table_row) :
  Benchmark.row_of without_gr with_gr p = inr row ->
  Benchmark.row_prompt row = p /\
  Benchmark.mean_or_zero (Benchmark.times_of without_gr p)
  = inr (Benchmark.avg_without row) /\
  Benchmark.mean_or_zero (Benchmark.times_of with_gr p)
  = inr (Benchmark.avg_with row) /\
  Benchmark.was_blocked row
  = existsb Benchmark.blocked
            (filter (fun r => String.eqb (Benchmark.prompt r) p) with_gr).
Proof.
  unfold Benchmark.row_of. intro H.
  ebind_inv H as a Ha. ebind_inv H as b Hb. injection H as <-. cbn. auto.
Qed.

(** The per-prompt table has one row for each label of the results without
    guardrail, in the order in which the labels first occur; a row is marked
    blocked exactly when some result with guardrail of that label is, and an
    average is the mean of the error-free latencies of the label. *)
Theorem table_has_one_row_per_label
    (results : Benchmark.Results) (rep : Benchmark.report) :
  Benchmark.analyze_results results = inr rep ->
  let without_gr := Benchmark.results_without_guardrail results in
  let with_gr := Benchmark.results_with_guardrail results in
  let labels := map Benchmark.row_prompt (Benchmark.table rep) in
  labels = first_seen (map Benchmark.prompt without_gr) /\
  NoDup labels /\
  (forall p, In p labels <-> exists r, In r without_gr /\ Benchmark.prompt r = p) /\
  (forall row, In row (Benchmark.table rep) ->
     (Benchmark.was_blocked row = true <->
      exists r, In r with_gr /\ Benchmark.prompt r = Benchmark.row_prompt row /\
                Benchmark.blocked r = true) /\
     Benchmark.mean_or_zero (Benchmark.times_of without_gr (Benchmark.row_prompt row))
     = inr (Benchmark.avg_without row) /\
     Benchmark.mean_or_zero (Benchmark.times_of with_gr (Benchmark.row_prompt row))
     = inr (Benchmark.avg_with row)).
Proof.
  intro H. apply analyze_results_inv in H. cbv zeta in *.
  destruct H as (_ & _ & _ & Htb & _).
  apply each_Forall2 in Htb. rewrite prompts_seen_first_seen in Htb.
  set (ps := first_seen (map Benchmark.prompt
                             (Benchmark.results_without_guardrail results))) in *.
  assert (L : map Benchmark.row_prompt (Benchmark.table rep) = ps).
  { induction Htb as [|p row l rows Hrow _ IH]; cbn; [reflexivity|].
    apply row_of_inv in Hrow as [-> _]. rewrite IH. reflexivity. }
  split; [assumption|]. rewrite L.
  split; [apply first_seen_NoDup|]. split.
  - intro p. unfold ps. rewrite first_seen_In, in_map_iff.
    split; intros (r & A & B); exists r; auto.
  - intros row Hrow.
    assert (R : exists p, Benchmark.row_of
                            (Benchmark.results_without_guardrail results)
                            (Benchmark.results_with_guardrail results) p = inr row).
    { clear L. induction Htb as [|p row' l rows Hr _ IH]; [destruct Hrow|].
      destruct Hrow as [<-|Hin]; [exists p; assumption | auto]. }
    destruct R as (p & Hp). apply row_of_inv in Hp as (Ep & Ha & Hb & Hw).
    rewrite Ep. split; [|split; assumption].
    rewrite Hw, existsb_exists. split.
    + intros (r & Hr & Hbl). apply filter_In in Hr as [Hr Hpr].
      apply String.eqb_eq in Hpr. exists r. auto.
    + intros (r & Hr & Hpr & Hbl). exists r. split; [|assumption].
      apply filter_In. split; [assumption|]. apply String.eqb_eq. assumption.
Qed.

Lemma first_seen_repeat_app (x : string) (n : nat) (rest : list string) :
  first_seen (repeat x (S n) ++ rest)
  = x :: filter (fun y => negb (String.eqb x y)) (first_seen rest).
Proof.
  induction n as [|n IH].
  - reflexivity.
  - change (repeat x (S (S n)) ++ rest)%list
      with (x :: (repeat x (S n) ++ rest))%list.
    cbn [first_seen]. rewrite IH. cbn [filter].
    rewrite String.eqb_refl. cbn [negb]. rewrite filter_filter.
    f_equal. apply filter_ext. intro y. apply andb_diag.
Qed.

Lemma first_seen_rounds (ps : list string) (n : nat) :
  first_seen (flat_map (fun p => repeat p (S n)) ps) = first_seen ps.
Proof.
  induction ps as [|p ps IH]; [reflexivity|].
  cbn [flat_map]. rewrite first_seen_repeat_app, IH. reflexivity.
Qed.

Lemma map_rounds {A B} (f : A -> B) (ps : list A) (n : nat) :
  map f (flat_map (fun p => repeat p n) ps)
  = flat_map (fun q => repeat q n) (map f ps).
Proof.
  induction ps as [|p ps IH]; [reflexivity|].
  cbn [flat_map map]. rewrite map_app, IH, map_repeat. reflexivity.
Qed.

Lemma benchmark_run_prompts (env : Env) (prompts : list string) (iterations : Z)
    (w : World) :
  let res := fst (Benchmark.run_benchmark env prompts iterations w) in
  let rounds :=
    map Str.label (flat_map (fun p => repeat p (Z.to_nat iterations)) prompts) in
  map Benchmark.prompt (Benchmark.results_without_guardrail res) = rounds /\
  map Benchmark.prompt (Benchmark.results_with_guardrail res) = rounds.
Proof.
  unfold Benchmark.run_benchmark, bind.
  destruct (Benchmark.invoke_model env "Hello" false w) as [r1 w1].
  destruct (Benchmark.invoke_model env "Hello" true w1) as [r2 w2].
  rewrite nested_loops. apply rounds_prompts.
Qed.

(** In the report of a run with at least one iteration the per-prompt table
    has one row per distinct prompt label, in the order of the prompts:
    prompts with the same label, such as long prompts that agree on their
    first fifty characters, share a row. *)
Theorem table_of_a_run (env : Env) (prompts : list string) (iterations : Z)
    (w : World) (rep : Benchmark.report) :
  (0 < iterations)%Z ->
  Benchmark.analyze_results (fst (Benchmark.run_benchmark env prompts iterations w))
  = inr rep ->
  map Benchmark.row_prompt (Benchmark.table rep)
  = first_seen (map Str.label prompts) /\
  (List.length (Benchmark.table rep) <= List.length prompts)%nat.
Proof.
  intros Hit H. apply analyze_results_inv in H. cbv zeta in H.
  destruct H as (_ & _ & _ & Htb & _).
  apply each_Forall2 in Htb. rewrite prompts_seen_first_seen in Htb.
  destruct (benchmark_run_prompts env prompts iterations w) as [Hp _].
  cbv zeta in Hp. rewrite Hp in Htb.
  destruct (Z.to_nat iterations) as [|n] eqn:En; [lia|].
  rewrite map_rounds, first_seen_rounds in Htb.
  assert (L : map Benchmark.row_prompt (Benchmark.table rep)
              = first_seen (map Str.label prompts)).
  { induction Htb as [|p row l rows Hrow _ IH]; cbn; [reflexivity|].
    apply row_of_inv in Hrow as [-> _]. rewrite IH. reflexivity. }
  split; [assumption|].
  rewrite <- (length_map Benchmark.row_prompt), L.
  rewrite <- (length_map Str.label prompts).
  apply NoDup_incl_length; [apply first_seen_NoDup|].
  intros x Hx. apply first_seen_In. assumption.
Qed.

(** ** The report of the PII script *)

Lemma filter_nil_existsb {A} (f : A -> bool) (l : list A) :
  filter f l = [] <-> existsb f l = false.
Proof.
  induction l as [|x l IH]; cbn; [tauto|].
  destruct (f x); cbn; [split; discriminate | exact IH].
Qed.

Lemma summarize_some_iff (data : list PiiComparison.BenchmarkResult)
    (b : option PiiComparison.method_summary) :
  PiiComparison.summarize data = inr b ->
  existsb PiiComparison.no_error data
  = match b with Some _ => true | None => false end.
Proof.
  intro Hb.
  destruct (summarize_never_raises data) as (b' & Hb' & Hnone).
  assert (b' = b) by congruence. subst b'.
  destruct b as [block|].
  - destruct (existsb PiiComparison.no_error data) eqn:Ex; [reflexivity|].
    apply filter_nil_existsb in Ex.
    assert (N : Some block = None); [|discriminate].
    apply Hnone. rewrite Ex. reflexivity.
  - apply filter_nil_existsb.
    pose proof (proj2 Hnone eq_refl) as K.
    destruct (filter PiiComparison.no_error data); [reflexivity | discriminate K].
Qed.

Lemma summaries_cons (name : string) (data : list PiiComparison.BenchmarkResult)
    (l : list (string * list PiiComparison.BenchmarkResult)) :
  PiiComparison.summaries ((name, data) :: l)
  = (s <- PiiComparison.summarize data ;;
     rest <- PiiComparison.summaries l ;;
     inr match s with
         | Some block => (name, block) :: rest
         | None => rest
         end)%E.
Proof. reflexivity. Qed.

Lemma summaries_spec (l : list (string * list PiiComparison.BenchmarkResult))
    (s : list (string * PiiComparison.method_summary)) :
  PiiComparison.summaries l = inr s ->
  map fst s
  = map fst (filter (fun kv => existsb PiiComparison.no_error (snd kv)) l) /\
  (forall name block, In (name, block) s ->
     exists data, In (name, data) l /\
                  PiiComparison.summarize data = inr (Some block)).
Proof.
  revert s. induction l as [|[name data] l IH]; intros s H.
  - cbn in H. injection H as <-. split; [reflexivity|]. intros ? ? [].
  - rewrite summaries_cons in H.
    ebind_inv H as b Hb. ebind_inv H as rest Hrest.
    destruct (IH rest Hrest) as [I1 I2].
    cbn [filter snd]. rewrite (summarize_some_iff _ _ Hb).
    injection H as <-. destruct b as [block|].
    + cbn [map fst]. rewrite I1. split; [reflexivity|].
      intros n' b' [K|K].
      * injection K as <- <-. exists data. split; [left; reflexivity | assumption].
      * destruct (I2 n' b' K) as (d & Hd & Hs). exists d. split; [right|]; assumption.
    + split; [assumption|]. intros n' b' K.
      destruct (I2 n' b' K) as (d & Hd & Hs). exists d. split; [right|]; assumption.
Qed.

Lemma pii_compare_inv (a b c : list Q) (cmp : PiiComparison.overhead_comparison) :
  PiiComparison.compare a b c = inr (Some cmp) ->
  exists base gr rx,
    Stats.mean a = inr base /\ Stats.mean b = inr gr /\ Stats.mean c = inr rx /\
    a <> [] /\ b <> [] /\ c <> [] /\ ~ (base == 0)%Q /\
    PiiComparison.baseline cmp = base /\
    PiiComparison.guardrail_overhead cmp = (gr - base)%Q /\
    PiiComparison.regex_overhead cmp = (rx - base)%Q /\
    PiiComparison.guardrail_overhead_pct cmp = ((gr / base - 1) * 100)%Q /\
    PiiComparison.regex_overhead_pct cmp = ((rx / base - 1) * 100)%Q /\
    PiiComparison.guardrail_vs_regex cmp = (gr - rx)%Q.
Proof.
  intro H. unfold PiiComparison.compare in H.
  destruct a as [|x a]; [discriminate|].
  destruct b as [|y b]; [discriminate|].
  destruct c as [|z c]; [discriminate|].
  ebind_inv H as base Hbase. ebind_inv H as gr Hgr. ebind_inv H as rx Hrx.
  ebind_inv H as gp Hgp. ebind_inv H as rp Hrp.
  unfold PiiComparison.percentage_overhead in Hgp, Hrp.
  ebind_inv Hgp as q1 Hq1. ebind_inv Hrp as q2 Hq2.
  apply div_inr in Hq1 as [Hz ->]. apply div_inr in Hq2 as [_ ->].
  exists base, gr, rx.
  assert (E : cmp = {| PiiComparison.baseline := base;
                       PiiComparison.guardrail_overhead := (gr - base)%Q;
                       PiiComparison.guardrail_overhead_pct := gp;
                       PiiComparison.regex_overhead := (rx - base)%Q;
                       PiiComparison.regex_overhead_pct := rp;
                       PiiComparison.guardrail_vs_regex := (gr - rx)%Q |})
    by congruence.
  subst cmp. cbn.
  repeat (split; [first [assumption | discriminate | reflexivity | congruence]|]).
  reflexivity.
Qed.

Lemma summaries_complete (l : list (string * list PiiComparison.BenchmarkResult))
    (s : list (string * PiiComparison.method_summary)) :
  PiiComparison.summaries l = inr s ->
  forall name data block,
    In (name, data) l -> PiiComparison.summarize data = inr (Some block) ->
    In (name, block) s.
Proof.
  revert s. induction l as [|[n d] l IH]; intros s H name data block Hin Hs.
  - destruct Hin.
  - rewrite summaries_cons in H.
    ebind_inv H as b Hb. ebind_inv H as rest Hrest.
    injection H as <-. destruct Hin as [E|Hin].
    + injection E as -> ->. rewrite Hs in Hb. injection Hb as <-.
      left. reflexivity.
    + specialize (IH rest Hrest name data block Hin Hs).
      destruct b; [right|]; assumption.
Qed.

Lemma summarize_mean (data : list PiiComparison.BenchmarkResult)
    (s : PiiComparison.method_summary) :
  PiiComparison.summarize data = inr (Some s) ->
  Stats.mean (map PiiComparison.total_ms (filter PiiComparison.no_error data))
  = inr (PiiComparison.s_mean s).
Proof.
  intro H. unfold PiiComparison.summarize in H. cbv zeta in H.
  set (l := map PiiComparison.total_ms (filter PiiComparison.no_error data)) in *.
  destruct l as [|x l'] eqn:El; [discriminate|]. rewrite <- El in *.
  ebind_inv H as mean Hmean. ebind_inv H as median Hmedian.
  ebind_inv H as lo Hlo. ebind_inv H as hi Hhi. ebind_inv H as var Hvar.
  assert (E : PiiComparison.s_mean s = mean).
  { injection H as <-. reflexivity. }
  rewrite E. exact Hmean.
Qed.

Lemma summarize_some (data : list PiiComparison.BenchmarkResult) :
  map PiiComparison.total_ms (filter PiiComparison.no_error data) <> [] ->
  exists block, PiiComparison.summarize data = inr (Some block).
Proof.
  intro Hne. destruct (summarize_never_raises data) as ([block|] & Hb & Hnone).
  - exists block. assumption.
  - destruct Hne. apply Hnone. reflexivity.
Qed.

Lemma successes_nil_iff (data : list PiiComparison.BenchmarkResult) :
  map PiiComparison.total_ms (filter PiiComparison.no_error data) = []
  <-> existsb PiiComparison.no_error data = false.
Proof.
  rewrite <- filter_nil_existsb.
  destruct (filter PiiComparison.no_error data); cbn; split; congruence.
Qed.

(** The report of the PII script fits together: the summary has one block
    for each variant with a successful request, in the order no_protection,
    guardrail, regex, and each block is the summary of that variant's
    results; the overhead comparison is left out exactly when some variant
    has no successful request; its baseline is the mean shown for
    no_protection, its two overheads are the differences of the means shown
    for guardrail and regex to that baseline, and the last line is the
    difference of the two overheads; the timing of the local check is left
    out exactly when the regex variant has no successful request. *)
Theorem pii_report_is_consistent
    (results : PiiComparison.Results) (rep : PiiComparison.report) :
  PiiComparison.analyze_results results = inr rep ->
  map fst (PiiComparison.summary rep)
  = map fst (filter (fun kv => existsb PiiComparison.no_error (snd kv))
                    (PiiComparison.items results)) /\
  (forall name block,
      In (name, block) (PiiComparison.summary rep) ->
      exists data, In (name, data) (PiiComparison.items results) /\
                   PiiComparison.summarize data = inr (Some block)) /\
  (PiiComparison.comparison rep = None <->
   existsb PiiComparison.no_error (PiiComparison.no_protection results) = false \/
   existsb PiiComparison.no_error (PiiComparison.guardrail results) = false \/
   existsb PiiComparison.no_error (PiiComparison.regex results) = false) /\
  (forall c, PiiComparison.comparison rep = Some c ->
     exists bn bg br,
       In ("no_protection", bn) (PiiComparison.summary rep) /\
       In ("guardrail", bg) (PiiComparison.summary rep) /\
       In ("regex", br) (PiiComparison.summary rep) /\
       PiiComparison.baseline c = PiiComparison.s_mean bn /\
       ~ (PiiComparison.baseline c == 0)%Q /\
       PiiComparison.guardrail_overhead c
       = (PiiComparison.s_mean bg - PiiComparison.s_mean bn)%Q /\
       PiiComparison.regex_overhead c
       = (PiiComparison.s_mean br - PiiComparison.s_mean bn)%Q /\
       (PiiComparison.guardrail_vs_regex c
        == PiiComparison.guardrail_overhead c - PiiComparison.regex_overhead c)%Q) /\
  (PiiComparison.avg_pii_check rep = None <->
   existsb PiiComparison.no_error (PiiComparison.regex results) = false).
Proof.
  intro H. unfold PiiComparison.analyze_results in H. cbv zeta in H.
  ebind_inv H as sm Hsm. ebind_inv H as cmp Hcmp. ebind_inv H as avg Havg.
  injection H as <-.
  cbn [PiiComparison.summary PiiComparison.comparison PiiComparison.avg_pii_check].
  destruct (summaries_spec _ _ Hsm) as [S1 S2].
  split; [exact S1|]. split; [exact S2|]. split; [|split].
  - split.
    + intro E. subst cmp. unfold PiiComparison.compare in Hcmp.
      rewrite <- !successes_nil_iff.
      destruct (map PiiComparison.total_ms
                    (filter PiiComparison.no_error (PiiComparison.no_protection results)))
        as [|x a]; [left; reflexivity|].
      destruct (map PiiComparison.total_ms
                    (filter PiiComparison.no_error (PiiComparison.guardrail results)))
        as [|y b]; [right; left; reflexivity|].
      destruct (map PiiComparison.total_ms
                    (filter PiiComparison.no_error (PiiComparison.regex results)))
        as [|z c]; [right; right; reflexivity|].
      exfalso. ebind_inv Hcmp as a1 H1. ebind_inv Hcmp as a2 H2.
      ebind_inv Hcmp as a3 H3. ebind_inv Hcmp as a4 H4. ebind_inv Hcmp as a5 H5.
      discriminate.
    + rewrite <- !successes_nil_iff. intro E.
      rewrite pii_compare_skipped in Hcmp by exact E. congruence.
  - intros c Hc. subst cmp.
    apply pii_compare_inv in Hcmp
      as (base & gr & rx & Hb & Hg & Hr & Na & Nb & Nc & Hz & E1 & E2 & E3 & _ & _ & E6).
    destruct (summarize_some _ Na) as (bn & Hbn).
    destruct (summarize_some _ Nb) as (bg & Hbg).
    destruct (summarize_some _ Nc) as (br & Hbr).
    pose proof (summarize_mean _ _ Hbn) as Mn.
    pose proof (summarize_mean _ _ Hbg) as Mg.
    pose proof (summarize_mean _ _ Hbr) as Mr.
    assert (Eb : base = PiiComparison.s_mean bn) by congruence.
    assert (Eg : gr = PiiComparison.s_mean bg) by congruence.
    assert (Er : rx = PiiComparison.s_mean br) by congruence.
    exists bn, bg, br.
    split; [apply (summaries_complete _ _ Hsm _ (PiiComparison.no_protection results));
            [left; reflexivity | assumption]|].
    split; [apply (summaries_complete _ _ Hsm _ (PiiComparison.guardrail results));
            [right; left; reflexivity | assumption]|].
    split; [apply (summaries_complete _ _ Hsm _ (PiiComparison.regex results));
            [right; right; left; reflexivity | assumption]|].
    split; [congruence|]. split; [rewrite E1; assumption|].
    split; [congruence|]. split; [congruence|].
    rewrite E6, E2, E3. ring.
  - unfold PiiComparison.pii_check_timing in Havg.
    rewrite <- filter_nil_existsb.
    destruct (filter PiiComparison.no_error (PiiComparison.regex results)) as [|r rs].
    + injection Havg as <-. split; reflexivity.
    + ebind_inv Havg as a Ha. injection Havg as <-. split; discriminate.
Qed.

(** ** What the detector reports is in the text *)

Lemma append_assoc (a b c : string) : (a ++ b) ++ c = a ++ (b ++ c).
Proof. induction a as [|x a IH]; cbn; [reflexivity | rewrite IH; reflexivity]. Qed.

Lemma rep_sound {R} (cs : Re.cset) (s : string) :
  forall (lo : nat) (hi : option nat) (prev : option ascii) (k : Re.cont R) (x : R),
    Re.rep cs lo hi prev s k = Some x ->
    exists m s' p', s = m ++ s' /\ accepts (Re.RRep cs lo hi) m /\ k p' s' = Some x.
Proof.
  induction s as [|c s IH]; intros lo hi prev k x H.
  - cbn in H. destruct lo; [|discriminate].
    exists EmptyString, EmptyString, prev. split; [reflexivity|]. split; [|assumption].
    constructor; cbn; [intros ? [] | lia | intros; lia].
  - cbn [Re.rep] in H.
    assert (Stop : match lo with O => k prev (String c s) | S _ => None end = Some x ->
                   exists m s' p', String c s = m ++ s' /\
                                   accepts (Re.RRep cs lo hi) m /\ k p' s' = Some x).
    { intro Hs. destruct lo; [|discriminate].
      exists EmptyString, (String c s), prev. split; [reflexivity|].
      split; [|assumption]. constructor; cbn; [intros ? [] | lia | intros; lia]. }
    destruct (Re.in_cset c cs && Re.may_take hi) eqn:E; [|auto].
    apply andb_true_iff in E as [Ec Et].
    destruct (Re.rep cs (Nat.pred lo) (option_map Nat.pred hi) (Some c) s k)
      as [r|] eqn:Er; [|auto].
    injection H as ->.
    destruct (IH _ _ _ _ _ Er) as (m & s' & p' & -> & Hm & Hk).
    exists (String c m), s', p'. split; [reflexivity|]. split; [|assumption].
    inversion Hm; subst. constructor; cbn.
    + intros c' [<-|Hc]; auto.
    + lia.
    + intros h ->. destruct h as [|h]; [discriminate Et|].
      specialize (H5 h eq_refl). lia.
Qed.

Lemma run_sound {R} (r : Re.pattern) :
  forall (prev : option ascii) (s : string) (k : Re.cont R) (x : R),
    Re.run r prev s k = Some x ->
    exists m s' p', s = m ++ s' /\ accepts r m /\ k p' s' = Some x.
Proof.
  induction r as [cs|cs lo hi|r1 IH1 r2 IH2|r IH|]; intros prev s k x H; cbn in H.
  - destruct s as [|c s]; [discriminate|].
    destruct (Re.in_cset c cs) eqn:E; [|discriminate].
    exists (String c EmptyString), s, (Some c). split; [reflexivity|].
    split; [constructor|]; assumption.
  - apply rep_sound in H. exact H.
  - apply IH1 in H as (m1 & s1 & p1 & -> & A1 & H).
    apply IH2 in H as (m2 & s2 & p2 & -> & A2 & H).
    exists (m1 ++ m2), s2, p2. split; [symmetry; apply append_assoc|].
    split; [constructor|]; assumption.
  - destruct (Re.run r prev s k) as [y|] eqn:E.
    + injection H as ->. apply IH in E as (m & s' & p' & -> & A & Hk).
      exists m, s', p'. split; [reflexivity|]. split; [constructor|]; assumption.
    + exists EmptyString, s, prev. split; [reflexivity|].
      split; [apply accepts_opt_none | assumption].
  - destruct (xorb _ _); [|discriminate].
    exists EmptyString, s, prev. split; [reflexivity|].
    split; [constructor | assumption].
Qed.

Lemma search_from_sound (r : Re.pattern) (s : string) :
  forall prev, Re.search_from r prev s = true ->
    exists pre m post, s = pre ++ m ++ post /\ accepts r m.
Proof.
  induction s as [|c s IH]; intros prev H; cbn [Re.search_from] in H.
  - destruct (Re.match_here r prev EmptyString) as [rest|] eqn:E; [|discriminate].
    unfold Re.match_here in E. apply run_sound in E as (m & s' & p' & Hs & A & _).
    exists EmptyString, m, s'. split; [exact Hs | exact A].
  - destruct (Re.match_here r prev (String c s)) as [rest|] eqn:E.
    + unfold Re.match_here in E. apply run_sound in E as (m & s' & p' & Hs & A & _).
      exists EmptyString, m, s'. split; [exact Hs | exact A].
    + apply IH in H as (pre & m & post & -> & A).
      exists (String c pre), m, post. split; [reflexivity | exact A].
Qed.

Lemma count_digits_app (a b : string) :
  count_digits (a ++ b) = (count_digits a + count_digits b)%nat.
Proof. induction a as [|c a IH]; cbn; [reflexivity | rewrite IH; lia]. Qed.

Lemma digits_only_sound (cs : Re.cset) (c : ascii) :
  digits_only cs = true -> Re.in_cset c cs = true -> Re.is_digit c = true.
Proof.
  unfold digits_only, Re.in_cset. induction cs as [|i cs IH]; cbn; [discriminate|].
  intros Hd Hc. apply andb_true_iff in Hd as [Hi Hd].
  apply orb_true_iff in Hc as [Hc|Hc]; [|auto].
  destruct i; try discriminate. exact Hc.
Qed.

Lemma all_digits_count (m : string) :
  (forall c, In c (list_ascii_of_string m) -> Re.is_digit c = true) ->
  count_digits m = String.length m.
Proof.
  induction m as [|c m IH]; cbn; [reflexivity|]. intro H.
  rewrite (H c) by (left; reflexivity). rewrite IH by (intros; apply H; right; assumption).
  reflexivity.
Qed.

Lemma accepts_min_digits (r : Re.pattern) (m : string) :
  accepts r m -> (min_digits r <= count_digits m)%nat.
Proof.
  induction 1; cbn; try lia.
  - destruct (digits_only cs) eqn:E; [|lia].
    rewrite all_digits_count; [assumption|].
    intros c Hc. apply (digits_only_sound cs); auto.
  - rewrite count_digits_app. lia.
Qed.

Lemma search_min_digits (r : Re.pattern) (text : string) :
  Re.search r text = true -> (min_digits r <= count_digits text)%nat.
Proof.
  intro H. apply search_from_sound in H as (pre & m & post & -> & A).
  apply accepts_min_digits in A. rewrite !count_digits_app. lia.
Qed.

Lemma found_in_spec (text : string) :
  PiiComparison.found_in text
  = ((if Re.search PiiComparison.email_pattern text then ["email"] else [])
     ++ (if Re.search PiiComparison.phone_pattern text then ["phone"] else [])
     ++ (if Re.search PiiComparison.ssn_pattern text then ["ssn"] else [])
     ++ (if Re.search PiiComparison.credit_card_pattern text then ["credit_card"]
         else []))%list.
Proof.
  unfold PiiComparison.found_in, PiiComparison.PII_PATTERNS. cbn [filter snd].
  destruct (Re.search PiiComparison.email_pattern text),
           (Re.search PiiComparison.phone_pattern text),
           (Re.search PiiComparison.ssn_pattern text),
           (Re.search PiiComparison.credit_card_pattern text); reflexivity.
Qed.

Lemma accepts_rep_inv (cs : Re.cset) (lo : nat) (hi : option nat) (m : string) :
  accepts (Re.RRep cs lo hi) m ->
  all_chars (fun c => Re.in_cset c cs) m = true /\ (lo <= String.length m)%nat.
Proof.
  intro H. inversion H; subst. split; [|assumption].
  unfold all_chars. apply forallb_forall. assumption.
Qed.

Lemma accepts_lit_inv (c : ascii) (m : string) :
  accepts (Re.lit c) m -> m = String c EmptyString.
Proof.
  intro H. inversion H; subst. unfold Re.in_cset in H1. cbn in H1.
  rewrite orb_false_r in H1. apply Ascii.eqb_eq in H1. subst. reflexivity.
Qed.

Lemma all_chars_ext (f g : ascii -> bool) (s : string) :
  (forall c, f c = true -> g c = true) ->
  all_chars f s = true -> all_chars g s = true.
Proof.
  unfold all_chars. intros Hfg H. rewrite forallb_forall in *. auto.
Qed.

Ltac split_atoms c :=
  repeat match goal with
         | |- context [Str.between ?a ?b c] => destruct (Str.between a b c)
         | |- context [Ascii.eqb c ?x] => destruct (Ascii.eqb c x)
         | |- context [Re.is_space c] => destruct (Re.is_space c)
         end.

Lemma email_local_class (c : ascii) :
  Re.in_cset c (PiiComparison.alnum
                ++ [Re.CChar "."; Re.CChar "_"; Re.CChar "%"; Re.CChar "+";
                    Re.CChar "-"])%list = true ->
  (is_letter c || Re.is_digit c || one_of "._%+-" c) = true.
Proof.
  unfold Re.in_cset, PiiComparison.alnum, is_letter, one_of, Re.is_digit.
  cbn. split_atoms c; cbn; intro H; congruence.
Qed.

Lemma email_domain_class (c : ascii) :
  Re.in_cset c (PiiComparison.alnum ++ [Re.CChar "."; Re.CChar "-"])%list = true ->
  (is_letter c || Re.is_digit c || one_of ".-" c) = true.
Proof.
  unfold Re.in_cset, PiiComparison.alnum, is_letter, one_of, Re.is_digit.
  cbn. split_atoms c; cbn; intro H; congruence.
Qed.

Lemma email_tld_class (c : ascii) :
  Re.in_cset c [Re.CRange "a" "z"; Re.CRange "A" "Z"] = true -> is_letter c = true.
Proof.
  unfold Re.in_cset, is_letter. cbn. split_atoms c; cbn; intro H; congruence.
Qed.

Lemma accepts_email (m : string) :
  accepts PiiComparison.email_pattern m ->
  exists local domain tld,
    m = local ++ "@" ++ domain ++ "." ++ tld /\
    local <> "" /\ domain <> "" /\ (2 <= String.length tld)%nat /\
    all_chars (fun c => is_letter c || Re.is_digit c || one_of "._%+-" c) local = true /\
    all_chars (fun c => is_letter c || Re.is_digit c || one_of ".-" c) domain = true /\
    all_chars is_letter tld = true.
Proof.
  unfold PiiComparison.email_pattern. cbn [Re.seq]. intro H.
  inversion H as [| |? ? local m2 A1 H2| | |]; subst. clear H.
  inversion H2 as [| |? ? at_ m3 A2 H3| | |]; subst. clear H2.
  inversion H3 as [| |? ? domain m4 A3 H4| | |]; subst. clear H3.
  inversion H4 as [| |? ? dot tld A4 A5| | |]; subst. clear H4.
  apply accepts_lit_inv in A2, A4. subst.
  apply accepts_rep_inv in A1 as [C1 L1], A3 as [C3 L3], A5 as [C5 L5].
  exists local, domain, tld. split; [reflexivity|].
  split; [intros ->; cbn in L1; lia|].
  split; [intros ->; cbn in L3; lia|].
  split; [assumption|].
  split; [eapply all_chars_ext; [|exact C1]; apply email_local_class|].
  split; [eapply all_chars_ext; [|exact C3]; apply email_domain_class|].
  eapply all_chars_ext; [|exact C5]. apply email_tld_class.
Qed.

(** The detector reports a category only for a text that holds what the
    category is about.  An email is reported only when the text contains
    local@domain.tld: a local part and a domain that are not empty and made
    of letters, digits and the punctuation of the pattern, and a top-level
    domain of two letters or more.  A phone number is reported only for a
    text with ten digits or more, a social security number only with nine,
    a credit card only with sixteen.  The categories come in the order
    email, phone, ssn, credit_card, each at most once. *)
Theorem detector_reports_only_what_the_text_holds (text : string) :
  (In "email" (PiiComparison.found_in text) ->
   exists pre local domain tld post,
     text = pre ++ local ++ "@" ++ domain ++ "." ++ tld ++ post /\
     local <> "" /\ domain <> "" /\ (2 <= String.length tld)%nat /\
     all_chars (fun c => is_letter c || Re.is_digit c || one_of "._%+-" c) local
     = true /\
     all_chars (fun c => is_letter c || Re.is_digit c || one_of ".-" c) domain
     = true /\
     all_chars is_letter tld = true) /\
  (In "phone" (PiiComparison.found_in text) -> (10 <= count_digits text)%nat) /\
  (In "ssn" (PiiComparison.found_in text) -> (9 <= count_digits text)%nat) /\
  (In "credit_card" (PiiComparison.found_in text) -> (16 <= count_digits text)%nat) /\
  (exists e p s c : bool,
     PiiComparison.found_in text
     = ((if e then ["email"] else []) ++ (if p then ["phone"] else [])
        ++ (if s then ["ssn"] else []) ++ (if c then ["credit_card"] else []))%list).
Proof.
  rewrite found_in_spec.
  split; [|split; [|split; [|split]]].
  - destruct (Re.search PiiComparison.email_pattern text) eqn:E.
    + intros _. apply search_from_sound in E as (pre & m & post & -> & A).
      apply accepts_email in A as (local & domain & tld & -> & H).
      exists pre, local, domain, tld, post. split; [|exact H].
      rewrite !append_assoc. reflexivity.
    + destruct (Re.search PiiComparison.phone_pattern text),
               (Re.search PiiComparison.ssn_pattern text),
               (Re.search PiiComparison.credit_card_pattern text); cbn;
        intro H; intuition discriminate.
  - destruct (Re.search PiiComparison.phone_pattern text) eqn:E.
    + intros _. apply (search_min_digits PiiComparison.phone_pattern). exact E.
    + destruct (Re.search PiiComparison.email_pattern text),
               (Re.search PiiComparison.ssn_pattern text),
               (Re.search PiiComparison.credit_card_pattern text); cbn;
        intro H; intuition discriminate.
  - destruct (Re.search PiiComparison.ssn_pattern text) eqn:E.
    + intros _. apply (search_min_digits PiiComparison.ssn_pattern). exact E.
    + destruct (Re.search PiiComparison.email_pattern text),
               (Re.search PiiComparison.phone_pattern text),
               (Re.search PiiComparison.credit_card_pattern text); cbn;
        intro H; intuition discriminate.
  - destruct (Re.search PiiComparison.credit_card_pattern text) eqn:E.
    + intros _. apply (search_min_digits PiiComparison.credit_card_pattern). exact E.
    + destruct (Re.search PiiComparison.email_pattern text),
               (Re.search PiiComparison.phone_pattern text),
               (Re.search PiiComparison.ssn_pattern text); cbn;
        intro H; intuition discriminate.
  - eexists _, _, _, _. reflexivity.
Qed.

(** ** Failures without a text *)

(** A call that fails with an exception whose text is empty is recorded with
    the error [""], which [not r.error] takes for no error: the result is not
    a success, yet the analysis of either script counts it as successful and
    averages its latency. *)
Theorem failure_without_text_counts_as_successful
    (env : Env) (prompt : string) (w : World) (e : exn) :
  exn_str env e = "" ->
  (forall use_guardrail,
      raised_by (next_call env w (Benchmark.api_params_of prompt use_guardrail))
      = Some e ->
      let r := fst (Benchmark.invoke_model env prompt use_guardrail w) in
      Benchmark.error r = Some "" /\ succeeded r = false /\
      Benchmark.no_error r = true) /\
  (raised_by (next_call env w (PiiComparison.plain_params prompt)) = Some e ->
   let r := fst (PiiComparison.invoke_no_protection env prompt w) in
   PiiComparison.error r = Some "" /\ PiiComparison.no_error r = true) /\
  (raised_by (next_call env w (PiiComparison.guardrail_params prompt)) = Some e ->
   let r := fst (PiiComparison.invoke_with_guardrail env prompt w) in
   PiiComparison.error r = Some "" /\ PiiComparison.no_error r = true) /\
  (raised_by (next_call env w (PiiComparison.plain_params (processed prompt)))
   = Some e ->
   let r := fst (PiiComparison.invoke_with_regex env prompt w) in
   PiiComparison.error r = Some "" /\ PiiComparison.no_error r = true).
Proof.
  intro Htext.
  split; [|split; [|split]].
  - intros g Hr. unfold next_call in Hr.
    unfold Benchmark.invoke_model, Benchmark.handle, succeeded, Benchmark.no_error.
    step_world.
    apply raised_by_inv in Hr as [Hc | (resp & Hc & Hb)]; rewrite Hc; cbn.
    + destruct (is_validation e); cbn; rewrite Htext; repeat split; reflexivity.
    + rewrite Hb; cbn.
      destruct (is_validation e); cbn; rewrite Htext; repeat split; reflexivity.
  - intros Hr. unfold next_call in Hr.
    unfold PiiComparison.invoke_no_protection, PiiComparison.no_error. step_world.
    apply raised_by_inv in Hr as [Hc | (resp & Hc & Hb)]; rewrite Hc; cbn.
    + rewrite Htext. split; reflexivity.
    + rewrite Hb; cbn. rewrite Htext. split; reflexivity.
  - intros Hr. unfold next_call in Hr.
    unfold PiiComparison.invoke_with_guardrail, PiiComparison.no_error. step_world.
    apply raised_by_inv in Hr as [Hc | (resp & Hc & Hb)]; rewrite Hc; cbn.
    + rewrite Htext. split; reflexivity.
    + rewrite Hb; cbn. rewrite Htext. split; reflexivity.
  - intros Hr. unfold next_call, processed in Hr.
    unfold PiiComparison.invoke_with_regex, PiiComparison.no_error. step_world.
    apply raised_by_inv in Hr as [Hc | (resp & Hc & Hb)]; rewrite Hc; cbn.
    + rewrite Htext. split; reflexivity.
    + rewrite Hb; cbn. rewrite Htext. split; reflexivity.
Qed.

Lemma failure_without_text_counts_as_successful_witness :
  let r := fst (Benchmark.invoke_model env_silent "Hello" true w0) in
  Benchmark.error r = Some "" /\ succeeded r = false /\ Benchmark.no_error r = true.
Proof.
  exact (proj1 (failure_without_text_counts_as_successful
                  env_silent "Hello" w0 (Raised false "") eq_refl) true eq_refl).
Defined.

(** ** Evidence for the blocked flag *)

Lemma eq_str_inv (v : value) (s : string) : Py.eq_str v s = true -> v = VStr s.
Proof.
  unfold Py.eq_str, Py.is_str. destruct v; try discriminate.
  intro H. apply String.eqb_eq in H. subst. reflexivity.
Qed.

Lemma inspect_blocked (g : bool) (response_body : value) (l : Benchmark.locals)
    (err : option py_error) :
  Benchmark.inspect g response_body = (l, err) ->
  Benchmark.l_blocked l = true ->
  err = None /\ g = true /\
  Py.get response_body "stopReason" (VStr "") = inr (VStr "guardrail_intervened").
Proof.
  unfold Benchmark.inspect.
  pose proof (extract_tokens_blocked response_body Benchmark.initial) as Hb.
  destruct (Benchmark.extract_tokens response_body Benchmark.initial) as [l1 [e|]];
    cbn [fst] in Hb.
  - intros H Hl. injection H as <- <-. rewrite Hb in Hl. discriminate.
  - unfold Benchmark.check_blocked. destruct g.
    + destruct (Py.get response_body "stopReason" (VStr "")) as [e|stop] eqn:E.
      * intros H Hl. injection H as <- <-. rewrite Hb in Hl. discriminate.
      * destruct (Py.eq_str stop "guardrail_intervened") eqn:Es.
        -- intros H _. injection H as <- <-. apply eq_str_inv in Es. subst.
           auto.
        -- intros H Hl. injection H as <- <-. rewrite Hb in Hl. discriminate.
    + intros H Hl. injection H as <- <-. rewrite Hb in Hl. discriminate.
Qed.

(** A result is marked blocked only on evidence.  [invoke_model] marks it
    either for a response processed without error, with the guardrail
    attached and the stop reason "guardrail_intervened", or for a validation
    error whose text names the guardrail; [invoke_with_guardrail] of the PII
    script either for a response with that stop reason or for an exception
    whose text names the guardrail. *)
Theorem blocked_needs_evidence (env : Env) (prompt : string) (w : World) :
  (forall use_guardrail,
      let r := fst (Benchmark.invoke_model env prompt use_guardrail w) in
      let o := next_call env w (Benchmark.api_params_of prompt use_guardrail) in
      Benchmark.blocked r = true ->
      (Benchmark.error r = None /\ use_guardrail = true /\
       exists response_body,
         delivered o = Some response_body /\
         Py.get response_body "stopReason" (VStr "")
         = inr (VStr "guardrail_intervened")) \/
      (exists e, raised_by o = Some e /\ is_validation e = true /\
                 Benchmark.error r = Some (exn_str env e) /\
                 names_guardrail (exn_str env e) = true)) /\
  (let r := fst (PiiComparison.invoke_with_guardrail env prompt w) in
   let o := next_call env w (PiiComparison.guardrail_params prompt) in
   PiiComparison.blocked r = true ->
   (PiiComparison.error r = None /\
    exists response_body,
      delivered o = Some response_body /\
      Py.get response_body "stopReason" VNone = inr (VStr "guardrail_intervened")) \/
   (exists text, PiiComparison.error r = Some text /\ names_guardrail text = true)).
Proof.
  split.
  - intro g. cbv zeta.
    unfold Benchmark.invoke_model, Benchmark.handle, next_call, delivered, raised_by,
      names_guardrail.
    step_world.
    destruct (call_result _) as [e|resp]; cbn.
    + destruct (is_validation e) eqn:Ev; cbn; [|discriminate].
      destruct (Str.contains _ _) eqn:Ec; [|discriminate].
      intros _. right. exists e. auto.
    + destruct (read_result resp) as [e|response_body]; cbn.
      * destruct (is_validation e) eqn:Ev; cbn; [|discriminate].
        destruct (Str.contains _ _) eqn:Ec; [|discriminate].
        intros _. right. exists e. auto.
      * destruct (Benchmark.inspect g response_body) as [l [e|]] eqn:E; cbn.
        -- intro Hl. destruct (inspect_blocked _ _ _ _ E Hl) as [K _]. discriminate.
        -- intro Hl. destruct (inspect_blocked _ _ _ _ E Hl) as (_ & -> & Hs).
           left. split; [reflexivity|]. split; [reflexivity|].
           exists response_body. auto.
  - cbv zeta.
    unfold PiiComparison.invoke_with_guardrail, next_call, delivered, names_guardrail.
    step_world.
    destruct (call_result _) as [e|resp]; cbn.
    + intro H. right. eexists. split; [reflexivity | exact H].
    + destruct (read_result resp) as [e|response_body]; cbn.
      * intro H. right. eexists. split; [reflexivity | exact H].
      * destruct (Py.get response_body "stopReason" VNone) as [e|stop] eqn:E; cbn.
        -- intro H. right. eexists. split; [reflexivity | exact H].
        -- intro H. apply eq_str_inv in H. subst. left. split; [reflexivity|].
           exists response_body. auto.
Qed.

Lemma blocked_needs_evidence_witness :
  let r := fst (Benchmark.invoke_model env_intervenes "Hello" true w0) in
  let o := next_call env_intervenes w0 (Benchmark.api_params_of "Hello" true) in
  Benchmark.blocked r = true /\
  ((Benchmark.error r = None /\ true = true /\
    exists response_body,
      delivered o = Some response_body /\
      Py.get response_body "stopReason" (VStr "")
      = inr (VStr "guardrail_intervened")) \/
   (exists e, raised_by o = Some e /\ is_validation e = true /\
              Benchmark.error r = Some (exn_str env_intervenes e) /\
              names_guardrail (exn_str env_intervenes e) = true)).
Proof.
  split; [reflexivity|].
  exact (proj1 (blocked_needs_evidence env_intervenes "Hello" w0) true eq_refl).
Defined.

(** ** Token counts *)

(** The token counts of a result of [invoke_model] are what the usage object
    of the body reports, [None] standing for a count it leaves out.  A body
    that is a JSON object without usage gives no counts and no error.  A
    usage that is not an object (null, say) makes the call count as failed,
    although the service answered.  A call that raises gives no counts. *)
Theorem tokens_are_what_the_body_reports
    (env : Env) (prompt : string) (use_guardrail : bool) (w : World) :
  let r := fst (Benchmark.invoke_model env prompt use_guardrail w) in
  let o := next_call env w (Benchmark.api_params_of prompt use_guardrail) in
  (forall d u,
      delivered o = Some (VDict d) -> Py.lookup "usage" d = Some (VDict u) ->
      Benchmark.error r = None /\
      Benchmark.input_tokens r = get_or_none "inputTokens" u /\
      Benchmark.output_tokens r = get_or_none "outputTokens" u) /\
  (forall d,
      delivered o = Some (VDict d) -> Py.lookup "usage" d = None ->
      Benchmark.error r = None /\
      Benchmark.input_tokens r = VNone /\ Benchmark.output_tokens r = VNone) /\
  (forall d v,
      delivered o = Some (VDict d) -> Py.lookup "usage" d = Some v ->
      is_dict v = false ->
      Benchmark.error r = Some (error_text env (AttributeError v)) /\
      Benchmark.blocked r = false /\
      Benchmark.input_tokens r = VNone /\ Benchmark.output_tokens r = VNone) /\
  (forall e,
      raised_by o = Some e ->
      Benchmark.input_tokens r = VNone /\ Benchmark.output_tokens r = VNone).
Proof.
  cbv zeta. unfold next_call.
  split; [|split; [|split]].
  - intros d u Hd Hu. apply delivered_inv in Hd as (resp & Hc & Hr).
    unfold Benchmark.invoke_model, Benchmark.handle. step_world.
    rewrite Hc; cbn. rewrite Hr; cbn.
    unfold Benchmark.inspect, Benchmark.extract_tokens. cbn. rewrite Hu. cbn.
    unfold get_or_none.
    destruct (Py.lookup "inputTokens" u), (Py.lookup "outputTokens" u); cbn;
      unfold Benchmark.check_blocked; destruct use_guardrail; cbn;
      try (destruct (Py.lookup "stopReason" d) as [stop|]; cbn;
           try destruct (Py.eq_str stop "guardrail_intervened"); cbn);
      repeat split; reflexivity.
  - intros d Hd Hu. apply delivered_inv in Hd as (resp & Hc & Hr).
    unfold Benchmark.invoke_model, Benchmark.handle. step_world.
    rewrite Hc; cbn. rewrite Hr; cbn.
    unfold Benchmark.inspect, Benchmark.extract_tokens. cbn. rewrite Hu. cbn.
    unfold Benchmark.check_blocked; destruct use_guardrail; cbn;
      try (destruct (Py.lookup "stopReason" d) as [stop|]; cbn;
           try destruct (Py.eq_str stop "guardrail_intervened"); cbn);
      repeat split; reflexivity.
  - intros d v Hd Hu Hv. apply delivered_inv in Hd as (resp & Hc & Hr).
    unfold Benchmark.invoke_model, Benchmark.handle. step_world.
    rewrite Hc; cbn. rewrite Hr; cbn.
    unfold Benchmark.inspect, Benchmark.extract_tokens. cbn. rewrite Hu. cbn.
    destruct v; try discriminate Hv; cbn; repeat split; reflexivity.
  - intros e Hr.
    unfold Benchmark.invoke_model, Benchmark.handle. step_world.
    apply raised_by_inv in Hr as [Hc | (resp & Hc & Hb)]; rewrite Hc; cbn.
    + destruct (is_validation e); cbn; split; reflexivity.
    + rewrite Hb; cbn. destruct (is_validation e); cbn; split; reflexivity.
Qed.

Lemma tokens_are_what_the_body_reports_witness :
  let r := fst (Benchmark.invoke_model env_answers "Hello" true w0) in
  Benchmark.error r = None /\
  Benchmark.input_tokens r = VInt 7 /\ Benchmark.output_tokens r = VInt 2.
Proof.
  exact (proj1 (tokens_are_what_the_body_reports env_answers "Hello" true w0)
           _ [("inputTokens", VInt 7); ("outputTokens", VInt 2)] eq_refl eq_refl).
Defined.

(** ** What the regex variant reports *)

Lemma sample_set_listing (f : nat -> api_params -> call_outcome) :
  set_listing (env_of f).
Proof.
  intro l. cbn. split; [apply NoDup_nodup|]. intro x. apply nodup_In.
Qed.

Lemma output_text_first_block (d out msg block : list (string * value))
    (rest : list value) (t : value) :
  Py.lookup "output" d = Some (VDict out) ->
  Py.lookup "message" out = Some (VDict msg) ->
  Py.lookup "content" msg = Some (VList (VDict block :: rest)) ->
  Py.lookup "text" block = Some t ->
  PiiComparison.output_text_of (VDict d) = inr t.
Proof.
  intros H1 H2 H3 H4. unfold PiiComparison.output_text_of. cbn.
  rewrite H1. cbn. rewrite H2. cbn. rewrite H3. cbn. rewrite H4. cbn. reflexivity.
Qed.

Lemma output_text_without_output (d : list (string * value)) :
  Py.lookup "output" d = None ->
  PiiComparison.output_text_of (VDict d) = inr (VStr "").
Proof.
  intros H1. unfold PiiComparison.output_text_of. cbn. rewrite H1. reflexivity.
Qed.

Lemma with_regex_scanned (env : Env) (prompt : string) (w : World)
    (response_body : value) (text : string) :
  delivered (next_call env w (PiiComparison.plain_params (processed prompt)))
  = Some response_body ->
  PiiComparison.output_text_of response_body = inr (VStr text) ->
  let r := fst (PiiComparison.invoke_with_regex env prompt w) in
  PiiComparison.error r = None /\
  PiiComparison.pii_found r
  = set_order env (PiiComparison.found_in prompt ++ PiiComparison.found_in text)%list /\
  (PiiComparison.pii_check_ms r
   == (scan_secs env prompt + scan_secs env text) * 1000)%Q.
Proof.
  intros Hd Ht. apply delivered_inv in Hd as (resp & Hc & Hr).
  unfold next_call, processed in Hc.
  unfold PiiComparison.invoke_with_regex. step_world.
  rewrite Hc; cbn. rewrite Hr; cbn. rewrite Ht; cbn.
  split; [reflexivity|]. split; [reflexivity|]. lra.
Qed.

(** What a result of [invoke_with_regex] reports.  When the answer is a JSON
    object whose output message has a first content block with a text, the
    result has no error, lists exactly the categories the detector finds in
    the prompt or in that text, each once, and its check time is that of the
    two scans; further content blocks are not scanned.  An answer without
    output is scanned as the empty text.  A failed call lists the categories
    of the prompt alone. *)
Theorem regex_result_reports_prompt_and_answer
    (env : Env) (prompt : string) (w : World) :
  set_listing env ->
  let r := fst (PiiComparison.invoke_with_regex env prompt w) in
  let o := next_call env w (PiiComparison.plain_params (processed prompt)) in
  (forall d out msg block rest text,
      delivered o = Some (VDict d) ->
      Py.lookup "output" d = Some (VDict out) ->
      Py.lookup "message" out = Some (VDict msg) ->
      Py.lookup "content" msg = Some (VList (VDict block :: rest)) ->
      Py.lookup "text" block = Some (VStr text) ->
      PiiComparison.error r = None /\
      NoDup (PiiComparison.pii_found r) /\
      (forall x, In x (PiiComparison.pii_found r) <->
                 In x (PiiComparison.found_in prompt) \/
                 In x (PiiComparison.found_in text)) /\
      (PiiComparison.pii_check_ms r
       == (scan_secs env prompt + scan_secs env text) * 1000)%Q) /\
  (forall d,
      delivered o = Some (VDict d) -> Py.lookup "output" d = None ->
      PiiComparison.error r = None /\
      (forall x, In x (PiiComparison.pii_found r) <->
                 In x (PiiComparison.found_in prompt))) /\
  (PiiComparison.error r <> None ->
   PiiComparison.pii_found r = PiiComparison.found_in prompt /\
   (PiiComparison.pii_check_ms r == scan_secs env prompt * 1000)%Q).
Proof.
  intro Hset. cbv zeta. split; [|split].
  - intros d out msg block rest text Hd H1 H2 H3 H4.
    pose proof (output_text_first_block _ _ _ _ _ _ H1 H2 H3 H4) as Ht.
    destruct (with_regex_scanned env prompt w _ _ Hd Ht) as (He & Hf & Hs).
    split; [exact He|]. rewrite Hf.
    destruct (Hset (PiiComparison.found_in prompt ++ PiiComparison.found_in text)%list)
      as [Hn Hi].
    split; [exact Hn|]. split; [|exact Hs].
    intro x. rewrite Hi. apply in_app_iff.
  - intros d Hd H1.
    pose proof (output_text_without_output _ H1) as Ht.
    destruct (with_regex_scanned env prompt w _ _ Hd Ht) as (He & Hf & Hs).
    split; [exact He|]. rewrite Hf. intro x.
    destruct (Hset (PiiComparison.found_in prompt ++ PiiComparison.found_in "")%list)
      as [_ Hi].
    rewrite Hi, in_app_iff.
    assert (E : PiiComparison.found_in "" = []) by (vm_compute; reflexivity).
    rewrite E. cbn. tauto.
  - unfold PiiComparison.invoke_with_regex. step_world.
    destruct (call_result _) as [e|resp]; cbn.
    + intros _. split; [reflexivity | lra].
    + destruct (read_result resp) as [e|response_body]; cbn.
      * intros _. split; [reflexivity | lra].
      * destruct (PiiComparison.output_text_of response_body) as [e|[]]; cbn;
          try (intros _; split; [reflexivity | lra]).
        intro H. destruct H. reflexivity.
Qed.

Lemma regex_result_reports_prompt_and_answer_witness :
  let r := fst (PiiComparison.invoke_with_regex env_leaks "Hello" w0) in
  set_listing env_leaks /\
  PiiComparison.error r = None /\
  forall x, In x (PiiComparison.pii_found r) <->
            In x (PiiComparison.found_in "Hello") \/
            In x (PiiComparison.found_in "Write to a@b.com.").
Proof.
  cbv zeta. split; [apply sample_set_listing|].
  destruct (proj1 (regex_result_reports_prompt_and_answer env_leaks "Hello" w0
                     (sample_set_listing _))
              _ _ _ _ _ "Write to a@b.com." eq_refl eq_refl eq_refl eq_refl eq_refl)
    as (He & _ & Hi & _).
  split; [exact He | exact Hi].
Defined.

(** ** Invariants of the loops *)

Lemma for_each_invariant {A X} (I : A -> World -> Prop) (body : X -> A -> M A) :
  (forall x acc w, I acc w -> I (fst (body x acc w)) (snd (body x acc w))) ->
  forall xs acc w, I acc w ->
    I (fst (for_each xs body acc w)) (snd (for_each xs body acc w)).
Proof.
  intros Hstep xs. induction xs as [|x xs IH]; intros acc w H; cbn [for_each].
  - exact H.
  - unfold bind. specialize (Hstep x acc w H).
    destruct (body x acc w) as [acc1 w1]. apply IH. exact Hstep.
Qed.

Lemma sum_app (l : list Q) (x : Q) : (Stats.sum (l ++ [x]) == Stats.sum l + x)%Q.
Proof.
  induction l as [|y l IH]; cbn.
  - lra.
  - unfold Stats.sum in IH. rewrite IH. lra.
Qed.

Section Elapsed.

Variable env : Env.
Hypothesis mono : clock_monotone env.

Lemma invoke_model_within (prompt : string) (g : bool) (w : World) :
  let run := Benchmark.invoke_model env prompt g w in
  (0 <= Benchmark.latency_ms (fst run) <= passed_ms w (snd run))%Q.
Proof.
  unfold Benchmark.invoke_model, Benchmark.handle, passed_ms. step_world.
  set (p := Benchmark.api_params_of _ _).
  pose proof (call_nonneg env mono (List.length (calls w)) p) as Hc.
  pose proof (read_nonneg env mono (List.length (calls w)) p) as Hr.
  destruct (call_result _) as [e|resp]; cbn.
  - destruct (is_validation e); cbn; lra.
  - specialize (Hr resp eq_refl).
    destruct (read_result resp) as [e|response_body]; cbn.
    + destruct (is_validation e); cbn; lra.
    + destruct (Benchmark.inspect g response_body) as [l [e|]]; cbn; lra.
Qed.

Lemma no_protection_within (prompt : string) (w : World) :
  let run := PiiComparison.invoke_no_protection env prompt w in
  (0 <= PiiComparison.total_ms (fst run) <= passed_ms w (snd run))%Q.
Proof.
  unfold PiiComparison.invoke_no_protection, passed_ms. step_world.
  set (p := PiiComparison.plain_params _).
  pose proof (call_nonneg env mono (List.length (calls w)) p) as Hc.
  pose proof (read_nonneg env mono (List.length (calls w)) p) as Hr.
  destruct (call_result _) as [e|resp]; cbn; [lra|].
  specialize (Hr resp eq_refl).
  destruct (read_result resp); cbn; lra.
Qed.

Lemma with_guardrail_within (prompt : string) (w : World) :
  let run := PiiComparison.invoke_with_guardrail env prompt w in
  (0 <= PiiComparison.total_ms (fst run) <= passed_ms w (snd run))%Q.
Proof.
  unfold PiiComparison.invoke_with_guardrail, passed_ms. step_world.
  set (p := PiiComparison.guardrail_params _).
  pose proof (call_nonneg env mono (List.length (calls w)) p) as Hc.
  pose proof (read_nonneg env mono (List.length (calls w)) p) as Hr.
  destruct (call_result _) as [e|resp]; cbn; [lra|].
  specialize (Hr resp eq_refl).
  destruct (read_result resp) as [e|b]; cbn; [lra|].
  destruct (Py.get b _ _); cbn; lra.
Qed.

Lemma with_regex_within (prompt : string) (w : World) :
  let run := PiiComparison.invoke_with_regex env prompt w in
  (0 <= PiiComparison.total_ms (fst run) <= passed_ms w (snd run))%Q.
Proof.
  unfold PiiComparison.invoke_with_regex, passed_ms. step_world.
  set (p := PiiComparison.plain_params _).
  pose proof (call_nonneg env mono (List.length (calls w)) p) as Hc.
  pose proof (read_nonneg env mono (List.length (calls w)) p) as Hr.
  pose proof (scan_nonneg env mono prompt) as Hs.
  destruct (call_result _) as [e|resp]; cbn; [lra|].
  specialize (Hr resp eq_refl).
  destruct (read_result resp) as [e|b]; cbn; [lra|].
  destruct (PiiComparison.output_text_of b) as [e|[]]; cbn; try lra.
  pose proof (scan_nonneg env mono s) as Hs'. lra.
Qed.

Lemma one_round_within (start : World) (prompt : string) (acc : Benchmark.Results)
    (w : World) :
  (recorded_ms acc <= passed_ms start w)%Q ->
  let run := Benchmark.one_round env prompt acc w in
  (recorded_ms (fst run) <= passed_ms start (snd run))%Q.
Proof.
  intro H. unfold Benchmark.one_round, bind, ret.
  pose proof (invoke_model_within prompt false w) as H1.
  destruct (Benchmark.invoke_model env prompt false w) as [r1 w1].
  pose proof (invoke_model_within prompt true w1) as H2.
  destruct (Benchmark.invoke_model env prompt true w1) as [r2 w2].
  cbn [fst snd] in *. unfold recorded_ms, passed_ms in *. cbn.
  rewrite !map_app. cbn [map]. rewrite !sum_app. lra.
Qed.

Lemma pii_one_round_within (start : World) (prompt : string)
    (acc : PiiComparison.Results) (w : World) :
  (pii_recorded_ms acc <= passed_ms start w)%Q ->
  let run := PiiComparison.one_round env prompt acc w in
  (pii_recorded_ms (fst run) <= passed_ms start (snd run))%Q.
Proof.
  intro H. unfold PiiComparison.one_round, bind, ret.
  pose proof (no_protection_within prompt w) as H1.
  destruct (PiiComparison.invoke_no_protection env prompt w) as [r1 w1].
  pose proof (with_guardrail_within prompt w1) as H2.
  destruct (PiiComparison.invoke_with_guardrail env prompt w1) as [r2 w2].
  pose proof (with_regex_within prompt w2) as H3.
  destruct (PiiComparison.invoke_with_regex env prompt w2) as [r3 w3].
  cbn [fst snd] in *. unfold pii_recorded_ms, passed_ms in *. cbn.
  rewrite !map_app. cbn [map]. rewrite !sum_app. lra.
Qed.

Lemma benchmark_run_within (prompts : list string) (iterations : Z) (w : World) :
  let run := Benchmark.run_benchmark env prompts iterations w in
  (0 <= recorded_ms (fst run) <= passed_ms w (snd run))%Q.
Proof.
  cbv zeta. unfold Benchmark.run_benchmark, bind.
  pose proof (invoke_model_within "Hello" false w) as H1.
  destruct (Benchmark.invoke_model env "Hello" false w) as [r1 w1].
  pose proof (invoke_model_within "Hello" true w1) as H2.
  destruct (Benchmark.invoke_model env "Hello" true w1) as [r2 w2].
  cbn [fst snd] in H1, H2.
  rewrite nested_loops.
  pose proof (for_each_invariant
                (fun acc w' => (0 <= recorded_ms acc <= passed_ms w w')%Q)
                (Benchmark.one_round env)) as Hinv.
  apply Hinv.
  - intros p acc w' [Hlo Hhi]. split.
    + unfold Benchmark.one_round, bind, ret.
      pose proof (invoke_model_within p false w') as K1.
      destruct (Benchmark.invoke_model env p false w') as [a1 v1].
      pose proof (invoke_model_within p true v1) as K2.
      destruct (Benchmark.invoke_model env p true v1) as [a2 v2].
      cbn [fst snd] in *. unfold recorded_ms in *. cbn.
      rewrite !map_app. cbn [map]. rewrite !sum_app. lra.
    + apply one_round_within. exact Hhi.
  - unfold recorded_ms, passed_ms in *. cbn. lra.
Qed.

Lemma pii_run_within (prompts : list string) (iterations : Z) (w : World) :
  let run := PiiComparison.run_benchmark env prompts iterations w in
  (0 <= pii_recorded_ms (fst run) <= passed_ms w (snd run))%Q.
Proof.
  cbv zeta. unfold PiiComparison.run_benchmark, bind.
  pose proof (no_protection_within "Hello" w) as H1.
  destruct (PiiComparison.invoke_no_protection env "Hello" w) as [r1 w1].
  pose proof (with_guardrail_within "Hello" w1) as H2.
  destruct (PiiComparison.invoke_with_guardrail env "Hello" w1) as [r2 w2].
  pose proof (with_regex_within "Hello" w2) as H3.
  destruct (PiiComparison.invoke_with_regex env "Hello" w2) as [r3 w3].
  cbn [fst snd] in H1, H2, H3.
  rewrite nested_loops.
  pose proof (for_each_invariant
                (fun acc w' => (0 <= pii_recorded_ms acc <= passed_ms w w')%Q)
                (PiiComparison.one_round env)) as Hinv.
  apply Hinv.
  - intros p acc w' [Hlo Hhi]. split.
    + unfold PiiComparison.one_round, bind, ret.
      pose proof (no_protection_within p w') as K1.
      destruct (PiiComparison.invoke_no_protection env p w') as [a1 v1].
      pose proof (with_guardrail_within p v1) as K2.
      destruct (PiiComparison.invoke_with_guardrail env p v1) as [a2 v2].
      pose proof (with_regex_within p v2) as K3.
      destruct (PiiComparison.invoke_with_regex env p v2) as [a3 v3].
      cbn [fst snd] in *. unfold pii_recorded_ms in *. cbn.
      rewrite !map_app. cbn [map]. rewrite !sum_app. lra.
    + apply pii_one_round_within. exact Hhi.
  - unfold pii_recorded_ms, passed_ms in *. cbn. lra.
Qed.

End Elapsed.

(** The times a run records fit in the time the run takes.  When no
    operation takes a negative time, the latencies of all results of a run of
    benchmark.py add up to at most the time that passes during the run, and
    so do the totals of all results of a run of the PII script: no time is
    counted twice, and a failed call is not charged more than it took. *)
Theorem recorded_times_fit_in_the_run
    (env : Env) (prompts : list string) (iterations : Z) (w : World) :
  clock_monotone env ->
  (let run := Benchmark.run_benchmark env prompts iterations w in
   (0 <= recorded_ms (fst run) <= passed_ms w (snd run))%Q) /\
  (let run := PiiComparison.run_benchmark env prompts iterations w in
   (0 <= pii_recorded_ms (fst run) <= passed_ms w (snd run))%Q).
Proof.
  intro mono. split.
  - apply benchmark_run_within. exact mono.
  - apply pii_run_within. exact mono.
Qed.

Lemma recorded_times_fit_in_the_run_witness :
  clock_monotone env_answers /\
  (pii_recorded_ms (fst (PiiComparison.run_benchmark env_answers [pii_example] 2 w0))
   <= passed_ms w0 (snd (PiiComparison.run_benchmark env_answers [pii_example] 2 w0)))%Q.
Proof.
  split; [exact env_answers_monotone|].
  exact (proj2 (proj2 (recorded_times_fit_in_the_run
                         env_answers [pii_example] 2 w0 env_answers_monotone))).
Defined.

(** ** The requests of a run *)

Lemma invoke_model_calls (env : Env) (prompt : string) (g : bool) (w : World) :
  map request (calls (snd (Benchmark.invoke_model env prompt g w)))
  = (map request (calls w) ++ [Benchmark.api_params_of prompt g])%list.
Proof.
  unfold Benchmark.invoke_model, Benchmark.handle. step_world.
  destruct (call_result _) as [e|resp]; cbn.
  - destruct (is_validation e); cbn; rewrite map_app; reflexivity.
  - destruct (read_result resp) as [e|b]; cbn.
    + destruct (is_validation e); cbn; rewrite map_app; reflexivity.
    + destruct (Benchmark.inspect g b) as [l [e|]]; cbn; rewrite map_app; reflexivity.
Qed.

Lemma invoke_no_protection_calls (env : Env) (prompt : string) (w : World) :
  map request (calls (snd (PiiComparison.invoke_no_protection env prompt w)))
  = (map request (calls w) ++ [PiiComparison.plain_params prompt])%list.
Proof.
  unfold PiiComparison.invoke_no_protection. step_world.
  destruct (call_result _) as [e|resp]; cbn; [rewrite map_app; reflexivity|].
  destruct (read_result resp); cbn; rewrite map_app; reflexivity.
Qed.

Lemma invoke_with_guardrail_calls (env : Env) (prompt : string) (w : World) :
  map request (calls (snd (PiiComparison.invoke_with_guardrail env prompt w)))
  = (map request (calls w) ++ [PiiComparison.guardrail_params prompt])%list.
Proof.
  unfold PiiComparison.invoke_with_guardrail. step_world.
  destruct (call_result _) as [e|resp]; cbn; [rewrite map_app; reflexivity|].
  destruct (read_result resp) as [e|b]; cbn; [rewrite map_app; reflexivity|].
  destruct (Py.get b _ _); cbn; rewrite map_app; reflexivity.
Qed.

Lemma invoke_with_regex_calls (env : Env) (prompt : string) (w : World) :
  map request (calls (snd (PiiComparison.invoke_with_regex env prompt w)))
  = (map request (calls w) ++ [PiiComparison.plain_params (processed prompt)])%list.
Proof.
  unfold PiiComparison.invoke_with_regex, processed. step_world.
  destruct (call_result _) as [e|resp]; cbn; [rewrite map_app; reflexivity|].
  destruct (read_result resp) as [e|b]; cbn; [rewrite map_app; reflexivity|].
  destruct (PiiComparison.output_text_of b) as [e|[]]; cbn;
    rewrite map_app; reflexivity.
Qed.

Lemma rounds_requests (env : Env) (ps : list string) (acc : Benchmark.Results)
    (w : World) :
  map request (calls (snd (for_each ps (Benchmark.one_round env) acc w)))
  = (map request (calls w) ++ flat_map round_requests ps)%list.
Proof.
  revert acc w. induction ps as [|p ps IH]; intros acc w; cbn [for_each flat_map].
  - cbn. rewrite app_nil_r. reflexivity.
  - unfold bind.
    assert (H : map request (calls (snd (Benchmark.one_round env p acc w)))
                = (map request (calls w) ++ round_requests p)%list).
    { unfold Benchmark.one_round, bind, ret.
      pose proof (invoke_model_calls env p false w) as H1.
      destruct (Benchmark.invoke_model env p false w) as [r1 w1].
      pose proof (invoke_model_calls env p true w1) as H2.
      destruct (Benchmark.invoke_model env p true w1) as [r2 w2].
      cbn [fst snd] in *. rewrite H2, H1, <- app_assoc. reflexivity. }
    destruct (Benchmark.one_round env p acc w) as [acc1 w1]. cbn [snd] in H.
    rewrite IH, H, <- app_assoc. reflexivity.
Qed.

Lemma pii_rounds_requests (env : Env) (ps : list string)
    (acc : PiiComparison.Results) (w : World) :
  map request (calls (snd (for_each ps (PiiComparison.one_round env) acc w)))
  = (map request (calls w) ++ flat_map pii_round_requests ps)%list.
Proof.
  revert acc w. induction ps as [|p ps IH]; intros acc w; cbn [for_each flat_map].
  - cbn. rewrite app_nil_r. reflexivity.
  - unfold bind.
    assert (H : map request (calls (snd (PiiComparison.one_round env p acc w)))
                = (map request (calls w) ++ pii_round_requests p)%list).
    { unfold PiiComparison.one_round, bind, ret.
      pose proof (invoke_no_protection_calls env p w) as H1.
      destruct (PiiComparison.invoke_no_protection env p w) as [r1 w1].
      pose proof (invoke_with_guardrail_calls env p w1) as H2.
      destruct (PiiComparison.invoke_with_guardrail env p w1) as [r2 w2].
      pose proof (invoke_with_regex_calls env p w2) as H3.
      destruct (PiiComparison.invoke_with_regex env p w2) as [r3 w3].
      cbn [fst snd] in *. rewrite H3, H2, H1, <- !app_assoc. reflexivity. }
    destruct (PiiComparison.one_round env p acc w) as [acc1 w1]. cbn [snd] in H.
    rewrite IH, H, <- app_assoc. reflexivity.
Qed.

(** The requests a run sends, in order: the warm-up with "Hello", then for
    each prompt, as many times as there are iterations, one request per
    variant.  Each request carries the whole prompt, whatever its length;
    only the third request of the PII script carries the anonymized prompt
    instead. *)
Theorem requests_follow_the_prompts
    (env : Env) (prompts : list string) (iterations : Z) (w : World) :
  let rounds := flat_map (fun p => repeat p (Z.to_nat iterations)) prompts in
  map request (calls (snd (Benchmark.run_benchmark env prompts iterations w)))
  = (map request (calls w)
     ++ round_requests "Hello" ++ flat_map round_requests rounds)%list /\
  map request (calls (snd (PiiComparison.run_benchmark env prompts iterations w)))
  = (map request (calls w)
     ++ pii_round_requests "Hello" ++ flat_map pii_round_requests rounds)%list.
Proof.
  intro rounds. split.
  - unfold Benchmark.run_benchmark, bind.
    pose proof (invoke_model_calls env "Hello" false w) as H1.
    destruct (Benchmark.invoke_model env "Hello" false w) as [r1 w1].
    pose proof (invoke_model_calls env "Hello" true w1) as H2.
    destruct (Benchmark.invoke_model env "Hello" true w1) as [r2 w2].
    cbn [fst snd] in *.
    rewrite nested_loops, rounds_requests, H2, H1, <- !app_assoc. reflexivity.
  - unfold PiiComparison.run_benchmark, bind.
    pose proof (invoke_no_protection_calls env "Hello" w) as H1.
    destruct (PiiComparison.invoke_no_protection env "Hello" w) as [r1 w1].
    pose proof (invoke_with_guardrail_calls env "Hello" w1) as H2.
    destruct (PiiComparison.invoke_with_guardrail env "Hello" w1) as [r2 w2].
    pose proof (invoke_with_regex_calls env "Hello" w2) as H3.
    destruct (PiiComparison.invoke_with_regex env "Hello" w2) as [r3 w3].
    cbn [fst snd] in *.
    rewrite nested_loops, pii_rounds_requests, H3, H2, H1, <- !app_assoc.
    assert (E : processed "Hello" = "Hello") by (vm_compute; reflexivity).
    unfold pii_round_requests at 1. rewrite E. reflexivity.
Qed.

(** ** When the analysis of the PII script raises *)

Lemma pii_analyze_results_cases (results : PiiComparison.Results) :
  let no_prot := map PiiComparison.total_ms
                     (filter PiiComparison.no_error
                             (PiiComparison.no_protection results)) in
  let guardrail_ := map PiiComparison.total_ms
                        (filter PiiComparison.no_error
                                (PiiComparison.guardrail results)) in
  let regex_ := map PiiComparison.total_ms
                    (filter PiiComparison.no_error (PiiComparison.regex results)) in
  (exists rep, PiiComparison.analyze_results results = inr rep) \/
  (PiiComparison.analyze_results results = inl ZeroDivisionError /\
   no_prot <> [] /\ guardrail_ <> [] /\ regex_ <> [] /\
   exists m, Stats.mean no_prot = inr m /\ (m == 0)%Q).
Proof.
  intros a b c. unfold PiiComparison.analyze_results. fold a b c.
  destruct (summaries_never_raise (PiiComparison.items results)) as (sm & Hsm & _).
  rewrite Hsm. cbn [ebind].
  destruct (pii_check_timing_never_raises
              (filter PiiComparison.no_error (PiiComparison.regex results)))
    as (t & Ht).
  rewrite Ht.
  destruct a as [|x a'] eqn:Ea.
  { left. rewrite pii_compare_skipped by auto. cbn [ebind]. eexists. reflexivity. }
  destruct b as [|y b'] eqn:Eb.
  { left. rewrite pii_compare_skipped by auto. cbn [ebind]. eexists. reflexivity. }
  destruct c as [|z c'] eqn:Ec.
  { left. rewrite pii_compare_skipped by auto. cbn [ebind]. eexists. reflexivity. }
  unfold PiiComparison.compare, PiiComparison.percentage_overhead.
  rewrite (mean_total (x :: a')), (mean_total (y :: b')), (mean_total (z :: c'))
    by discriminate.
  cbn [ebind].
  set (base := (Stats.sum (x :: a') / Stats.of_nat (List.length (x :: a')))%Q).
  destruct (Qeq_bool base 0) eqn:E.
  - apply Qeq_bool_iff in E. right. rewrite (div_zero _ base E). cbn [ebind].
    split; [reflexivity|]. split; [discriminate|]. split; [discriminate|].
    split; [discriminate|].
    exists base. split; [reflexivity | assumption].
  - left. rewrite !(div_nonzero _ base)
      by (intro H; apply Qeq_bool_iff in H; congruence).
    cbn [ebind]. eexists. reflexivity.
Qed.


(** ** The analysis of a run *)

Lemma sum_positive (l : list Q) :
  l <> [] -> Forall (fun x => 0 < x)%Q l -> (0 < Stats.sum l)%Q.
Proof.
  intros Hne H. induction H as [|x l Hx H IH]; [congruence|].
  cbn. destruct l as [|y l'].
  - cbn. lra.
  - assert (K : (0 < Stats.sum (y :: l'))%Q) by (apply IH; discriminate).
    unfold Stats.sum in K. lra.
Qed.

Lemma mean_positive (l : list Q) (m : Q) :
  Forall (fun x => 0 < x)%Q l -> Stats.mean l = inr m -> (0 < m)%Q.
Proof.
  intros H Hm.
  assert (Hne : l <> []) by (intro E; subst; discriminate).
  rewrite (mean_total l Hne) in Hm. injection Hm as <-.
  pose proof (sum_positive l Hne H) as Hs.
  assert (Hn : (0 < Stats.of_nat (List.length l))%Q).
  { apply of_nat_pos. destruct l; [congruence | cbn; lia]. }
  apply Qlt_shift_div_l; [assumption|]. lra.
Qed.

Lemma Forall_map_filter {A} (f : A -> Q) (g : A -> bool) (P : Q -> Prop) (l : list A) :
  Forall (fun r => P (f r)) l -> Forall P (map f (filter g l)).
Proof.
  intro H. induction H as [|x l Hx H IH]; cbn; [constructor|].
  destruct (g x); cbn; [constructor|]; assumption.
Qed.

Section TimedRun.

Variable env : Env.
Hypothesis mono : clock_monotone env.
Hypothesis timed : calls_take_time env.

Lemma invoke_model_positive (prompt : string) (g : bool) (w : World) :
  (0 < Benchmark.latency_ms (fst (Benchmark.invoke_model env prompt g w)))%Q.
Proof.
  unfold Benchmark.invoke_model, Benchmark.handle. step_world.
  set (p := Benchmark.api_params_of _ _).
  pose proof (timed (List.length (calls w)) p) as Hc.
  pose proof (read_nonneg env mono (List.length (calls w)) p) as Hr.
  destruct (call_result _) as [e|resp]; cbn.
  - destruct (is_validation e); cbn; lra.
  - specialize (Hr resp eq_refl).
    destruct (read_result resp) as [e|response_body]; cbn.
    + destruct (is_validation e); cbn; lra.
    + destruct (Benchmark.inspect g response_body) as [l [e|]]; cbn; lra.
Qed.

Lemma invoke_no_protection_positive (prompt : string) (w : World) :
  (0 < PiiComparison.total_ms (fst (PiiComparison.invoke_no_protection env prompt w)))%Q.
Proof.
  unfold PiiComparison.invoke_no_protection. step_world.
  set (p := PiiComparison.plain_params _).
  pose proof (timed (List.length (calls w)) p) as Hc.
  pose proof (read_nonneg env mono (List.length (calls w)) p) as Hr.
  destruct (call_result _) as [e|resp]; cbn; [lra|].
  specialize (Hr resp eq_refl).
  destruct (read_result resp); cbn; lra.
Qed.

Lemma invoke_with_guardrail_positive (prompt : string) (w : World) :
  (0 < PiiComparison.total_ms (fst (PiiComparison.invoke_with_guardrail env prompt w)))%Q.
Proof.
  unfold PiiComparison.invoke_with_guardrail. step_world.
  set (p := PiiComparison.guardrail_params _).
  pose proof (timed (List.length (calls w)) p) as Hc.
  pose proof (read_nonneg env mono (List.length (calls w)) p) as Hr.
  destruct (call_result _) as [e|resp]; cbn; [lra|].
  specialize (Hr resp eq_refl).
  destruct (read_result resp) as [e|b]; cbn; [lra|].
  destruct (Py.get b _ _); cbn; lra.
Qed.

Lemma invoke_with_regex_positive (prompt : string) (w : World) :
  (0 < PiiComparison.total_ms (fst (PiiComparison.invoke_with_regex env prompt w)))%Q.
Proof.
  unfold PiiComparison.invoke_with_regex. step_world.
  set (p := PiiComparison.plain_params _).
  pose proof (timed (List.length (calls w)) p) as Hc.
  pose proof (read_nonneg env mono (List.length (calls w)) p) as Hr.
  pose proof (scan_nonneg env mono prompt) as Hs.
  destruct (call_result _) as [e|resp]; cbn; [lra|].
  specialize (Hr resp eq_refl).
  destruct (read_result resp) as [e|b]; cbn; [lra|].
  destruct (PiiComparison.output_text_of b) as [e|[]]; cbn; try lra.
  pose proof (scan_nonneg env mono s) as Hs'. lra.
Qed.

Lemma benchmark_run_positive (prompts : list string) (iterations : Z) (w : World) :
  let res := fst (Benchmark.run_benchmark env prompts iterations w) in
  Forall (fun r => 0 < Benchmark.latency_ms r)%Q
         (Benchmark.results_without_guardrail res) /\
  Forall (fun r => 0 < Benchmark.latency_ms r)%Q
         (Benchmark.results_with_guardrail res).
Proof.
  cbv zeta. unfold Benchmark.run_benchmark, bind.
  destruct (Benchmark.invoke_model env "Hello" false w) as [r1 w1].
  destruct (Benchmark.invoke_model env "Hello" true w1) as [r2 w2].
  rewrite nested_loops.
  apply (for_each_invariant
           (fun acc _ =>
              Forall (fun r => 0 < Benchmark.latency_ms r)%Q
                     (Benchmark.results_without_guardrail acc) /\
              Forall (fun r => 0 < Benchmark.latency_ms r)%Q
                     (Benchmark.results_with_guardrail acc))
           (Benchmark.one_round env)).
  - intros p acc w' [Ha Hb]. unfold Benchmark.one_round, bind, ret.
    pose proof (invoke_model_positive p false w') as K1.
    destruct (Benchmark.invoke_model env p false w') as [a1 v1].
    pose proof (invoke_model_positive p true v1) as K2.
    destruct (Benchmark.invoke_model env p true v1) as [a2 v2].
    cbn [fst snd] in *. cbn.
    split; apply Forall_app; (split; [assumption|]);
      (constructor; [assumption | constructor]).
  - split; constructor.
Qed.

Lemma pii_run_positive (prompts : list string) (iterations : Z) (w : World) :
  let res := fst (PiiComparison.run_benchmark env prompts iterations w) in
  Forall (fun r => 0 < PiiComparison.total_ms r)%Q (PiiComparison.no_protection res) /\
  Forall (fun r => 0 < PiiComparison.total_ms r)%Q (PiiComparison.guardrail res) /\
  Forall (fun r => 0 < PiiComparison.total_ms r)%Q (PiiComparison.regex res).
Proof.
  cbv zeta. unfold PiiComparison.run_benchmark, bind.
  destruct (PiiComparison.invoke_no_protection env "Hello" w) as [r1 w1].
  destruct (PiiComparison.invoke_with_guardrail env "Hello" w1) as [r2 w2].
  destruct (PiiComparison.invoke_with_regex env "Hello" w2) as [r3 w3].
  rewrite nested_loops.
  apply (for_each_invariant
           (fun acc _ =>
              Forall (fun r => 0 < PiiComparison.total_ms r)%Q
                     (PiiComparison.no_protection acc) /\
              Forall (fun r => 0 < PiiComparison.total_ms r)%Q
                     (PiiComparison.guardrail acc) /\
              Forall (fun r => 0 < PiiComparison.total_ms r)%Q
                     (PiiComparison.regex acc))
           (PiiComparison.one_round env)).
  - intros p acc w' (Ha & Hb & Hc). unfold PiiComparison.one_round, bind, ret.
    pose proof (invoke_no_protection_positive p w') as K1.
    destruct (PiiComparison.invoke_no_protection env p w') as [a1 v1].
    pose proof (invoke_with_guardrail_positive p v1) as K2.
    destruct (PiiComparison.invoke_with_guardrail env p v1) as [a2 v2].
    pose proof (invoke_with_regex_positive p v2) as K3.
    destruct (PiiComparison.invoke_with_regex env p v2) as [a3 v3].
    cbn [fst snd] in *. cbn.
    repeat split; try assumption;
      apply Forall_app; (split; [assumption|]);
      (constructor; [assumption | constructor]).
  - repeat split; constructor.
Qed.

Lemma run_analysis_returns (prompts : list string) (iterations : Z) (w : World) :
  exists rep,
    Benchmark.analyze_results
      (fst (Benchmark.run_benchmark env prompts iterations w)) = inr rep.
Proof.
  destruct (analyze_results_cases
              (fst (Benchmark.run_benchmark env prompts iterations w)))
    as [H | (_ & _ & _ & m & Hm & Hz)]; [exact H|].
  exfalso.
  assert (K : (0 < m)%Q); [|lra].
  eapply mean_positive; [|exact Hm].
  apply Forall_map_filter. apply benchmark_run_positive.
Qed.

Lemma pii_run_analysis_returns (prompts : list string) (iterations : Z) (w : World) :
  exists rep,
    PiiComparison.analyze_results
      (fst (PiiComparison.run_benchmark env prompts iterations w)) = inr rep.
Proof.
  destruct (pii_analyze_results_cases
              (fst (PiiComparison.run_benchmark env prompts iterations w)))
    as [H | (_ & _ & _ & _ & m & Hm & Hz)]; [exact H|].
  exfalso.
  assert (K : (0 < m)%Q); [|lra].
  eapply mean_positive; [|exact Hm].
  apply Forall_map_filter. apply pii_run_positive.
Qed.

End TimedRun.

(** The analysis of a run returns a report: when every remote call takes
    time and no operation takes a negative time, the baseline mean of a run
    is positive, so neither script divides by zero, whatever the service
    answers and however many calls fail. *)
Theorem analysis_of_a_run_returns
    (env : Env) (prompts : list string) (iterations : Z) (w : World) :
  clock_monotone env -> calls_take_time env ->
  (exists rep,
      Benchmark.analyze_results
        (fst (Benchmark.run_benchmark env prompts iterations w)) = inr rep) /\
  (exists rep,
      PiiComparison.analyze_results
        (fst (PiiComparison.run_benchmark env prompts iterations w)) = inr rep).
Proof.
  intros mono timed. split.
  - apply run_analysis_returns; assumption.
  - apply pii_run_analysis_returns; assumption.
Qed.

Lemma sample_calls_take_time (f : nat -> api_params -> call_outcome) :
  (forall n p, exists b, f n p = reply b \/ exists v t, f n p = failure v t) ->
  calls_take_time (env_of f).
Proof.
  intros H n p. cbn. destruct (H n p) as [b [->| (v & t & ->)]]; cbn; lra.
Qed.

Lemma env_flaky_answers (n : nat) (p : api_params) :
  exists b,
    service env_flaky n p = reply b \/ exists v t, service env_flaky n p = failure v t.
Proof.
  exists sample_body. unfold env_flaky, env_of. cbn [service].
  destruct (n mod 3 =? 0)%nat.
  - right. exists false, "Read timed out". reflexivity.
  - left. reflexivity.
Qed.

Lemma env_flaky_monotone : clock_monotone env_flaky.
Proof. apply sample_clock_monotone. exact env_flaky_answers. Qed.

Lemma env_flaky_timed : calls_take_time env_flaky.
Proof. apply sample_calls_take_time. exact env_flaky_answers. Qed.

Lemma env_answers_timed : calls_take_time env_answers.
Proof.
  apply sample_calls_take_time. intros n p. exists sample_body. left. reflexivity.
Qed.

Lemma analysis_of_a_run_returns_witness :
  clock_monotone env_flaky /\ calls_take_time env_flaky /\
  exists rep,
    Benchmark.analyze_results
      (fst (Benchmark.run_benchmark env_flaky Benchmark.TEST_PROMPTS 3 w0)) = inr rep.
Proof.
  split; [exact env_flaky_monotone|]. split; [exact env_flaky_timed|].
  exact (proj1 (analysis_of_a_run_returns env_flaky Benchmark.TEST_PROMPTS 3 w0
                  env_flaky_monotone env_flaky_timed)).
Defined.

(** ** The sign of the overhead *)

Lemma ratio_sign (d b : Q) :
  (0 < b)%Q ->
  ((0 < d / b * 100)%Q <-> (0 < d)%Q) /\ ((d / b * 100 < 0)%Q <-> (d < 0)%Q) /\
  ((-100 < d / b * 100)%Q <-> (0 < d + b)%Q).
Proof.
  intro Hb.
  assert (D : (d / b * b == d)%Q) by (field; lra).
  set (q := (d / b)%Q) in *.
  split; [|split]; split; intro K; nra.
Qed.

(** In the report of a run the percentage agrees with the overhead in
    milliseconds.  When every remote call takes time and no operation takes
    a negative time, the percentage overhead of benchmark.py is positive
    exactly when the overhead is, negative exactly when the overhead is, and
    always above -100; the same holds for the two percentages of the PII
    script, whose baseline is positive. *)
Theorem percentage_has_the_sign_of_the_overhead
    (env : Env) (prompts : list string) (iterations : Z) (w : World) :
  clock_monotone env -> calls_take_time env ->
  (forall rep a,
      Benchmark.analyze_results
        (fst (Benchmark.run_benchmark env prompts iterations w)) = inr rep ->
      Benchmark.analysis rep = Some a ->
      ((0 < Benchmark.overhead_pct a)%Q <-> (0 < Benchmark.overhead a)%Q) /\
      ((Benchmark.overhead_pct a < 0)%Q <-> (Benchmark.overhead a < 0)%Q) /\
      (-100 < Benchmark.overhead_pct a)%Q) /\
  (forall rep c,
      PiiComparison.analyze_results
        (fst (PiiComparison.run_benchmark env prompts iterations w)) = inr rep ->
      PiiComparison.comparison rep = Some c ->
      (0 < PiiComparison.baseline c)%Q /\
      ((0 < PiiComparison.guardrail_overhead_pct c)%Q
       <-> (0 < PiiComparison.guardrail_overhead c)%Q) /\
      ((0 < PiiComparison.regex_overhead_pct c)%Q
       <-> (0 < PiiComparison.regex_overhead c)%Q) /\
      (-100 < PiiComparison.guardrail_overhead_pct c)%Q /\
      (-100 < PiiComparison.regex_overhead_pct c)%Q).
Proof.
  intros mono timed. split.
  - intros rep a H Ha.
    destruct (benchmark_run_positive env mono timed prompts iterations w) as [Pw Pg].
    apply analyze_results_inv in H. cbv zeta in H.
    destruct H as (_ & _ & Hcmp & _). rewrite Ha in Hcmp.
    apply compare_inv in Hcmp as (mw & mg & Hmw & Hmg & _ & _ & Ho & Hp & _).
    assert (Kw : (0 < mw)%Q).
    { eapply mean_positive; [|exact Hmw]. apply Forall_map_filter. exact Pw. }
    assert (Kg : (0 < mg)%Q).
    { eapply mean_positive; [|exact Hmg]. apply Forall_map_filter. exact Pg. }
    rewrite Ho, Hp.
    destruct (ratio_sign (mg - mw) mw Kw) as (R1 & R2 & R3).
    split; [exact R1|]. split; [exact R2|]. apply R3. lra.
  - intros rep c H Hc.
    destruct (pii_run_positive env mono timed prompts iterations w) as (Pn & Pg & Pr).
    unfold PiiComparison.analyze_results in H. cbv zeta in H.
    ebind_inv H as sm Hsm. ebind_inv H as cmp Hcmp. ebind_inv H as avg Havg.
    injection H as <-. cbn in Hc. subst cmp.
    apply pii_compare_inv in Hcmp
      as (base & gr & rx & Hb & Hg & Hr & _ & _ & _ & _ & E1 & E2 & E3 & E4 & E5 & _).
    assert (Kb : (0 < base)%Q).
    { eapply mean_positive; [|exact Hb]. apply Forall_map_filter. exact Pn. }
    assert (Kg : (0 < gr)%Q).
    { eapply mean_positive; [|exact Hg]. apply Forall_map_filter. exact Pg. }
    assert (Kr : (0 < rx)%Q).
    { eapply mean_positive; [|exact Hr]. apply Forall_map_filter. exact Pr. }
    rewrite E1, E2, E3, E4, E5.
    assert (Fg : ((gr / base - 1) * 100 == (gr - base) / base * 100)%Q)
      by (field; lra).
    assert (Fr : ((rx / base - 1) * 100 == (rx - base) / base * 100)%Q)
      by (field; lra).
    rewrite Fg, Fr.
    destruct (ratio_sign (gr - base) base Kb) as (G1 & _ & G3).
    destruct (ratio_sign (rx - base) base Kb) as (R1 & _ & R3).
    split; [exact Kb|]. split; [exact G1|]. split; [exact R1|].
    split; [apply G3 | apply R3]; lra.
Qed.

(** ** The reports of two concrete runs *)

Lemma summary_block_is_consistent_witness :
  exists s,
    PiiComparison.summarize (PiiComparison.regex pii_answers_run) = inr (Some s) /\
    (PiiComparison.s_min s <= PiiComparison.s_mean s <= PiiComparison.s_max s)%Q.
Proof.
  destruct (PiiComparison.summarize (PiiComparison.regex pii_answers_run))
    as [e|[s|]] eqn:H;
    [vm_compute in H; discriminate | | vm_compute in H; discriminate].
  exists s. split; [reflexivity|].
  destruct (summary_block_is_consistent _ s H)
    as (_ & _ & _ & _ & _ & _ & _ & Hm & _).
  exact Hm.
Defined.

Lemma report_is_consistent_witness :
  exists rep,
    Benchmark.analyze_results flaky_run = inr rep /\
    (Benchmark.blocked_count rep <= Benchmark.total_with rep)%nat.
Proof.
  destruct (Benchmark.analyze_results flaky_run) as [e|rep] eqn:H;
    [vm_compute in H; discriminate|].
  exists rep. split; [reflexivity|].
  destruct (report_is_consistent _ rep H) as (_ & _ & Hb & _).
  exact Hb.
Defined.

Lemma table_has_one_row_per_label_witness :
  exists rep,
    Benchmark.analyze_results flaky_run = inr rep /\
    map Benchmark.row_prompt (Benchmark.table rep)
    = ["What is the capital of France?";
       "My email is test@example.com, can you help me writ..."].
Proof.
  destruct (Benchmark.analyze_results flaky_run) as [e|rep] eqn:H;
    [vm_compute in H; discriminate|].
  exists rep. split; [reflexivity|].
  destruct (table_has_one_row_per_label _ rep H) as (Hl & _).
  rewrite Hl. vm_compute. reflexivity.
Defined.

Lemma table_of_a_run_witness :
  exists rep,
    Benchmark.analyze_results flaky_run = inr rep /\
    (List.length (Benchmark.table rep) <= 3)%nat.
Proof.
  destruct (Benchmark.analyze_results flaky_run) as [e|rep] eqn:H;
    [vm_compute in H; discriminate|].
  exists rep. split; [reflexivity|].
  assert (P : (0 < 2)%Z) by reflexivity.
  destruct (table_of_a_run env_flaky _ 2 w0 rep P H) as (_ & Hl).
  exact Hl.
Defined.

Lemma percentage_has_the_sign_of_the_overhead_witness :
  clock_monotone env_flaky /\ calls_take_time env_flaky /\
  exists rep a,
    Benchmark.analyze_results flaky_run = inr rep /\
    Benchmark.analysis rep = Some a /\
    (-100 < Benchmark.overhead_pct a)%Q.
Proof.
  split; [exact env_flaky_monotone|]. split; [exact env_flaky_timed|].
  destruct (Benchmark.analyze_results flaky_run) as [e|rep] eqn:H;
    [vm_compute in H; discriminate|].
  destruct (Benchmark.analysis rep) as [a|] eqn:Ha;
    [|vm_compute in H; injection H as <-; discriminate Ha].
  exists rep, a. split; [reflexivity|]. split; [exact Ha|].
  destruct (proj1 (percentage_has_the_sign_of_the_overhead env_flaky _ 2 w0
                     env_flaky_monotone env_flaky_timed) rep a H Ha)
    as (_ & _ & K).
  exact K.
Defined.

Lemma pii_report_is_consistent_witness :
  exists rep,
    PiiComparison.analyze_results pii_answers_run = inr rep /\
    map fst (PiiComparison.summary rep) = ["no_protection"; "guardrail"; "regex"].
Proof.
  destruct (PiiComparison.analyze_results pii_answers_run) as [e|rep] eqn:H;
    [vm_compute in H; discriminate|].
  exists rep. split; [reflexivity|].
  destruct (pii_report_is_consistent _ rep H) as (Hs & _).
  rewrite Hs. vm_compute. reflexivity.
Defined.

(** ** The two programs as a whole *)

(** Each program runs to its end: when every remote call takes time and no
    operation takes a negative time, [main] returns a report and the exported
    document of the run, whatever the service answers.  benchmark.py makes 62
    remote calls and reports 30 requests per variant; the PII script makes
    30003 remote calls and records 10000 results per variant. *)
Theorem main_runs_to_its_end (env : Env) (w : World) :
  clock_monotone env -> calls_take_time env ->
  (let results := fst (Benchmark.run_benchmark env Benchmark.TEST_PROMPTS 3 w) in
   exists rep,
     fst (Benchmark.main env w)
     = inr (rep, Benchmark.export_results_json results) /\
     Benchmark.analyze_results results = inr rep /\
     Z.of_nat (Benchmark.total_without rep) = 30%Z /\
     Z.of_nat (Benchmark.total_with rep) = 30%Z /\
     Z.of_nat (List.length (calls (snd (Benchmark.main env w))))
     = (Z.of_nat (List.length (calls w)) + 62)%Z) /\
  (let results :=
     fst (PiiComparison.run_benchmark env PiiComparison.TEST_PROMPTS 1000 w) in
   exists rep,
     fst (PiiComparison.main env w)
     = inr (rep, PiiComparison.export_results results) /\
     PiiComparison.analyze_results results = inr rep /\
     Z.of_nat (List.length (PiiComparison.no_protection results)) = 10000%Z /\
     Z.of_nat (List.length (PiiComparison.guardrail results)) = 10000%Z /\
     Z.of_nat (List.length (PiiComparison.regex results)) = 10000%Z /\
     Z.of_nat (List.length (calls (snd (PiiComparison.main env w))))
     = (Z.of_nat (List.length (calls w)) + 30003)%Z).
Proof.
  intros mono timed. split.
  - cbv zeta.
    destruct (run_analysis_returns env mono timed Benchmark.TEST_PROMPTS 3 w)
      as (rep & Hrep).
    assert (P : (0 <= 3)%Z) by lia.
    destruct (benchmark_run_counts env Benchmark.TEST_PROMPTS 3 w P)
      as (L1 & L2 & Lc & _).
    pose proof (analyze_results_inv _ _ Hrep) as (_ & _ & _ & _ & T1 & _ & T2 & _).
    exists rep. unfold Benchmark.main, bind, ret.
    destruct (Benchmark.run_benchmark env Benchmark.TEST_PROMPTS 3 w)
      as [results w'] eqn:E.
    cbn [fst snd] in *. rewrite Hrep. cbn [ebind].
    split; [reflexivity|]. split; [reflexivity|].
    rewrite T1, T2, L1, L2, Lc.
    change (Z.of_nat (List.length Benchmark.TEST_PROMPTS)) with 10%Z.
    repeat split; lia.
  - cbv zeta.
    destruct (pii_run_analysis_returns env mono timed PiiComparison.TEST_PROMPTS 1000 w)
      as (rep & Hrep).
    assert (P : (0 <= 1000)%Z) by lia.
    destruct (pii_run_counts env PiiComparison.TEST_PROMPTS 1000 w P)
      as (L1 & L2 & L3 & Lc & _).
    exists rep. unfold PiiComparison.main, bind, ret.
    destruct (PiiComparison.run_benchmark env PiiComparison.TEST_PROMPTS 1000 w)
      as [results w'] eqn:E.
    cbn [fst snd] in *. rewrite Hrep. cbn [ebind].
    split; [reflexivity|]. split; [reflexivity|].
    rewrite L1, L2, L3, Lc.
    change (Z.of_nat (List.length PiiComparison.TEST_PROMPTS)) with 10%Z.
    repeat split; lia.
Qed.

Lemma main_runs_to_its_end_witness :
  clock_monotone env_answers /\ calls_take_time env_answers /\
  Z.of_nat (List.length (calls (snd (PiiComparison.main env_answers w0)))) = 30003%Z.
Proof.
  split; [exact env_answers_monotone|]. split; [exact env_answers_timed|].
  destruct (proj2 (main_runs_to_its_end env_answers w0 env_answers_monotone
                     env_answers_timed))
    as (rep & _ & _ & _ & _ & _ & Hc).
  exact Hc.
Defined.

(** ** The detector misses no email address and no plain phone number *)

Lemma rep_complete {R} (cs : Re.cset) (m : string) :
  forall (lo : nat) (hi : option nat) (prev : option ascii) (rest : string)
         (k : Re.cont R),
    (forall c, In c (list_ascii_of_string m) -> Re.in_cset c cs = true) ->
    (lo <= String.length m)%nat ->
    (forall h, hi = Some h -> (String.length m <= h)%nat) ->
    (forall p, k p rest <> None) ->
    Re.rep cs lo hi prev (m ++ rest) k <> None.
Proof.
  induction m as [|c m IH]; intros lo hi prev rest k Hcs Hlo Hhi Hk.
  - cbn in Hlo. assert (lo = 0%nat) by lia. subst lo. cbn [append].
    destruct rest as [|c rest]; cbn [Re.rep]; [apply Hk|].
    destruct (Re.in_cset c cs && Re.may_take hi); [|apply Hk].
    destruct (Re.rep cs _ _ _ rest k); [discriminate | apply Hk].
  - cbn [append Re.rep].
    rewrite (Hcs c) by (left; reflexivity).
    assert (Ht : Re.may_take hi = true).
    { destruct hi as [[|h]|]; try reflexivity.
      specialize (Hhi 0%nat eq_refl). cbn in Hhi. lia. }
    rewrite Ht. cbn [andb].
    assert (K : Re.rep cs (Nat.pred lo) (option_map Nat.pred hi) (Some c) (m ++ rest) k
                <> None).
    { apply IH.
      - intros c' Hc'. apply Hcs. right. assumption.
      - cbn in Hlo. lia.
      - intros h Hh. destruct hi as [h'|]; [|discriminate].
        cbn in Hh. injection Hh as <-. specialize (Hhi h' eq_refl). cbn in Hhi. lia.
      - assumption. }
    destruct (Re.rep cs _ _ _ (m ++ rest) k); [discriminate | congruence].
Qed.

Lemma run_complete {R} (r : Re.pattern) (m : string) :
  accepts r m -> boundary_free r = true ->
  forall (prev : option ascii) (rest : string) (k : Re.cont R),
    (forall p, k p rest <> None) -> Re.run r prev (m ++ rest) k <> None.
Proof.
  induction 1 as [cs c Hc|cs lo hi m Hcs Hlo Hhi|r1 r2 m1 m2 A1 IH1 A2 IH2
                  |r m A IH|r|]; intros Hb prev rest k Hk; cbn [Re.run].
  - cbn [append]. rewrite Hc. apply Hk.
  - apply rep_complete; assumption.
  - cbn in Hb. apply andb_true_iff in Hb as [Hb1 Hb2].
    rewrite append_assoc. apply IH1; [assumption|].
    intro p. apply IH2; assumption.
  - cbn in Hb. specialize (IH Hb prev rest k Hk).
    destruct (Re.run r prev (m ++ rest) k); [discriminate | congruence].
  - cbn [append]. destruct (Re.run r prev rest k); [discriminate | apply Hk].
  - discriminate Hb.
Qed.

Lemma search_from_complete (r : Re.pattern) (m post : string) :
  accepts r m -> boundary_free r = true ->
  forall (pre : string) (prev : option ascii),
    Re.search_from r prev (pre ++ m ++ post) = true.
Proof.
  intros A Hb. induction pre as [|c pre IH]; intro prev.
  - cbn [append].
    assert (K : Re.match_here r prev (m ++ post) <> None).
    { unfold Re.match_here. apply run_complete; try assumption. discriminate. }
    destruct (m ++ post) as [|c s]; cbn [Re.search_from];
      destruct (Re.match_here r prev _); congruence.
  - cbn [append Re.search_from].
    destruct (Re.match_here r prev _); [reflexivity | apply IH].
Qed.

Lemma all_chars_In (f : ascii -> bool) (s : string) :
  all_chars f s = true -> forall c, In c (list_ascii_of_string s) -> f c = true.
Proof. unfold all_chars. intro H. apply forallb_forall. exact H. Qed.

Lemma email_local_class_inv (c : ascii) :
  (is_letter c || Re.is_digit c || one_of "._%+-" c) = true ->
  Re.in_cset c (PiiComparison.alnum
                ++ [Re.CChar "."; Re.CChar "_"; Re.CChar "%"; Re.CChar "+";
                    Re.CChar "-"])%list = true.
Proof.
  unfold Re.in_cset, PiiComparison.alnum, is_letter, one_of, Re.is_digit.
  cbn. split_atoms c; cbn; intro H; congruence.
Qed.

Lemma email_domain_class_inv (c : ascii) :
  (is_letter c || Re.is_digit c || one_of ".-" c) = true ->
  Re.in_cset c (PiiComparison.alnum ++ [Re.CChar "."; Re.CChar "-"])%list = true.
Proof.
  unfold Re.in_cset, PiiComparison.alnum, is_letter, one_of, Re.is_digit.
  cbn. split_atoms c; cbn; intro H; congruence.
Qed.

Lemma email_tld_class_inv (c : ascii) :
  is_letter c = true -> Re.in_cset c [Re.CRange "a" "z"; Re.CRange "A" "Z"] = true.
Proof.
  unfold Re.in_cset, is_letter. cbn. split_atoms c; cbn; intro H; congruence.
Qed.

Lemma digit_class (c : ascii) :
  Re.is_digit c = true -> Re.in_cset c PiiComparison.digit = true.
Proof. intro H. unfold Re.in_cset. cbn. rewrite H. reflexivity. Qed.

Lemma accepts_lit (c : ascii) : accepts (Re.lit c) (String c "").
Proof.
  apply accepts_set. unfold Re.in_cset. cbn. rewrite Ascii.eqb_refl. reflexivity.
Qed.

Lemma accepts_plus (cs : Re.cset) (f : ascii -> bool) (n : nat) (m : string) :
  (forall c, f c = true -> Re.in_cset c cs = true) ->
  all_chars f m = true -> (n <= String.length m)%nat ->
  accepts (Re.RRep cs n None) m.
Proof.
  intros Hf Hm Hn. apply accepts_rep; [|assumption|discriminate].
  intros c Hc. apply Hf. apply (all_chars_In f m); assumption.
Qed.

Lemma accepts_exactly (n : nat) (m : string) :
  all_chars Re.is_digit m = true -> String.length m = n ->
  accepts (Re.exactly n PiiComparison.digit) m.
Proof.
  intros Hm Hn. apply accepts_rep.
  - intros c Hc. apply digit_class. apply (all_chars_In _ m); assumption.
  - lia.
  - intros h Hh. injection Hh as <-. lia.
Qed.

Lemma accepts_optional_separator (s : string) :
  optional_separator s -> accepts (Re.opt_set PiiComparison.separator) s.
Proof.
  intros [->|(c & -> & Hc)].
  - apply accepts_opt_none.
  - apply accepts_opt_some. apply accepts_set. exact Hc.
Qed.

Lemma nonempty_length (s : string) : s <> "" -> (1 <= String.length s)%nat.
Proof. destruct s; [congruence | cbn; lia]. Qed.

Lemma email_accepted (local domain tld : string) :
  local <> "" -> domain <> "" -> (2 <= String.length tld)%nat ->
  all_chars (fun c => is_letter c || Re.is_digit c || one_of "._%+-" c) local = true ->
  all_chars (fun c => is_letter c || Re.is_digit c || one_of ".-" c) domain = true ->
  all_chars is_letter tld = true ->
  accepts PiiComparison.email_pattern (local ++ "@" ++ domain ++ "." ++ tld).
Proof.
  intros Hl Hd Ht Cl Cd Ct. unfold PiiComparison.email_pattern. cbn [Re.seq].
  apply accepts_seq.
  { eapply accepts_plus; [apply email_local_class_inv | exact Cl |].
    apply nonempty_length. exact Hl. }
  apply (accepts_seq _ _ "@"); [apply accepts_lit|].
  apply accepts_seq.
  { eapply accepts_plus; [apply email_domain_class_inv | exact Cd |].
    apply nonempty_length. exact Hd. }
  apply (accepts_seq _ _ "."); [apply accepts_lit|].
  eapply accepts_plus; [apply email_tld_class_inv | exact Ct | exact Ht].
Qed.

Lemma phone_accepted (a s1 b s2 c : string) :
  all_chars Re.is_digit a = true -> String.length a = 3%nat ->
  optional_separator s1 ->
  all_chars Re.is_digit b = true -> String.length b = 3%nat ->
  optional_separator s2 ->
  all_chars Re.is_digit c = true -> String.length c = 4%nat ->
  accepts PiiComparison.phone_pattern (a ++ s1 ++ b ++ s2 ++ c).
Proof.
  intros Ca La H1 Cb Lb H2 Cc Lc. unfold PiiComparison.phone_pattern. cbn [Re.seq].
  apply (accepts_seq _ _ ""); [apply accepts_opt_none|].
  apply (accepts_seq _ _ ""); [apply accepts_opt_none|].
  apply accepts_seq; [apply accepts_exactly; assumption|].
  apply (accepts_seq _ _ ""); [apply accepts_opt_none|].
  apply accepts_seq; [apply accepts_optional_separator; assumption|].
  apply accepts_seq; [apply accepts_exactly; assumption|].
  apply accepts_seq; [apply accepts_optional_separator; assumption|].
  apply accepts_exactly; assumption.
Qed.

(** The detector misses no email address and no plain phone number: a text
    that contains local@domain.tld, with a local part and a domain that are
    not empty and made of the characters of the pattern and a top-level
    domain of two letters or more, is reported as email; a text that contains
    three digits, three digits and four digits, with or without one separator
    between the groups, is reported as phone.  What surrounds them does not
    matter. *)
Theorem detector_misses_no_email_and_no_phone (pre post : string) :
  (forall local domain tld,
      local <> "" -> domain <> "" -> (2 <= String.length tld)%nat ->
      all_chars (fun c => is_letter c || Re.is_digit c || one_of "._%+-" c) local
      = true ->
      all_chars (fun c => is_letter c || Re.is_digit c || one_of ".-" c) domain
      = true ->
      all_chars is_letter tld = true ->
      In "email"
         (PiiComparison.found_in (pre ++ local ++ "@" ++ domain ++ "." ++ tld ++ post))) /\
  (forall a s1 b s2 c,
      all_chars Re.is_digit a = true -> String.length a = 3%nat ->
      optional_separator s1 ->
      all_chars Re.is_digit b = true -> String.length b = 3%nat ->
      optional_separator s2 ->
      all_chars Re.is_digit c = true -> String.length c = 4%nat ->
      In "phone" (PiiComparison.found_in (pre ++ a ++ s1 ++ b ++ s2 ++ c ++ post))).
Proof.
  split.
  - intros local domain tld Hl Hd Ht Cl Cd Ct.
    pose proof (email_accepted local domain tld Hl Hd Ht Cl Cd Ct) as A.
    pose proof (search_from_complete _ _ post A eq_refl pre None) as S.
    rewrite !append_assoc in S.
    rewrite found_in_spec. unfold Re.search. rewrite S. left. reflexivity.
  - intros a s1 b s2 c Ca La H1 Cb Lb H2 Cc Lc.
    pose proof (phone_accepted a s1 b s2 c Ca La H1 Cb Lb H2 Cc Lc) as A.
    pose proof (search_from_complete _ _ post A eq_refl pre None) as S.
    rewrite !append_assoc in S.
    rewrite found_in_spec. unfold Re.search. rewrite S.
    apply in_or_app. right. left. reflexivity.
Qed.

Lemma detector_misses_no_email_and_no_phone_witness :
  In "phone" (PiiComparison.found_in "Call 555.123 4567 now").
Proof.
  apply (proj2 (detector_misses_no_email_and_no_phone "Call " " now")
           "555" "." "123" " " "4567"); try reflexivity.
  - right. exists "."%char. split; reflexivity.
  - right. exists " "%char. split; reflexivity.
Defined.

(** ** The text that marks a failure as blocked *)

Lemma prefix_app (n h : string) :
  prefix n h = true <-> exists post, h = n ++ post.
Proof.
  revert h. induction n as [|c n IH]; intro h.
  - destruct h; cbn; (split; [intros _; eexists; reflexivity | reflexivity]).
  - destruct h as [|d h]; cbn.
    + split; [discriminate | intros (post & H); discriminate].
    + destruct (ascii_dec c d) as [->|Hne].
      * rewrite IH. split; intros (post & H); exists post; congruence.
      * split; [discriminate | intros (post & H); congruence].
Qed.

Lemma contains_spec (needle hay : string) :
  Str.contains needle hay = true <-> exists pre post, hay = pre ++ needle ++ post.
Proof.
  induction hay as [|c hay IH]; cbn [Str.contains].
  - rewrite orb_false_r, prefix_app. split.
    + intros (post & H). exists "", post. exact H.
    + intros (pre & post & H). destruct pre; [|discriminate].
      exists post. exact H.
  - rewrite orb_true_iff, prefix_app, IH. split.
    + intros [(post & H) | (pre & post & H)].
      * exists "", post. exact H.
      * exists (String c pre), post. cbn. rewrite H. reflexivity.
    + intros (pre & post & H). destruct pre as [|d pre].
      * left. exists post. exact H.
      * right. cbn in H. injection H as _ H. exists pre, post. exact H.
Qed.

Lemma lower_app (a b : string) : Str.lower (a ++ b) = Str.lower a ++ Str.lower b.
Proof. induction a as [|c a IH]; cbn; [reflexivity | rewrite IH; reflexivity]. Qed.

Lemma lower_app_inv (t a b : string) :
  Str.lower t = a ++ b ->
  exists a' b', t = a' ++ b' /\ Str.lower a' = a /\ Str.lower b' = b.
Proof.
  revert t. induction a as [|c a IH]; intros t H.
  - exists "", t. auto.
  - destruct t as [|d t]; [discriminate|]. cbn in H. injection H as Hc H.
    destruct (IH t H) as (a' & b' & -> & Ha & Hb).
    exists (String d a'), b'. cbn. rewrite Ha, Hc. auto.
Qed.

Lemma names_guardrail_spec (text : string) :
  names_guardrail text = true <->
  exists pre word post, text = pre ++ word ++ post /\ Str.lower word = "guardrail".
Proof.
  unfold names_guardrail. rewrite contains_spec. split.
  - intros (pre & post & H).
    apply lower_app_inv in H as (pre' & rest & -> & _ & H).
    apply lower_app_inv in H as (word & post' & -> & Hw & _).
    exists pre', word, post'. auto.
  - intros (pre & word & post & -> & Hw).
    exists (Str.lower pre), (Str.lower post). rewrite !lower_app, Hw. reflexivity.
Qed.

Lemma invoke_model_failure_blocked (env : Env) (prompt : string) (g : bool)
    (w : World) (e : exn) :
  raised_by (next_call env w (Benchmark.api_params_of prompt g)) = Some e ->
  Benchmark.blocked (fst (Benchmark.invoke_model env prompt g w))
  = is_validation e && names_guardrail (exn_str env e).
Proof.
  intros Hr. unfold next_call in Hr.
  unfold Benchmark.invoke_model, Benchmark.handle, names_guardrail. step_world.
  apply raised_by_inv in Hr as [Hc | (resp & Hc & Hb)]; rewrite Hc; cbn.
  - destruct (is_validation e); cbn; [|reflexivity].
    destruct (Str.contains _ _); reflexivity.
  - rewrite Hb; cbn. destruct (is_validation e); cbn; [|reflexivity].
    destruct (Str.contains _ _); reflexivity.
Qed.

Lemma with_guardrail_failure_blocked (env : Env) (prompt : string) (w : World)
    (e : exn) :
  raised_by (next_call env w (PiiComparison.guardrail_params prompt)) = Some e ->
  PiiComparison.blocked (fst (PiiComparison.invoke_with_guardrail env prompt w))
  = names_guardrail (exn_str env e).
Proof.
  intros Hr. unfold next_call in Hr.
  unfold PiiComparison.invoke_with_guardrail, names_guardrail. step_world.
  apply raised_by_inv in Hr as [Hc | (resp & Hc & Hb)]; rewrite Hc; cbn.
  - reflexivity.
  - rewrite Hb; cbn. reflexivity.
Qed.

(** The check that marks a failed call as blocked does not depend on the
    letter case: when the remote call or the reading of its body raises,
    [invoke_with_guardrail] marks the result blocked exactly when the text of
    the exception contains the word guardrail in some mix of upper and lower
    case, anywhere in the text; [invoke_model] does so exactly when, besides,
    the exception is a validation error. *)
Theorem guardrail_is_sought_in_any_case
    (env : Env) (prompt : string) (w : World) (e : exn) :
  let named :=
    exists pre word post,
      exn_str env e = pre ++ word ++ post /\ Str.lower word = "guardrail" in
  (raised_by (next_call env w (PiiComparison.guardrail_params prompt)) = Some e ->
   (PiiComparison.blocked (fst (PiiComparison.invoke_with_guardrail env prompt w))
    = true <-> named)) /\
  (forall use_guardrail,
      raised_by (next_call env w (Benchmark.api_params_of prompt use_guardrail))
      = Some e ->
      (Benchmark.blocked (fst (Benchmark.invoke_model env prompt use_guardrail w))
       = true <-> is_validation e = true /\ named)).
Proof.
  cbv zeta. split.
  - intro Hr. rewrite (with_guardrail_failure_blocked _ _ _ _ Hr).
    apply names_guardrail_spec.
  - intros g Hr. rewrite (invoke_model_failure_blocked _ _ _ _ _ Hr).
    rewrite andb_true_iff, names_guardrail_spec. reflexivity.
Qed.

Lemma guardrail_is_sought_in_any_case_witness :
  PiiComparison.blocked (fst (PiiComparison.invoke_with_guardrail env_denied "Hello" w0))
  = true.
Proof.
  apply (proj1 (guardrail_is_sought_in_any_case env_denied "Hello" w0
                  (Raised false denied)) eq_refl).
  exists "An error occurred (AccessDeniedException) when calling the InvokeModel operation: not authorized to perform bedrock:Apply",
         "Guardrail", "".
  split; reflexivity.
Defined.
